(** * ai-news: the section extractor, its cache, and the stage runners

    A shallow embedding of
    - [scripts/extract_regex.py]  (extract_sections,
      update_database_with_sections, main),
    - [scripts/workflow.py]       (WorkflowManager.run_full_workflow),
    - [scripts/testing/run.py]    (run_pipeline),
    - [scripts/parse_parallel.py] (convert_pdf, convert_pdfs_parallel),
    - [scripts/fetch.py]          (save_to_db),
    followed by the properties of these functions.

    Conventions.  A Python [str] is a list of code points ([N]).  The
    regular expressions of the source are kept as syntax trees and run by a
    backtracking matcher with the priorities of Python's [re] (leftmost
    start, ordered alternation, greedy and lazy repetition, atomic
    lookahead).  [\s] and [str.strip] use the interpreter's full white
    space table; [\d] and case folding are the ASCII ones (decimal digits
    and case pairs of other scripts are not modelled).  The SQLite table
    [full_documents] is a finite map from id to row; statements never raise
    [sqlite3.Error]. *)

From Stdlib Require Import NArith List Ascii String Lia Bool.
From stdpp Require Import base option list strings gmap.

Local Open Scope N_scope.

(* ===================================================================== *)
(** ** Text *)
(* ===================================================================== *)

Abbreviation text := (list N).

Definition txt (s : string) : text :=
  List.map N_of_ascii (list_ascii_of_string s).

Definition NL : N := 10.
Definition SP : N := 32.

Definition in_range (lo hi c : N) : bool := (lo <=? c) && (c <=? hi).

(** [str.isspace] on one code point, which is also [\s] of a [str]
    pattern. *)
Definition is_space (c : N) : bool :=
  in_range 9 13 c || in_range 28 32 c || (c =? 133) || (c =? 160)
  || (c =? 5760) || in_range 8192 8202 c || (c =? 8232) || (c =? 8233)
  || (c =? 8239) || (c =? 8287) || (c =? 12288).

Definition is_digit (c : N) : bool := in_range 48 57 c.

Definition lower (c : N) : N := if in_range 65 90 c then c + 32 else c.
Definition upper (c : N) : N := if in_range 97 122 c then c - 32 else c.

(** [s.strip()] *)
Fixpoint lstrip (s : text) : text :=
  match s with
  | a :: s' => if is_space a then lstrip s' else s
  | [] => []
  end.

Definition rstrip (s : text) : text := rev (lstrip (rev s)).
Definition strip (s : text) : text := rstrip (lstrip s).

(** [re.sub(r'\s+', ' ', s)]: every maximal run of white space becomes one
    space.  [in_run] records that the previous code point was white
    space. *)
Fixpoint sub_ws_from (in_run : bool) (s : text) : text :=
  match s with
  | [] => []
  | a :: s' =>
      if is_space a
      then (if in_run then sub_ws_from true s' else SP :: sub_ws_from true s')
      else a :: sub_ws_from false s'
  end.

Definition sub_ws (s : text) : text := sub_ws_from false s.

(** [needle in s] for two strings. *)
Fixpoint starts_with (p s : text) : bool :=
  match p, s with
  | [], _ => true
  | a :: p', b :: s' => (a =? b) && starts_with p' s'
  | _ :: _, [] => false
  end.

Fixpoint contains (p s : text) : bool :=
  starts_with p s || match s with [] => false | _ :: s' => contains p s' end.

(* ===================================================================== *)
(** ** Regular expressions *)
(* ===================================================================== *)

Module Re.

(** The constructs that occur in the patterns of [extract_sections].
    Repetition is only ever applied to a character class there ([\s*],
    [\d+], [.*?]), and there is one capturing group. *)
Inductive regex : Type :=
| Eps
| Cls (p : N -> bool)
| Cat (r1 r2 : regex)
| Alt (r1 r2 : regex)
| Many (greedy : bool) (p : N -> bool)
| Grp (r : regex)
| Ahead (r : regex)
| EndZ.

(** Contents of group 1, when it has been closed on the current path. *)
Definition caps := option text.

(** A matcher state is the rest of the subject and the group. *)
Definition answer : Type := text * caps.
Definition cont : Type := text -> caps -> option answer.

Fixpoint many_greedy (p : N -> bool) (k : text -> option answer) (s : text)
  : option answer :=
  match s with
  | a :: s' =>
      if p a then
        match many_greedy p k s' with
        | Some x => Some x
        | None => k s
        end
      else k s
  | [] => k s
  end.

Fixpoint many_lazy (p : N -> bool) (k : text -> option answer) (s : text)
  : option answer :=
  match k s with
  | Some x => Some x
  | None =>
      match s with
      | a :: s' => if p a then many_lazy p k s' else None
      | [] => None
      end
  end.

(** The continuation at the end of a pattern. *)
Definition accept : cont := fun s c => Some (s, c).

(** [run r s c k]: match [r] at the front of [s], then continue with [k];
    [None] is failure, which makes the caller try its next choice.  A
    lookahead is matched on its own and leaves the position where it
    was. *)
Fixpoint run (r : regex) (s : text) (c : caps) (k : cont) : option answer :=
  match r with
  | Eps => k s c
  | Cls p =>
      match s with
      | a :: s' => if p a then k s' c else None
      | [] => None
      end
  | Cat r1 r2 => run r1 s c (fun s' c' => run r2 s' c' k)
  | Alt r1 r2 =>
      match run r1 s c k with
      | Some x => Some x
      | None => run r2 s c k
      end
  | Many g p =>
      (if g then many_greedy else many_lazy) p (fun s' => k s' c) s
  | Grp r1 =>
      run r1 s c
        (fun s' _ => k s' (Some (take (length s - length s')%nat s)))
  | Ahead r1 =>
      match run r1 s c accept with
      | Some (_, c') => k s c'
      | None => None
      end
  | EndZ =>
      match s with
      | [] => k s c
      | _ :: _ => None
      end
  end.

(** A match object: where the match starts, and [group(1)]. *)
Record match_obj : Type := { m_start : nat; m_group1 : caps }.

(** [re.search]: the first start position, from the left, at which the
    pattern matches; the end of the subject is a start position too. *)
Fixpoint search_from (r : regex) (s : text) (i : nat) : option match_obj :=
  match run r s None accept with
  | Some (_, c) => Some {| m_start := i; m_group1 := c |}
  | None =>
      match s with
      | [] => None
      | _ :: s' => search_from r s' (S i)
      end
  end.

Definition search (r : regex) (s : text) : option match_obj :=
  search_from r s 0.

(** [re.split(r, s)[0]]: the part of [s] before the first match. *)
Definition split_head (r : regex) (s : text) : text :=
  match search r s with
  | Some mo => take (m_start mo) s
  | None => s
  end.

(** *** Pattern syntax *)

(** One character of a word.  With IGNORECASE the two match when they are
    equal up to the case of the ASCII letters; the few letters outside
    ASCII that the interpreter also folds onto an ASCII letter (such as
    U+017F onto s) are not modelled, and a statement that depends on a
    word not matching restricts its text to ASCII. *)
Definition chr (ignorecase : bool) (a : N) : regex :=
  Cls (fun c => if ignorecase then lower c =? lower a else c =? a).

(** a literal word *)
Definition lit (ignorecase : bool) (w : string) : regex :=
  fold_right (fun a r => Cat (chr ignorecase a) r) Eps (txt w).

(** [[lo-hi]]; with IGNORECASE a code point is in the range when it, its
    lower case or its upper case is. *)
Definition rng (ignorecase : bool) (lo hi : N) : regex :=
  Cls (fun c =>
         in_range lo hi c
         || (ignorecase && (in_range lo hi (lower c) || in_range lo hi (upper c)))).

Definition opt (r : regex) : regex := Alt r Eps.
Definition ws : regex := Many true is_space.                    (* \s*  *)
Definition nl : regex := Cls (fun c => c =? NL).                (* \n   *)
Definition digit : regex := Cls is_digit.          (* \d, on the ASCII digits *)
Definition digits : regex := Cat (Cls is_digit) (Many true is_digit). (* \d+ *)
Definition dot : regex := Cls (fun c => c =? 46).               (* \.   *)
Definition body : regex := Grp (Many false (fun _ => true)).    (* (.*?) with DOTALL *)

End Re.

Import Re.
Declare Scope re_scope.
Delimit Scope re_scope with re.
Bind Scope re_scope with regex.
Infix "~>" := Cat (at level 60, right associativity) : re_scope.
Infix "</>" := Alt (at level 65, right associativity) : re_scope.


(* ===================================================================== *)
(** ** extract_regex.py: extract_sections *)
(* ===================================================================== *)

(** Exceptions: [Raise] is any exception reaching the enclosing
    [try]. *)
Inductive exc (A : Type) : Type :=
| Ok (a : A)
| Raise.
Arguments Ok {A} a.
Arguments Raise {A}.

Record sections : Type := { abstract : option text; conclusion : option text }.

Definition no_sections : sections := {| abstract := None; conclusion := None |}.

Module Patterns.
Local Open Scope re_scope.

(** All [re.search] calls pass [re.DOTALL | re.IGNORECASE]. *)
Definition word := lit true.
Definition upper_AZ := rng true 65 90.      (* [A-Z] *)
Definition lower_az := rng true 97 122.     (* [a-z] *)
Definition dash := Cls (fun c => (c =? 45) || (c =? 8211) || (c =? 8212)).  (* [-–—] *)
Definition colon_dot := Cls (fun c => (c =? 58) || (c =? 46)).             (* [:\.] *)
Definition plural_s := opt (chr true 115).  (* [s]? *)
Definition plural_S := opt (chr true 83).   (* [S]? *)
Definition numbered := opt (digits ~> opt dot ~> ws).   (* optional section number *)
Definition num_heading := digits ~> opt dot ~> ws ~> upper_AZ.   (* "\d+\.?\s*[A-Z]" *)

(** (?=\n\s*\d|\n\s*[A-Z][a-z]|\Z) *)
Definition until_heading :=
  Ahead ((nl ~> ws ~> digit) </> (nl ~> ws ~> upper_AZ ~> lower_az) </> EndZ).

(** (?=\n\s*(?:\d+\.?\s*[A-Z]|Introduction|INTRODUCTION)|\Z) *)
Definition until_intro :=
  Ahead ((nl ~> ws ~> (num_heading </> word "Introduction" </> word "INTRODUCTION"))
         </> EndZ).

Definition abstract_patterns : list regex :=
  [ word "Abstract" ~> ws ~> nl ~> body ~> until_heading;
    word "ABSTRACT" ~> ws ~> nl ~> body ~> until_heading;
    word "Abstract" ~> ws ~> dash ~> ws ~> body ~> until_heading;
    word "ABSTRACT" ~> ws ~> dash ~> ws ~> body ~> until_heading;
    word "Abstract" ~> opt colon_dot ~> ws ~> body ~> until_intro;
    word "ABSTRACT" ~> opt colon_dot ~> ws ~> body ~> until_intro ].

(** (?=\n\s*(?:Acknowledgement|ACKNOWLEDGEMENT|Reference|REFERENCE|\d+\.?\s*[A-Z])|\Z) *)
Definition back_matter2 :=
  (nl ~> ws ~> (word "Acknowledgement" </> word "ACKNOWLEDGEMENT"
                </> word "Reference" </> word "REFERENCE" </> num_heading))
  </> EndZ.
Definition until_back_matter2 := Ahead back_matter2.

(** (?=\n\s*(?:Acknowledgement|Reference|\d+\.?\s*[A-Z])|\Z) *)
Definition back_matter :=
  (nl ~> ws ~> (word "Acknowledgement" </> word "Reference" </> num_heading))
  </> EndZ.
Definition until_back_matter := Ahead back_matter.

Definition conclusion_patterns : list regex :=
  [ numbered ~> word "Conclusion" ~> plural_s ~> ws ~> nl ~> body ~> until_back_matter2;
    numbered ~> word "CONCLUSION" ~> plural_S ~> ws ~> nl ~> body ~> until_back_matter2;
    word "Conclusion and Limitations" ~> ws ~> nl ~> body ~> until_back_matter2;
    numbered ~> word "Conclusion" ~> plural_s ~> opt colon_dot ~> ws ~> body
      ~> until_back_matter;
    numbered ~> word "CONCLUSION" ~> plural_S ~> opt colon_dot ~> ws ~> body
      ~> until_back_matter;
    word "Concluding Remarks" ~> ws ~> nl ~> body ~> until_back_matter ].

(** (?=\n\s*(?:Conclusion|CONCLUSION|Acknowledgement|ACKNOWLEDGEMENT|Reference|REFERENCE|\d+\.?\s*[A-Z])|\Z) *)
Definition closing2 :=
  (nl ~> ws ~> (word "Conclusion" </> word "CONCLUSION"
                </> word "Acknowledgement" </> word "ACKNOWLEDGEMENT"
                </> word "Reference" </> word "REFERENCE" </> num_heading))
  </> EndZ.
Definition until_closing2 := Ahead closing2.

(** (?=\n\s*(?:Conclusion|Acknowledgement|Reference|\d+\.?\s*[A-Z])|\Z) *)
Definition closing :=
  (nl ~> ws ~> (word "Conclusion" </> word "Acknowledgement"
                </> word "Reference" </> num_heading))
  </> EndZ.
Definition until_closing := Ahead closing.

Definition discussion_patterns : list regex :=
  [ numbered ~> word "Discussion" ~> ws ~> nl ~> body ~> until_closing2;
    numbered ~> word "DISCUSSION" ~> ws ~> nl ~> body ~> until_closing2;
    word "Discussion and Future Work" ~> ws ~> nl ~> body ~> until_closing2;
    numbered ~> word "Discussion" ~> opt colon_dot ~> ws ~> body ~> until_closing;
    word "Discussion and Analysis" ~> ws ~> nl ~> body ~> until_closing ].

(** The argument of [re.split], which is given no flags:
    \n\s*References?|\n\s*REFERENCES? *)
Definition references_heading : regex :=
  (nl ~> ws ~> lit false "Reference" ~> opt (chr false 115))
  </> (nl ~> ws ~> lit false "REFERENCE" ~> opt (chr false 83)).

End Patterns.

(** [match.group(1).strip()] followed by [re.sub(r'\s+', ' ', _)]. *)
Definition normalize (g : text) : text := sub_ws (strip g).

(** ... and, in the conclusion and discussion loops, by
    [re.split(r'\n\s*References?|\n\s*REFERENCES?', _)[0]]. *)
Definition cut_references (t : text) : text :=
  split_head Patterns.references_heading t.

Definition MIN_LENGTH : nat := 50.

(** One [for pattern in ...] loop: the first pattern that matches and whose
    cleaned capture passes the length check is taken ([break]); a pattern
    that does not match, or whose capture is too short, is passed over.
    [group(1)] of a match whose group did not take part is [None], on which
    [.strip()] raises. *)
Fixpoint cascade (clean : text -> text) (patterns : list regex) (content : text)
  : exc (option text) :=
  match patterns with
  | [] => Ok None
  | pattern :: rest =>
      match search pattern content with
      | Some mo =>
          match m_group1 mo with
          | Some g =>
              let section_text := clean g in
              if (MIN_LENGTH <? length section_text)%nat
              then Ok (Some section_text)
              else cascade clean rest content
          | None => Raise
          end
      | None => cascade clean rest content
      end
  end.

Definition find_abstract : text -> exc (option text) :=
  cascade normalize Patterns.abstract_patterns.
Definition find_conclusion : text -> exc (option text) :=
  cascade (fun g => cut_references (normalize g)) Patterns.conclusion_patterns.
Definition find_discussion : text -> exc (option text) :=
  cascade (fun g => cut_references (normalize g)) Patterns.discussion_patterns.

(** The body of [extract_sections] from the point where [content] has been
    found not to be blank, over the three loops.  The discussion loop is
    run only [if not conclusion_found]. *)
Definition extract_with
  (abstract_loop conclusion_loop discussion_loop : text -> exc (option text))
  (content : text) : exc sections :=
  match abstract_loop content with
  | Raise => Raise
  | Ok a =>
      match conclusion_loop content with
      | Raise => Raise
      | Ok (Some c) => Ok {| abstract := a; conclusion := Some c |}
      | Ok None =>
          match discussion_loop content with
          | Raise => Raise
          | Ok d => Ok {| abstract := a; conclusion := d |}
          end
      end
  end.

Definition extract_from_content : text -> exc sections :=
  extract_with find_abstract find_conclusion find_discussion.

(** What [json.load] returns for a conversion file.  [JTexts] is the
    converter's output: a dict with the key 'texts', whose elements are
    dicts with or without a 'text' string.  [JOther] stands for every
    other outcome (a dict with neither key, a number, a list, a file that
    cannot be read or parsed, a 'text' that is not a string ...): each
    leaves [content] empty or raises inside the [try]. *)
Inductive json_doc : Type :=
| JTexts (texts : list (option text))
| JStr (s : text)
| JText (s : text)
| JOther.

Fixpoint join_texts (texts : list (option text)) : text :=
  match texts with
  | [] => []
  | Some t :: rest => strip t ++ [NL; NL] ++ join_texts rest
  | None :: rest => join_texts rest
  end.

(** Reconstruction of [content].  For a JSON string, ['texts' in doc] is a
    substring test, and [doc['texts']] then raises. *)
Definition reconstruct (doc : json_doc) : exc text :=
  match doc with
  | JTexts texts => Ok (join_texts texts)
  | JStr s => if contains (txt "texts") s then Raise else Ok s
  | JText s => Ok s
  | JOther => Ok []
  end.

Definition is_blank (content : text) : bool :=
  match strip content with [] => true | _ :: _ => false end.

Definition extract_sections (doc : json_doc) : sections :=
  match reconstruct doc with
  | Raise => no_sections
  | Ok content =>
      if is_blank content then no_sections
      else match extract_from_content content with
           | Ok s => s
           | Raise => no_sections
           end
  end.

(* ===================================================================== *)
(** ** extract_regex.py: update_database_with_sections *)
(* ===================================================================== *)

(** A row of [full_documents] (create_db.py); the key [id] is the key of
    the map. *)
Record row : Type := {
  row_title : option text;
  row_authors : option text;
  row_pdf_url : option text;
  row_abstract : option text;
  row_conclusion : option text
}.

Abbreviation table := (gmap string row).

Inductive column : Type := ColAbstract | ColConclusion.

(** One [column = ?] of the SET clause with its parameter. *)
Definition assignment : Type := column * text.

Definition assign (r : row) (a : assignment) : row :=
  match a with
  | (ColAbstract, v) =>
      {| row_title := row_title r; row_authors := row_authors r;
         row_pdf_url := row_pdf_url r;
         row_abstract := Some v; row_conclusion := row_conclusion r |}
  | (ColConclusion, v) =>
      {| row_title := row_title r; row_authors := row_authors r;
         row_pdf_url := row_pdf_url r;
         row_abstract := row_abstract r; row_conclusion := Some v |}
  end.

(** UPDATE full_documents SET ... WHERE id = ? *)
Definition sql_update (update_fields : list assignment) (id : string) (db : table)
  : table :=
  alter (fun r => foldl assign r update_fields) id db.

Definition is_not_None {A} (o : option A) : bool :=
  match o with Some _ => true | None => false end.

(** What a call leaves behind: its return value ([Raise] when an exception
    other than [sqlite3.Error] escapes), the UPDATE statement it executed,
    if any, and the table. *)
Record db_call : Type := {
  returned : exc bool;
  executed : option (list assignment);
  db_after : table
}.

Definition update_database_with_sections (id : string) (s : sections) (db : table)
  : db_call :=
  match db !! id with
  | Some current =>
      let update_abstract := is_not_None (abstract s) in
      let update_conclusion := is_not_None (conclusion s) in
      if update_abstract || update_conclusion then
        let update_fields :=
          match abstract s with Some a => [(ColAbstract, a)] | None => [] end
          ++ match conclusion s with Some c => [(ColConclusion, c)] | None => [] end in
        let db' := sql_update update_fields id db in
        (* verify the update *)
        match db' !! id with
        | Some updated =>
            {| returned :=
                 Ok ((negb update_abstract
                      || bool_decide (row_abstract updated = abstract s))
                     && (negb update_conclusion
                         || bool_decide (row_conclusion updated = conclusion s)));
               executed := Some update_fields;
               db_after := db' |}
        | None =>
            (* updated[0] on None *)
            {| returned := Raise; executed := Some update_fields; db_after := db' |}
        end
      else
        {| returned := Ok false; executed := None; db_after := db |}
  | None =>
      {| returned := Ok false; executed := None; db_after := db |}
  end.

(* ===================================================================== *)
(** ** extract_regex.py: main *)
(* ===================================================================== *)

Abbreviation cache := (gmap string sections).

(** What the run reads and writes: the table, the conversion files
    [CONV_DIR/<id>.json] by id, and the file [sections_regex.json]
    ([None] when it does not exist). *)
Record world : Type := {
  db : table;
  conversions : gmap string json_doc;
  sections_json : option cache
}.

(** Observations of a run, kept next to the program state in order to
    state properties of it: calls of [extract_sections], UPDATE statements
    executed, and which counter was incremented for which id, in order. *)
Inductive counter : Type := Successful | Skipped | Failed.

Inductive event : Type :=
| Extracted (id : string)
| Updated (id : string) (update_fields : list assignment)
| Counted (k : counter) (id : string).

Record loop_state : Type := {
  ls_db : table;
  extracted_sections : cache;
  successful_updates : nat;
  skipped : nat;
  failed : nat;
  events : list event
}.

(** Truth value of [sections['abstract']]: [None] and the empty string are
    false. *)
Definition truthy (o : option text) : bool :=
  match o with
  | Some (_ :: _) => true
  | _ => false
  end.

(** skipped += 1 *)
Definition count_skipped (id : string) (st : loop_state) : loop_state :=
  {| ls_db := ls_db st; extracted_sections := extracted_sections st;
     successful_updates := successful_updates st;
     skipped := S (skipped st); failed := failed st;
     events := events st ++ [Counted Skipped id] |}.

(** failed += 1 *)
Definition count_failed (id : string) (db' : table) (evs : list event)
  (st : loop_state) : loop_state :=
  {| ls_db := db'; extracted_sections := extracted_sections st;
     successful_updates := successful_updates st;
     skipped := skipped st; failed := S (failed st);
     events := events st ++ evs ++ [Counted Failed id] |}.

(** extracted_sections[id] = sections; successful_updates += 1 *)
Definition count_successful (id : string) (s : sections) (db' : table)
  (evs : list event) (st : loop_state) : loop_state :=
  {| ls_db := db'; extracted_sections := <[id := s]> (extracted_sections st);
     successful_updates := S (successful_updates st);
     skipped := skipped st; failed := failed st;
     events := events st ++ evs ++ [Counted Successful id] |}.

Definition update_events (id : string) (c : db_call) : list event :=
  match executed c with
  | Some update_fields => [Updated id update_fields]
  | None => []
  end.

(** The body of [for id, in documents]. *)
Definition process (files : gmap string json_doc) (existing_sections : cache)
  (st : loop_state) (id : string) : loop_state :=
  match files !! id with
  | Some doc =>
      if bool_decide (is_Some (existing_sections !! id)) then
        count_skipped id st
      else
        let s := extract_sections doc in
        if truthy (abstract s) || truthy (conclusion s) then
          let c := update_database_with_sections id s (ls_db st) in
          let evs := Extracted id :: update_events id c in
          match returned c with
          | Ok true => count_successful id s (db_after c) evs st
          | Ok false => count_failed id (db_after c) evs st
          | Raise => count_failed id (db_after c) evs st
          end
        else
          count_failed id (ls_db st) [Extracted id] st
  | None =>
      count_failed id (ls_db st) [] st
  end.

Definition start_state (w : world) (existing_sections : cache) : loop_state :=
  {| ls_db := db w; extracted_sections := existing_sections;
     successful_updates := 0; skipped := 0; failed := 0; events := [] |}.

Definition run_loop (w : world) (documents : list string) : loop_state :=
  let existing_sections := default ∅ (sections_json w) in
  foldl (process (conversions w) existing_sections)
        (start_state w existing_sections) documents.

(** SELECT id FROM full_documents, in the order in which the map lists
    its keys (no property below depends on the order). *)
Definition select_ids (t : table) : list string := (map_to_list t).*1.

(** [main]: the world it leaves, and the final loop state; when the table
    is empty it returns before the loop and saves nothing. *)
Definition main (w : world) : world * option loop_state :=
  match select_ids (db w) with
  | [] => (w, None)
  | documents =>
      let st := run_loop w documents in
      ({| db := ls_db st; conversions := conversions w;
          sections_json := Some (extracted_sections st) |}, Some st)
  end.

(* ===================================================================== *)
(** ** workflow.py: WorkflowManager.run_full_workflow *)
(* ===================================================================== *)

Module Workflow.
Section Manager.

(** Everything outside the manager that a step reads or changes (the
    database, the directories), and the step methods [clear_workspace],
    [fetch], ... by the name they are listed under; each catches its own
    exceptions and returns a bool. *)
Variable World : Type.
Variable step_func : string -> World -> bool * World.

Definition steps : list string :=
  ["clear"; "fetch"; "download"; "parse"; "extract"; "summarise"]%string.

(** [self.state], the outside world, and the names of the steps called so
    far, in order. *)
Record manager : Type := {
  state : gmap string bool;
  outside : World;
  called : list string
}.

(** for step_name, step_func in steps *)
Fixpoint run_steps (todo : list string) (m : manager) : bool * manager :=
  match todo with
  | [] => (true, m)
  | step_name :: rest =>
      let '(ok, w') := step_func step_name (outside m) in
      if ok then
        run_steps rest
          {| state := <[step_name := true]> (state m); outside := w';
             called := called m ++ [step_name] |}
      else
        (false,
         {| state := <[step_name := false]> (state m); outside := w';
            called := called m ++ [step_name] |})
  end.

(** [if start_from:] is false for [None] and for the empty string. *)
Definition run_full_workflow (start_from : option string) (m : manager)
  : bool * manager :=
  match start_from with
  | None => run_steps steps m
  | Some EmptyString => run_steps steps m
  | Some name =>
      match list_find (fun n => n = name) steps with
      | Some (start_idx, _) => run_steps (drop start_idx steps) m
      | None => (false, m)       (* Invalid starting point *)
      end
  end.


End Manager.

Arguments state {World} _.
Arguments outside {World} _.
Arguments called {World} _.
End Workflow.

(* ===================================================================== *)
(** ** testing/run.py: run_pipeline *)
(* ===================================================================== *)

Module Pipeline.
Section Run.

(** [run_script] returns whether the script exited with status 0.  The
    two dumps of testing/fulldocs_dump.py either return ([true]) or raise
    ([false]). *)
Variable World : Type.
Variable run_script : string -> World -> bool * World.
Variable dump_summaries : World -> bool * World.
Variable dump_full_documents : World -> bool * World.

Definition pipeline : list (string * bool) :=
  [ ("fetch.py", true); ("download.py", true); ("parse.py", true);
    ("extract_regex.py", true); ("summarise.py", true) ]%string.

Inductive action : Type :=
| Ran (script : string)
| Slept
| DumpedSummaries (ok : bool)
| DumpedFullDocuments (ok : bool).

(** The [for script, required in pipeline] loop; the bool is [false] when
    the loop was left by [return False]. *)
Fixpoint stages (todo : list (string * bool)) (w : World) (log : list action)
  : bool * World * list action :=
  match todo with
  | [] => (true, w, log)
  | (script, required) :: rest =>
      let '(success, w1) := run_script script w in
      let log1 := log ++ [Ran script] in
      if negb success && required then (false, w1, log1)
      else
        let log2 :=
          if bool_decide (script = "extract_regex.py"%string) && success
          then log1 ++ [Slept] else log1 in
        if bool_decide (script = "summarise.py"%string) && success then
          let '(dumped, w2) := dump_summaries w1 in
          let log3 := log2 ++ [DumpedSummaries dumped] in
          if negb dumped && required then (false, w2, log3)
          else stages rest w2 log3
        else stages rest w1 log2
  end.

Definition run_pipeline (w : World) : bool * World * list action :=
  match stages pipeline w [] with
  | (false, w1, log) => (false, w1, log)
  | (true, w1, log) =>
      let '(dumped, w2) := dump_full_documents w1 in
      (true, w2, log ++ [DumpedFullDocuments dumped])
  end.

End Run.
End Pipeline.

(* ===================================================================== *)
(** ** parse_parallel.py: convert_pdf, convert_pdfs_parallel *)
(* ===================================================================== *)

Module Parallel.
Section Convert.

(** [converter.convert(pdf_path)] followed by the JSON export, for the
    PDF with the given stem: [true] when both return, [false] when one of
    them raises.  For a job that fails, [export_raised] tells where: the
    export runs inside [with json_path.open("w")], so when it is
    [export_to_dict] or [json.dump] that raises, the output file has been
    created already and stays; when [converter.convert] or the [open]
    itself raises, there is no file. *)
Variable convert : string -> bool.
Variable export_raised : string -> bool.

Inductive step : Type :=
| Skipping (instance_id : nat) (stem : string)
| Converting (instance_id : nat) (stem : string).

(** The files [<stem>.json] of the output directory, and what the
    coroutines did. *)
Record outputs : Type := { json_files : gset string; steps : list step }.

(** One coroutine.  The coroutines of one batch write different files
    (the stems of one directory are distinct), so they are run here in
    list order. *)
Definition convert_pdf (instance_id : nat) (stem : string) (o : outputs)
  : bool * outputs :=
  if bool_decide (stem ∈ json_files o) then
    (true, {| json_files := json_files o;
              steps := steps o ++ [Skipping instance_id stem] |})
  else if convert stem then
    (true, {| json_files := {[stem]} ∪ json_files o;
              steps := steps o ++ [Converting instance_id stem] |})
  else
    (false, {| json_files := if export_raised stem then {[stem]} ∪ json_files o
                             else json_files o;
               steps := steps o ++ [Converting instance_id stem] |}).

(** zip(input_paths, cycle(converters)) with two converters, then
    [asyncio.gather]: the results in the order of the inputs. *)
Fixpoint gather (i : nat) (input_paths : list string) (o : outputs)
  : list bool * outputs :=
  match input_paths with
  | [] => ([], o)
  | stem :: rest =>
      let '(r, o1) := convert_pdf (S (i mod 2)) stem o in
      let '(rs, o2) := gather (S i) rest o1 in
      (r :: rs, o2)
  end.

Record summary : Type := {
  results : list bool;
  successful : nat;
  failed : nat;
  skipped : nat
}.

Definition count (b : bool) (rs : list bool) : nat :=
  length (filter (fun r => r = b) rs).

Definition convert_pdfs_parallel (input_paths : list string) (o : outputs)
  : option summary * outputs :=
  match input_paths with
  | [] => (None, o)          (* No PDF files found *)
  | _ :: _ =>
      let '(rs, o') := gather 0 input_paths o in
      let successful := count true rs in
      let failed := count false rs in
      (Some {| results := rs; successful := successful; failed := failed;
               skipped := (length rs - successful - failed)%nat |}, o')
  end.

End Convert.
End Parallel.

(* ===================================================================== *)
(** ** Vocabulary of the statements *)
(* ===================================================================== *)

(** The value a column holds after merging in an extracted field. *)
Definition merged (new old : option text) : option text :=
  match new with Some v => Some v | None => old end.

Definition field_of (col : column) (s : sections) : option text :=
  match col with ColAbstract => abstract s | ColConclusion => conclusion s end.

(** Sample data for the examples. *)
Definition sample_row (a c : option text) : row :=
  {| row_title := Some (txt "A title"); row_authors := Some (txt "An author");
     row_pdf_url := Some (txt "http://arxiv.org/pdf/1"); row_abstract := a;
     row_conclusion := c |}.

Definition db_with_abstract : table :=
  {[ "d1"%string := sample_row (Some (txt "A")) None ]}.

(** The result that a run records for an id that is not in the loaded
    cache: the extraction of its conversion file, when the id has a row,
    the file exists and the extraction has a non-empty field. *)
Definition newly_recorded (files : gmap string json_doc) (loaded : cache)
  (t : table) (id : string) : option sections :=
  match loaded !! id, t !! id, files !! id with
  | None, Some _, Some doc =>
      let s := extract_sections doc in
      if truthy (abstract s) || truthy (conclusion s) then Some s else None
  | _, _, _ => None
  end.

(** The same as a map: the conversion files of ids that have a row and are
    not in the loaded cache, extracted, without the empty results. *)
Definition new_results (w : world) : cache :=
  omap (fun doc =>
          let s := extract_sections doc in
          if truthy (abstract s) || truthy (conclusion s) then Some s else None)
       (filter (fun kv => is_Some (db w !! kv.1)
                          /\ default ∅ (sections_json w) !! kv.1 = None)
               (conversions w)).

(** An event that concerns the extraction or the row of [id]. *)
Definition touches (id : string) (e : event) : Prop :=
  match e with
  | Extracted i => i = id
  | Updated i _ => i = id
  | Counted _ _ => False
  end.

(** A run in which the only document is in the loaded cache but has no
    conversion file. *)
Definition world_cached_without_file : world :=
  {| db := db_with_abstract; conversions := ∅;
     sections_json := Some {[ "d1"%string := no_sections ]} |}.

(** A run in which the only document is in the loaded cache and has a
    conversion file. *)
Definition world_cached_with_file : world :=
  {| db := db_with_abstract;
     conversions := {[ "d1"%string := JTexts [Some (txt "Some text.")] ]};
     sections_json := Some {[ "d1"%string := no_sections ]} |}.

(** A run over one document without any section, with no cache file yet. *)
Definition world_sectionless : world :=
  {| db := db_with_abstract;
     conversions := {[ "d1"%string := JTexts [Some (txt "Some text.")] ]};
     sections_json := None |}.

(** The claim that at the end of a run the cache file holds the loaded
    entries and the result of every extraction of the run. *)
Definition records_every_result (w : world) : Prop :=
  forall w' st,
    main w = (w', Some st) ->
    exists m, sections_json w' = Some m
      /\ (forall id s, default ∅ (sections_json w) !! id = Some s -> m !! id = Some s)
      /\ (forall id doc, Extracted id ∈ events st -> conversions w !! id = Some doc ->
            m !! id = Some (extract_sections doc)).

(** The claim that every id of the loaded cache is counted as skipped. *)
Definition counts_cached_as_skipped (w : world) : Prop :=
  forall w' st id,
    main w = (w', Some st) ->
    is_Some (default ∅ (sections_json w) !! id) ->
    is_Some (db w !! id) ->
    Counted Skipped id ∈ events st.

(** Declarative reading of a pattern: [matches r s s'] when [r] can match
    a prefix of [s] and leave [s'], whatever the order in which the
    matcher tries the choices. *)
Inductive matches : regex -> text -> text -> Prop :=
| M_eps s : matches Eps s s
| M_cls p a s : p a = true -> matches (Cls p) (a :: s) s
| M_cat r1 r2 s s1 s2 :
    matches r1 s s1 -> matches r2 s1 s2 -> matches (Cat r1 r2) s s2
| M_alt_l r1 r2 s s' : matches r1 s s' -> matches (Alt r1 r2) s s'
| M_alt_r r1 r2 s s' : matches r2 s s' -> matches (Alt r1 r2) s s'
| M_many_stop g p s : matches (Many g p) s s
| M_many_step g p a s s' :
    p a = true -> matches (Many g p) s s' -> matches (Many g p) (a :: s) s'
| M_grp r s s' : matches r s s' -> matches (Grp r) s s'
| M_ahead r s s' : matches r s s' -> matches (Ahead r) s s
| M_endz : matches EndZ [] [].

(** The pattern closes group 1 on every path. *)
Fixpoint sets_group (r : regex) : bool :=
  match r with
  | Grp _ => true
  | Cat r1 r2 => sets_group r1 || sets_group r2
  | Alt r1 r2 => sets_group r1 && sets_group r2
  | Ahead r1 => sets_group r1
  | _ => false
  end.

Fixpoint has_group (r : regex) : bool :=
  match r with
  | Grp _ => true
  | Cat r1 r2 | Alt r1 r2 => has_group r1 || has_group r2
  | Ahead r1 => has_group r1
  | _ => false
  end.

Definition is_lazy_body (r : regex) : bool :=
  match r with
  | Grp (Many false _) => true
  | _ => false
  end.

(** The lookahead that ends a pattern of the shape
    [... (.*?)(?=boundary)]. *)
Fixpoint boundary_of (r : regex) : option regex :=
  match r with
  | Cat r1 r2 =>
      match is_lazy_body r1, r2 with
      | true, Ahead b => Some b
      | _, _ => boundary_of r2
      end
  | _ => None
  end.

(** A pattern that a cascade passes over: it does not match, or the text
    it captures is, once cleaned, not longer than the minimum. *)
Definition passed_over (clean : text -> text) (content : text) (pattern : regex)
  : Prop :=
  match search pattern content with
  | None => True
  | Some mo =>
      exists g, m_group1 mo = Some g /\ (length (clean g) <= MIN_LENGTH)%nat
  end.

(** A pattern that matches with the given capture. *)
Definition captures (pattern : regex) (content g : text) : Prop :=
  exists mo, search pattern content = Some mo /\ m_group1 mo = Some g.

(** The three cascades of [extract_sections] with their pattern lists. *)
Definition cascades : list ((text -> exc (option text)) * list regex) :=
  [ (find_abstract, Patterns.abstract_patterns);
    (find_conclusion, Patterns.conclusion_patterns);
    (find_discussion, Patterns.discussion_patterns) ].

(** "Abstract", a newline, and [n] letters x. *)
Definition abstract_of_length (n : nat) : text :=
  txt "Abstract" ++ [NL] ++ replicate n 120.

(** The claim that a capture of at least 50 characters whose pattern is
    the first to match is accepted, for the abstract cascade. *)
Definition accepts_from_minimum (content : text) : Prop :=
  forall p post g,
    Patterns.abstract_patterns = p :: post ->
    captures p content g ->
    (MIN_LENGTH <= length (normalize g))%nat ->
    find_abstract content = Ok (Some (normalize g)).

Definition discussion_text : text :=
  txt "The results suggest that the method works well in practice.".

(** A Discussion section only. *)
Definition only_discussion : text :=
  txt "Discussion" ++ [NL] ++ discussion_text.

(** A Discussion section followed by a short Conclusion section. *)
Definition discussion_and_short_conclusion : text :=
  txt "Discussion" ++ [NL] ++ discussion_text ++ [NL]
  ++ txt "Conclusion" ++ [NL] ++ txt "Short.".

(** The claim that, when a conclusion pattern matches the text, the
    conclusion of the result comes from a conclusion pattern. *)
Definition conclusion_pattern_wins (content : text) : Prop :=
  (exists p g, p ∈ Patterns.conclusion_patterns /\ captures p content g) ->
  forall s, extract_from_content content = Ok s ->
  exists p g, p ∈ Patterns.conclusion_patterns /\ captures p content g
              /\ conclusion s = Some (cut_references (normalize g)).

(** A pattern whose capture is ended by a lookahead that succeeds, among
    others, in front of every References heading. *)
Definition stops_at_references (p : regex) : Prop :=
  exists b,
    boundary_of p = Some b
    /\ has_group b = false
    /\ forall t s' u, matches Patterns.references_heading t s' ->
                      exists s'', matches b (t ++ u) s''.

Definition conclusion_text : text :=
  txt "We have shown that the method works and leave the rest to others.".

(** A Conclusion section followed by the list of references. *)
Definition conclusion_then_references : text :=
  txt "5 Conclusion" ++ [NL] ++ conclusion_text ++ [NL; NL]
  ++ txt "References" ++ [NL] ++ txt "[1] A. Author. A title. 2020.".

(** A step function under which only the step "extract" fails. *)
Definition extract_fails (name : string) (w : unit) : bool * unit :=
  (negb (String.eqb name "extract"), w).

Definition fresh_manager : Workflow.manager unit :=
  {| Workflow.state := ∅; Workflow.outside := tt; Workflow.called := [] |}.

(** What the steps of a list return when they are called one after the
    other, each on the world that the one before it left, and the world
    after the last. *)
Fixpoint outcomes (World : Type) (step_func : string -> World -> bool * World)
  (names : list string) (w : World) : list bool * World :=
  match names with
  | [] => ([], w)
  | step_name :: rest =>
      let '(ok, w1) := step_func step_name w in
      let '(oks, w') := outcomes World step_func rest w1 in
      (ok :: oks, w')
  end.

(** The claim that a run started from a step calls all the steps from that
    one onward. *)
Definition calls_all_from (World : Type) (step_func : string -> World -> bool * World)
  (K : string) : Prop :=
  forall m before after,
    Workflow.steps = before ++ K :: after ->
    Workflow.called (Workflow.run_full_workflow World step_func (Some K) m).2
    = Workflow.called m ++ K :: after.

(** Scripts that all exit with status 0, a dump that raises, and a dump
    that returns. *)
Definition scripts_succeed (script : string) (w : unit) : bool * unit := (true, w).
Definition dump_raises (w : unit) : bool * unit := (false, w).
Definition dump_returns (w : unit) : bool * unit := (true, w).

(** The claim that a run in which every script succeeds reports success,
    whatever the two dumps do. *)
Definition dump_failures_absorbed (World : Type)
  (run_script : string -> World -> bool * World)
  (dump_summaries dump_full_documents : World -> bool * World) : Prop :=
  (forall script w, (run_script script w).1 = true) ->
  forall w,
    (Pipeline.run_pipeline World run_script dump_summaries dump_full_documents w).1.1
    = true.

(** A batch of one PDF whose output exists already. *)
Definition output_exists : Parallel.outputs :=
  {| Parallel.json_files := {[ "paper"%string ]}; Parallel.steps := [] |}.

(** What a job of a batch does and returns, given the output files that
    exist when the batch starts. *)
Definition job_step (existing : gset string) (i : nat) (stem : string)
  : Parallel.step :=
  if bool_decide (stem ∈ existing) then Parallel.Skipping (S (i mod 2)) stem
  else Parallel.Converting (S (i mod 2)) stem.

Fixpoint job_steps (existing : gset string) (i : nat) (input_paths : list string)
  : list Parallel.step :=
  match input_paths with
  | [] => []
  | stem :: rest => job_step existing i stem :: job_steps existing (S i) rest
  end.

Definition job_result (convert : string -> bool) (existing : gset string)
  (stem : string) : bool :=
  bool_decide (stem ∈ existing) || convert stem.

(** A conversion in which the Conclusion heading is directly followed by
    the References heading and the list of references. *)
Definition conclusion_without_body : json_doc :=
  JTexts [ Some (txt "5 Conclusion"); Some (txt "References");
           Some (txt "[1] A. Author. A long title of a paper. Journal, 2020.");
           Some (txt "[2] B. Author. Another long title. Conference, 2021.") ].

(** The list of references of that conversion, from the heading on. *)
Definition references_section : text :=
  txt "References" ++ [NL; NL]
  ++ txt "[1] A. Author. A long title of a paper. Journal, 2020." ++ [NL; NL]
  ++ txt "[2] B. Author. Another long title. Conference, 2021." ++ [NL; NL].

(* ===================================================================== *)
(** ** Vocabulary of the further properties *)
(* ===================================================================== *)

(** [single_spaced after_space t]: every white space of [t] is a single
    U+0020 that neither follows another one (nor the start, when
    [after_space] is set) nor ends the text. *)
Fixpoint single_spaced (after_space : bool) (t : text) : bool :=
  match t with
  | [] => negb after_space
  | a :: t' =>
      if is_space a then (a =? SP) && negb after_space && single_spaced true t'
      else single_spaced false t'
  end.

(** A text in the form that [normalize] produces: empty, or words
    separated by single spaces. *)
Definition is_normalized (t : text) : bool :=
  match t with
  | [] => true
  | _ :: _ => single_spaced true t
  end.

(** [s.lower()] on the ASCII letters. *)
Definition lowercase (t : text) : text := List.map lower t.

(** A pattern that can only match a text in which, case aside, one of the
    labels occurs. *)
Definition mentions (labels : list text) (p : regex) : Prop :=
  forall s s', matches p s s' ->
  exists label, label ∈ labels /\ contains label (lowercase s) = true.

(** A text element without text, or whose text is blank. *)
Definition blank_element (o : option text) : Prop :=
  match o with
  | Some t => strip t = []
  | None => True
  end.

(** A conversion without any text that is not blank. *)
Definition blank_doc (doc : json_doc) : Prop :=
  match doc with
  | JTexts texts => Forall blank_element texts
  | JStr s => strip s = []
  | JText s => strip s = []
  | JOther => True
  end.

(** A row after an extraction result has been merged into it. *)
Definition enrich (s : sections) (r : row) : row :=
  {| row_title := row_title r; row_authors := row_authors r;
     row_pdf_url := row_pdf_url r;
     row_abstract := merged (abstract s) (row_abstract r);
     row_conclusion := merged (conclusion s) (row_conclusion r) |}.

(** The row of an id after a run over a table in which it was [r]. *)
Definition row_after_run (w : world) (id : string) (r : row) : row :=
  match newly_recorded (conversions w) (default ∅ (sections_json w)) (db w) id with
  | Some s => enrich s r
  | None => r
  end.

Definition is_update (e : event) : Prop :=
  match e with Updated _ _ => True | _ => False end.

(** The scripts that a log of the pipeline shows as run, in order. *)
Definition scripts_run (log : list Pipeline.action) : list string :=
  omap (fun a => match a with Pipeline.Ran script => Some script | _ => None end) log.

(** The batch converted the PDF with this stem. *)
Definition converted (stem : string) (new : list Parallel.step) : Prop :=
  exists instance_id, Parallel.Converting instance_id stem ∈ new.

(* ===================================================================== *)
(** ** fetch.py: save_to_db *)
(* ===================================================================== *)

(** A paper as [fetch_papers] builds it. *)
Record paper : Type := {
  paper_id : string;
  paper_title : text;
  paper_authors : text;
  paper_pdf_url : text
}.

(** The table [summaries]: id, and the nullable column [summary]. *)
Abbreviation summaries := (gmap string (option text)).

(** INSERT OR REPLACE INTO full_documents (id, title, authors, pdf_url):
    a row with the same id is replaced by the new one, in which the columns
    that the statement does not list, abstract and conclusion, are NULL. *)
Definition insert_or_replace (t : table) (p : paper) : table :=
  <[paper_id p := {| row_title := Some (paper_title p);
                     row_authors := Some (paper_authors p);
                     row_pdf_url := Some (paper_pdf_url p);
                     row_abstract := None;
                     row_conclusion := None |}]> t.

(** INSERT OR IGNORE INTO summaries (id): nothing happens when the id has
    a row; otherwise a row with a NULL summary is added. *)
Definition insert_or_ignore (s : summaries) (p : paper) : summaries :=
  match s !! paper_id p with
  | Some _ => s
  | None => <[paper_id p := None]> s
  end.

(** The two [executemany] calls, each over the papers in order. *)
Definition save_to_db (papers : list paper) (d : table * summaries)
  : table * summaries :=
  (foldl insert_or_replace d.1 papers, foldl insert_or_ignore d.2 papers).

(** The world in which the papers have been fetched again. *)
Definition refetched (papers : list paper) (s : summaries) (w : world) : world :=
  {| db := (save_to_db papers (db w, s)).1; conversions := conversions w;
     sections_json := sections_json w |}.

(** A paper whose conversion has an abstract, for the examples. *)
Definition sample_paper : paper :=
  {| paper_id := "d1"; paper_title := txt "A title";
     paper_authors := txt "An author"; paper_pdf_url := txt "http://example.org/d1" |}.

(** A text of ASCII characters only; on these the case folding and the
    digits of the patterns are the ones modelled. *)
Definition ascii_only (t : text) : Prop := Forall (fun c => c < 128) t.

(** A conversion in which a heading, the text of its section and a further
    text follow one another. *)
Definition section_layout (before : list (option text)) (heading b next : text)
  (more : list (option text)) : json_doc :=
  JTexts (before ++ [Some heading; Some b; Some next] ++ more).

(** The number in front of a heading: digits, dots and white space. *)
Definition numbering (z : text) : Prop :=
  Forall (fun a => is_digit a || (a =? 46) || is_space a = true) z.

(** Nothing, or the letter s in either case. *)
Definition plural_ending (pl : text) : Prop :=
  pl = [] \/ exists a, pl = [a] /\ lower a = 115.

(** The text starts, case aside, with one of the labels. *)
Definition begins_with (labels : list text) (t : text) : Prop :=
  exists u r, t = u ++ r /\ lowercase u ∈ labels.

Definition long_sentence : text :=
  txt "We study a problem and we show that a simple method solves it well.".

(* ===================================================================== *)
(** * Properties *)
(* ===================================================================== *)

(** ** The persist step *)

Section Persist.
Implicit Types (db : table) (id : string) (s : sections) (r : row).

Lemma sql_update_lookup update_fields id db :
  sql_update update_fields id db !! id
  = (fun r => foldl assign r update_fields) <$> db !! id.
Proof. unfold sql_update. by rewrite lookup_alter_eq. Qed.

Lemma sql_update_lookup_ne update_fields id id' db :
  id ≠ id' -> sql_update update_fields id db !! id' = db !! id'.
Proof. intros Hne. unfold sql_update. by rewrite lookup_alter_ne. Qed.

Lemma sql_update_dom update_fields id db id' :
  is_Some (sql_update update_fields id db !! id') <-> is_Some (db !! id').
Proof.
  destruct (decide (id = id')) as [->|Hne].
  - rewrite sql_update_lookup. apply fmap_is_Some.
  - by rewrite sql_update_lookup_ne.
Qed.

Lemma update_found id s db current :
  db !! id = Some current ->
  let c := update_database_with_sections id s db in
  let r' := {| row_title := row_title current; row_authors := row_authors current;
               row_pdf_url := row_pdf_url current;
               row_abstract := merged (abstract s) (row_abstract current);
               row_conclusion := merged (conclusion s) (row_conclusion current) |} in
  match abstract s, conclusion s with
  | None, None => c = {| returned := Ok false; executed := None; db_after := db |}
  | Some a, None =>
      c = {| returned := Ok true; executed := Some [(ColAbstract, a)];
             db_after := <[id := r']> db |}
  | None, Some v =>
      c = {| returned := Ok true; executed := Some [(ColConclusion, v)];
             db_after := <[id := r']> db |}
  | Some a, Some v =>
      c = {| returned := Ok true;
             executed := Some [(ColAbstract, a); (ColConclusion, v)];
             db_after := <[id := r']> db |}
  end.
Proof.
  intros Hcur. unfold update_database_with_sections. rewrite Hcur.
  destruct s as [[a|] [v|]]; cbn [abstract conclusion is_not_None orb merged app];
    try reflexivity.
  all: rewrite sql_update_lookup, Hcur; cbn [fmap option_fmap option_map foldl assign
         row_abstract row_conclusion row_title row_authors row_pdf_url negb orb andb].
  all: rewrite ?bool_decide_eq_true_2 by reflexivity; cbn [andb].
  all: f_equal; unfold sql_update; apply map_eq; intros j;
       destruct (decide (id = j)) as [<-|Hne];
       [ rewrite lookup_alter_eq, lookup_insert_eq, Hcur; reflexivity
       | rewrite lookup_alter_ne, lookup_insert_ne by done; reflexivity ].
Qed.

Lemma update_not_found id s db :
  db !! id = None ->
  update_database_with_sections id s db
  = {| returned := Ok false; executed := None; db_after := db |}.
Proof. intros Hnone. unfold update_database_with_sections. by rewrite Hnone. Qed.

(** No call creates or deletes a row. *)
Lemma update_keeps_ids id s db id' :
  is_Some (db_after (update_database_with_sections id s db) !! id')
  <-> is_Some (db !! id').
Proof.
  unfold update_database_with_sections.
  destruct (db !! id) as [current|] eqn:Hcur; [ | reflexivity ].
  destruct (is_not_None (abstract s) || is_not_None (conclusion s)); [ | reflexivity ].
  destruct (sql_update _ id db !! id); cbn [db_after]; apply sql_update_dom.
Qed.

Lemma update_other_rows id s db id' :
  id' <> id -> db_after (update_database_with_sections id s db) !! id' = db !! id'.
Proof.
  intros Hne. unfold update_database_with_sections.
  destruct (db !! id) as [current|] eqn:Hcur; [ | reflexivity ].
  destruct (is_not_None (abstract s) || is_not_None (conclusion s)); [ | reflexivity ].
  destruct (sql_update _ id db !! id); cbn [db_after];
    by rewrite sql_update_lookup_ne.
Qed.

(** With a row and something to write, the call reports success. *)
Lemma update_succeeds id s db :
  is_Some (db !! id) ->
  truthy (abstract s) || truthy (conclusion s) = true ->
  returned (update_database_with_sections id s db) = Ok true.
Proof.
  intros [current Hcur] Htruthy.
  pose proof (update_found id s db current Hcur) as H. cbv zeta in H.
  destruct s as [[a|] [v|]]; cbn [abstract conclusion] in *;
    try (rewrite H; reflexivity).
  discriminate Htruthy.
Qed.

End Persist.

(** C1.  For an id that has a row in [full_documents] and any extraction
    result, the UPDATE that [update_database_with_sections] executes names
    exactly the fields that are non-null in the result, and nothing is
    executed (the table is unchanged) when both are null.  The row
    afterwards holds, in each of the two columns, the new value when there
    is one and the old value otherwise; so a non-null column never becomes
    null, and writing (null, X) over a row whose abstract is A leaves
    (A, X).  The other columns and the other rows are untouched. *)
Theorem update_merges_non_null_fields
  (id : string) (s : sections) (db : table) (current : row) :
  db !! id = Some current ->
  let c := update_database_with_sections id s db in
  (executed c = None <-> abstract s = None /\ conclusion s = None)
  /\ (executed c = None -> db_after c = db)
  /\ (forall update_fields, executed c = Some update_fields ->
        forall col v, (col, v) ∈ update_fields <-> field_of col s = Some v)
  /\ (exists updated,
        db_after c !! id = Some updated
        /\ row_abstract updated = merged (abstract s) (row_abstract current)
        /\ row_conclusion updated = merged (conclusion s) (row_conclusion current)
        /\ row_title updated = row_title current
        /\ row_authors updated = row_authors current
        /\ row_pdf_url updated = row_pdf_url current
        /\ (row_abstract current <> None -> row_abstract updated <> None)
        /\ (row_conclusion current <> None -> row_conclusion updated <> None)
        /\ (forall A X, row_abstract current = Some A ->
              abstract s = None -> conclusion s = Some X ->
              row_abstract updated = Some A /\ row_conclusion updated = Some X))
  /\ (forall id', id' <> id -> db_after c !! id' = db !! id').
Proof.
  intros Hcur c. pose proof (update_found id s db current Hcur) as Hc.
  fold c in Hc. cbv zeta in Hc.
  assert (Hmerge_a : row_abstract current <> None ->
            merged (abstract s) (row_abstract current) <> None).
  { destruct (abstract s); cbn; congruence. }
  assert (Hmerge_c : row_conclusion current <> None ->
            merged (conclusion s) (row_conclusion current) <> None).
  { destruct (conclusion s); cbn; congruence. }
  assert (Hin : forall (l : list assignment) col w,
            l = match abstract s with Some a => [(ColAbstract, a)] | None => [] end
                ++ match conclusion s with Some v => [(ColConclusion, v)] | None => [] end ->
            (col, w) ∈ l <-> field_of col s = Some w).
  { intros l col w ->. rewrite elem_of_app.
    destruct s as [[a|] [v|]], col; cbn [abstract conclusion field_of];
      rewrite ?elem_of_cons, ?elem_of_nil; split; intros H;
      repeat (destruct H as [H|H]); try congruence; try tauto;
      injection H as ->; auto. }
  destruct s as [[a|] [v|]]; cbn [abstract conclusion] in *; rewrite Hc;
    cbn [executed db_after].
  all: split; [ split; [ intros; split; congruence | intros [? ?]; congruence ] | ].
  all: split; [ congruence | ].
  all: split; [ intros l [= <-]; intros; by apply Hin | ].
  all: split; [ | intros id' Hne; by rewrite ?lookup_insert_ne ].
  all: try (eexists; split; [ apply lookup_insert_eq | ]).
  all: try (exists current; split; [ exact Hcur | ]).
  all: cbn [row_abstract row_conclusion row_title row_authors row_pdf_url merged].
  all: repeat apply conj; try reflexivity; try congruence; auto.
  all: intros A X HA _ [= ->]; auto.
Qed.

Lemma update_merges_non_null_fields_witness :
  db_with_abstract !! "d1"%string = Some (sample_row (Some (txt "A")) None)
  /\ exists updated,
       db_after (update_database_with_sections "d1"
                   {| abstract := None; conclusion := Some (txt "X") |}
                   db_with_abstract) !! "d1"%string = Some updated
       /\ row_abstract updated = Some (txt "A")
       /\ row_conclusion updated = Some (txt "X").
Proof.
  assert (H : db_with_abstract !! "d1"%string = Some (sample_row (Some (txt "A")) None))
    by reflexivity.
  split; [ exact H | ].
  destruct (update_merges_non_null_fields "d1"
              {| abstract := None; conclusion := Some (txt "X") |}
              db_with_abstract _ H)
    as (_ & _ & _ & (updated & Hrow & _ & _ & _ & _ & _ & _ & _ & Hex) & _).
  exists updated. split; [ exact Hrow | ].
  apply Hex; reflexivity.
Defined.

(** ** The batch run *)

Section Loop.
Variable files : gmap string json_doc.
Variable loaded : cache.

Lemma process_keeps_ids st d id :
  is_Some (ls_db (process files loaded st d) !! id) <-> is_Some (ls_db st !! id).
Proof.
  unfold process.
  destruct (files !! d) as [doc|]; [ | reflexivity ].
  case_bool_decide; [ reflexivity | ].
  destruct (truthy _ || truthy _); [ | reflexivity ].
  destruct (returned _) as [[|]|]; cbn [ls_db count_successful count_failed];
    apply update_keeps_ids.
Qed.

Lemma process_cached_row st d id :
  is_Some (loaded !! id) -> ls_db (process files loaded st d) !! id = ls_db st !! id.
Proof.
  intros Hin. unfold process.
  destruct (files !! d) as [doc|]; [ | reflexivity ].
  case_bool_decide as Hd; [ reflexivity | ].
  assert (id <> d) by (intros ->; contradiction).
  destruct (truthy _ || truthy _); [ | reflexivity ].
  destruct (returned _) as [[|]|]; cbn [ls_db count_successful count_failed];
    by apply update_other_rows.
Qed.

Lemma process_extracted st d :
  extracted_sections (process files loaded st d)
  = match newly_recorded files loaded (ls_db st) d with
    | Some s => <[d := s]> (extracted_sections st)
    | None => extracted_sections st
    end.
Proof.
  unfold process, newly_recorded.
  destruct (files !! d) as [doc|] eqn:Hfile.
  2: { by destruct (loaded !! d), (ls_db st !! d). }
  case_bool_decide as Hd.
  { destruct Hd as [s Hs]. by rewrite Hs. }
  destruct (loaded !! d) eqn:Hl; [ exfalso; eauto | ].
  destruct (ls_db st !! d) as [current|] eqn:Hrow.
  - cbv zeta.
    destruct (truthy _ || truthy _) eqn:Htruthy; [ | reflexivity ].
    rewrite update_succeeds by eauto. reflexivity.
  - destruct (truthy _ || truthy _); [ | reflexivity ].
    by rewrite (update_not_found _ _ _ Hrow).
Qed.

Lemma process_skipped st d :
  skipped (process files loaded st d)
  = (skipped st
     + if bool_decide (is_Some (files !! d) /\ is_Some (loaded !! d)) then 1 else 0)%nat.
Proof.
  unfold process.
  destruct (files !! d) as [doc|] eqn:Hfile.
  - case_bool_decide as Hd.
    + rewrite bool_decide_eq_true_2 by eauto. cbn. lia.
    + rewrite bool_decide_eq_false_2 by tauto.
      destruct (truthy _ || truthy _); [ | cbn; lia ].
      destruct (returned _) as [[|]|]; cbn; lia.
  - rewrite bool_decide_eq_false_2; [ cbn; lia | ].
    intros [[? ?] _]; discriminate.
Qed.

(** What one iteration appends to the log. *)
Lemma process_events st d :
  exists evs,
    events (process files loaded st d) = events st ++ evs
    /\ (forall id e, e ∈ evs -> touches id e -> id = d /\ loaded !! d = None)
    /\ (forall k id, Counted k id ∈ evs -> id = d)
    /\ (is_Some (loaded !! d) ->
        evs = [Counted (match files !! d with Some _ => Skipped | None => Failed end) d]).
Proof.
  unfold process.
  destruct (files !! d) as [doc|] eqn:Hfile.
  - case_bool_decide as Hd.
    + exists [Counted Skipped d]. cbn [events count_skipped].
      split; [ reflexivity | ]. split; [ | split; [ | reflexivity ] ].
      * intros id e He Ht. apply list_elem_of_singleton in He. subst e. destruct Ht.
      * intros k id He. apply list_elem_of_singleton in He. congruence.
    + assert (Hl : loaded !! d = None).
      { destruct (loaded !! d) eqn:E; [ exfalso; eauto | reflexivity ]. }
      assert (forall evs0 k0,
                 (forall e, e ∈ evs0 -> touches d e) ->
                 exists evs, events st ++ evs0 ++ [Counted k0 d] = events st ++ evs
                   /\ (forall id e, e ∈ evs -> touches id e -> id = d /\ loaded !! d = None)
                   /\ (forall k id, Counted k id ∈ evs -> id = d)
                   /\ (is_Some (loaded !! d) ->
                       evs = [Counted Skipped d])) as Hgen.
      { intros evs0 k0 Hall. exists (evs0 ++ [Counted k0 d]).
        split; [ reflexivity | ]. split; [ | split ].
        - intros id e He Ht. apply elem_of_app in He as [He|He].
          + apply Hall in He. destruct e; cbn in *; try contradiction; split; congruence.
          + apply list_elem_of_singleton in He. subst e. destruct Ht.
        - intros k id He. apply elem_of_app in He as [He|He].
          + apply Hall in He. destruct He.
          + apply list_elem_of_singleton in He. congruence.
        - intros [? ?]; congruence. }
      assert (forall c, forall e, e ∈ Extracted d :: update_events d c -> touches d e)
        as Hupd.
      { intros c e He. apply elem_of_cons in He as [->|He]; [ reflexivity | ].
        unfold update_events in He. destruct (executed c).
        - apply list_elem_of_singleton in He. by subst e.
        - by apply elem_of_nil in He. }
      destruct (truthy _ || truthy _).
      * destruct (returned _) as [[|]|];
          cbn [events count_successful count_failed]; apply Hgen, Hupd.
      * cbn [events count_failed]. apply Hgen.
        intros e He. apply list_elem_of_singleton in He. by subst e.
  - exists [Counted Failed d]. cbn [events count_failed app].
    split; [ reflexivity | ]. split; [ | split; [ | reflexivity ] ].
    + intros id e He Ht. apply list_elem_of_singleton in He. subst e. destruct Ht.
    + intros k id He. apply list_elem_of_singleton in He. congruence.
Qed.

End Loop.

Section Run.
Variable files : gmap string json_doc.
Variable loaded : cache.

Lemma newly_recorded_rows (t1 t2 : table) d :
  (is_Some (t1 !! d) <-> is_Some (t2 !! d)) ->
  newly_recorded files loaded t1 d = newly_recorded files loaded t2 d.
Proof.
  intros H. unfold newly_recorded.
  destruct (t1 !! d) eqn:E1, (t2 !! d) eqn:E2; try reflexivity.
  - destruct (proj1 H (ltac:(eauto))); discriminate.
  - destruct (proj2 H (ltac:(eauto))); discriminate.
Qed.

Lemma run_keeps_ids l st id :
  is_Some (ls_db (foldl (process files loaded) st l) !! id) <-> is_Some (ls_db st !! id).
Proof.
  revert st. induction l as [|d l IH]; intros st; [ reflexivity | ].
  etrans; [ apply (IH (process files loaded st d)) | apply process_keeps_ids ].
Qed.

Lemma run_cached_row l st id :
  is_Some (loaded !! id) -> ls_db (foldl (process files loaded) st l) !! id = ls_db st !! id.
Proof.
  intros Hin. revert st. induction l as [|d l IH]; intros st; [ reflexivity | ].
  etrans; [ apply (IH (process files loaded st d)) | by apply process_cached_row ].
Qed.

Lemma run_extracted l st id :
  extracted_sections st = loaded ->
  extracted_sections (foldl (process files loaded) st l) !! id
  = match loaded !! id with
    | Some s => Some s
    | None => if bool_decide (id ∈ l) then newly_recorded files loaded (ls_db st) id
              else None
    end.
Proof.
  intros Hst. induction l as [|d l IH] using rev_ind.
  - cbn. rewrite Hst. rewrite bool_decide_eq_false_2 by apply not_elem_of_nil.
    by destruct (loaded !! id).
  - rewrite foldl_app. cbn [foldl].
    rewrite process_extracted.
    rewrite (newly_recorded_rows _ (ls_db st) d) by apply run_keeps_ids.
    destruct (decide (id = d)) as [->|Hne].
    + rewrite (bool_decide_eq_true_2 (d ∈ l ++ [d]))
        by (rewrite elem_of_app, list_elem_of_singleton; auto).
      destruct (newly_recorded files loaded (ls_db st) d) as [s|] eqn:Hnew.
      * rewrite lookup_insert_eq.
        unfold newly_recorded in Hnew. by destruct (loaded !! d).
      * rewrite IH. destruct (loaded !! d); [ reflexivity | ].
        by case_bool_decide.
    + assert (id ∈ l ++ [d] <-> id ∈ l) as Hiff.
      { rewrite elem_of_app, list_elem_of_singleton. tauto. }
      rewrite (bool_decide_ext _ _ Hiff).
      destruct (newly_recorded files loaded (ls_db st) d);
        rewrite ?lookup_insert_ne by done; apply IH.
Qed.

Lemma run_skipped l st :
  skipped (foldl (process files loaded) st l)
  = (skipped st
     + length (filter (fun d => is_Some (files !! d) /\ is_Some (loaded !! d)) l))%nat.
Proof.
  revert st. induction l as [|d l IH]; intros st; cbn [foldl].
  - cbn. lia.
  - cbn [foldl]. rewrite IH, process_skipped, filter_cons.
    case_bool_decide as Hd.
    + rewrite decide_True by done. cbn. lia.
    + rewrite decide_False by done. lia.
Qed.

Lemma run_untouched l st id e :
  is_Some (loaded !! id) ->
  e ∈ events (foldl (process files loaded) st l) -> touches id e -> e ∈ events st.
Proof.
  intros Hin. revert st. induction l as [|d l IH]; intros st He Ht; [ exact He | ].
  cbn [foldl] in He. specialize (IH _ He Ht).
  destruct (process_events files loaded st d) as (evs & Hev & Htouch & _).
  rewrite Hev in IH. apply elem_of_app in IH as [?|Hnew]; [ done | ].
  destruct (Htouch id e Hnew Ht) as [-> Hnone].
  destruct Hin as [? Hin]. congruence.
Qed.

Lemma run_counted l st id k :
  is_Some (loaded !! id) ->
  Counted k id ∈ events (foldl (process files loaded) st l)
  <-> Counted k id ∈ events st
      \/ (id ∈ l /\ k = match files !! id with Some _ => Skipped | None => Failed end).
Proof.
  intros Hin. revert st. induction l as [|d l IH]; intros st.
  - cbn. split; [ auto | ]. intros [?|[Hd _]]; [ done | ]. by apply elem_of_nil in Hd.
  - cbn [foldl]. rewrite IH.
    destruct (process_events files loaded st d) as (evs & Hev & _ & Hid & Hcached).
    rewrite Hev, elem_of_app, elem_of_cons.
    destruct (decide (id = d)) as [->|Hne].
    + rewrite (Hcached Hin), list_elem_of_singleton.
      split.
      * intros [[?|Heq]|[? ?]]; [ auto | | auto ].
        injection Heq as ->. auto.
      * intros [?|[_ ->]]; auto.
    + split.
      * intros [[?|Hnew]|[? ?]]; [ auto | | auto ].
        apply Hid in Hnew. contradiction.
      * intros [?|[[?|?] ?]]; [ auto | contradiction | auto ].
Qed.

End Run.

Lemma select_ids_spec (t : table) id : id ∈ select_ids t <-> is_Some (t !! id).
Proof.
  unfold select_ids. rewrite list_elem_of_fmap. split.
  - intros [[i r] [-> Hin]]. apply elem_of_map_to_list in Hin. eauto.
  - intros [r Hr]. exists (id, r). split; [ reflexivity | ].
    by apply elem_of_map_to_list.
Qed.

Lemma main_empty_table w w' :
  main w = (w', None) -> w' = w /\ select_ids (db w) = [].
Proof.
  unfold main. destruct (select_ids (db w)); [ | discriminate ].
  by intros [= <-].
Qed.

Lemma main_runs_loop w w' st :
  main w = (w', Some st) ->
  st = run_loop w (select_ids (db w))
  /\ w' = {| db := ls_db st; conversions := conversions w;
             sections_json := Some (extracted_sections st) |}.
Proof.
  unfold main. destruct (select_ids (db w)) eqn:E; intros [= <- <-]; auto.
Qed.

Lemma select_ids_nil (t : table) : select_ids t = [] <-> t = ∅.
Proof.
  unfold select_ids. rewrite <- map_to_list_empty_iff. split.
  - apply fmap_nil_inv.
  - by intros ->.
Qed.

(** The two ways in which [main] ends. *)
Lemma main_cases w :
  (db w = ∅ /\ main w = (w, None))
  \/ (db w <> ∅
      /\ main w = ({| db := ls_db (run_loop w (select_ids (db w)));
                      conversions := conversions w;
                      sections_json :=
                        Some (extracted_sections (run_loop w (select_ids (db w)))) |},
                   Some (run_loop w (select_ids (db w))))).
Proof.
  unfold main. destruct (select_ids (db w)) as [|d l] eqn:E.
  - left. split; [ by apply select_ids_nil | reflexivity ].
  - right. split; [ | reflexivity ].
    intros Hempty. apply select_ids_nil in Hempty. congruence.
Qed.

(** C10.  For an id that has no row in [full_documents],
    [update_database_with_sections] executes no UPDATE, leaves the table as
    it is and returns False, whatever the extraction result; and after a
    whole run of [main] the id still has no row: the run updates rows that
    exist and creates none. *)
Theorem update_without_row_fails (id : string) (s : sections) (w : world) :
  db w !! id = None ->
  let c := update_database_with_sections id s (db w) in
  returned c = Ok false
  /\ executed c = None
  /\ db_after c = db w
  /\ db (main w).1 !! id = None.
Proof.
  intros Hnone c. subst c. rewrite (update_not_found id s (db w) Hnone).
  cbn [returned executed db_after]. repeat split.
  destruct (main w) as [w' [st|]] eqn:Hmain; cbn [fst].
  - apply main_runs_loop in Hmain as [-> ->]. cbn [db].
    apply eq_None_not_Some. unfold run_loop. rewrite run_keeps_ids.
    cbn [ls_db start_state]. by rewrite Hnone; intros [? ?].
  - apply main_empty_table in Hmain as [-> _]. exact Hnone.
Qed.

Lemma update_without_row_fails_witness :
  db world_sectionless !! "d2"%string = None
  /\ update_database_with_sections "d2"
       {| abstract := Some (txt "B"); conclusion := Some (txt "X") |}
       (db world_sectionless)
     = {| returned := Ok false; executed := None; db_after := db world_sectionless |}
  /\ db (main world_sectionless).1 !! "d2"%string = None.
Proof.
  assert (H : db world_sectionless !! "d2"%string = None) by reflexivity.
  split; [ exact H | ].
  destruct (update_without_row_fails "d2"
              {| abstract := Some (txt "B"); conclusion := Some (txt "X") |}
              world_sectionless H) as (Hr & He & Hd & Hmain).
  split; [ | exact Hmain ].
  destruct (update_database_with_sections _ _ _) as [r e d].
  cbn [returned executed db_after] in *. by subst.
Defined.

(** C2, as the code has it.  For every id of the cache loaded at the
    start of a run, the run leaves the row of the id as it was, makes no
    call of [extract_sections] and executes no UPDATE for that id, and
    never counts it as successful.  An id with a row is counted once: as
    skipped when its conversion file exists, and as failed when the file
    does not exist.  The final value of [skipped] is the number of
    documents that have a conversion file and are in the loaded cache. *)
Theorem cached_ids_are_not_reprocessed (w : world) (id : string) :
  is_Some (default ∅ (sections_json w) !! id) ->
  db (main w).1 !! id = db w !! id
  /\ forall st, (main w).2 = Some st ->
       (forall e, e ∈ events st -> ~ touches id e)
       /\ (forall k, Counted k id ∈ events st <->
             is_Some (db w !! id)
             /\ k = match conversions w !! id with
                    | Some _ => Skipped
                    | None => Failed
                    end)
       /\ skipped st
          = length (filter (fun d => is_Some (conversions w !! d)
                                     /\ is_Some (default ∅ (sections_json w) !! d))
                           (select_ids (db w))).
Proof.
  intros Hin. destruct (main_cases w) as [[_ ->]|[_ ->]]; cbn [fst snd].
  { split; [ reflexivity | discriminate ]. }
  unfold run_loop. cbn [db]. split; [ by rewrite run_cached_row | ].
  intros st [= <-]. split; [ | split ].
  - intros e He Ht.
    apply (run_untouched _ _ _ _ id e Hin) in He; [ | exact Ht ].
    by apply elem_of_nil in He.
  - intros k. rewrite run_counted by done. cbn [events start_state].
    rewrite select_ids_spec, elem_of_nil. tauto.
  - by rewrite run_skipped.
Qed.

Lemma cached_ids_are_not_reprocessed_witness :
  is_Some (default ∅ (sections_json world_cached_with_file) !! "d1"%string)
  /\ db (main world_cached_with_file).1 !! "d1"%string
     = db world_cached_with_file !! "d1"%string
  /\ exists st,
       (main world_cached_with_file).2 = Some st
       /\ skipped st = 1%nat
       /\ Counted Skipped "d1" ∈ events st
       /\ forall e, e ∈ events st -> ~ touches "d1" e.
Proof.
  assert (Hin : is_Some (default ∅ (sections_json world_cached_with_file) !! "d1"%string))
    by (eexists; reflexivity).
  split; [ exact Hin | ].
  destruct (cached_ids_are_not_reprocessed world_cached_with_file "d1"%string Hin)
    as [Hrow Hrun].
  split; [ exact Hrow | ].
  destruct (main world_cached_with_file).2 as [st|] eqn:Hst;
    [ | vm_compute in Hst; discriminate Hst ].
  destruct (Hrun st eq_refl) as (Hno & Hcount & Hskipped).
  exists st. split; [ reflexivity | ]. split; [ | split; [ | exact Hno ] ].
  - rewrite Hskipped. reflexivity.
  - apply Hcount. split; [ eexists | ]; reflexivity.
Defined.

(** C2 as stated fails: an id of the loaded cache whose conversion file
    is missing is counted as failed, not as skipped. *)
Lemma cached_id_without_file_counts_as_failed :
  ~ counts_cached_as_skipped world_cached_without_file
  /\ exists w' st,
       main world_cached_without_file = (w', Some st)
       /\ is_Some (default ∅ (sections_json world_cached_without_file) !! "d1"%string)
       /\ skipped st = 0%nat /\ failed st = 1%nat
       /\ events st = [Counted Failed "d1"].
Proof.
  assert (Hrun : exists w' st,
       main world_cached_without_file = (w', Some st)
       /\ is_Some (default ∅ (sections_json world_cached_without_file) !! "d1"%string)
       /\ skipped st = 0%nat /\ failed st = 1%nat
       /\ events st = [Counted Failed "d1"]).
  { eexists _, _. split; [ vm_compute; reflexivity | ].
    split; [ eexists; reflexivity | ]. cbn. auto. }
  split; [ | exact Hrun ].
  destruct Hrun as (w' & st & Hmain & Hin & _ & _ & Hev).
  intros Hclaim.
  specialize (Hclaim w' st "d1"%string Hmain Hin (ltac:(eexists; reflexivity))).
  rewrite Hev in Hclaim. apply list_elem_of_singleton in Hclaim. discriminate Hclaim.
Qed.

Lemma new_results_lookup w id :
  new_results w !! id
  = newly_recorded (conversions w) (default ∅ (sections_json w)) (db w) id.
Proof.
  unfold new_results, newly_recorded. rewrite lookup_omap.
  destruct (default ∅ (sections_json w) !! id) as [s0|] eqn:Hl.
  { rewrite map_lookup_filter_None_2; [ reflexivity | ].
    right. intros doc _ [_ H]. cbn in H. congruence. }
  destruct (db w !! id) as [r|] eqn:Hrow.
  2: { rewrite map_lookup_filter_None_2; [ reflexivity | ].
       right. intros doc _ [[? H] _]. cbn in H. congruence. }
  destruct (conversions w !! id) as [doc|] eqn:Hfile.
  - rewrite (map_lookup_filter_Some_2 _ _ id doc); [ reflexivity | done | ].
    cbn. split; [ by rewrite Hrow | done ].
  - rewrite map_lookup_filter_None_2; [ reflexivity | by left ].
Qed.

(** C3, as the code has it.  When the table is not empty, the mapping
    written to the cache file at the end of the run is the loaded mapping
    together with the results this run recorded: for an id outside the
    loaded mapping that has a row and a conversion file, the extraction of
    that file if it has a non-empty abstract or conclusion.  An extraction
    in which both are null is computed but not recorded.  When the table
    is empty the run ends before the loop and writes nothing. *)
Theorem saved_cache_is_loaded_plus_successes (w : world) :
  let loaded := default ∅ (sections_json w) in
  (db w <> ∅ -> sections_json (main w).1 = Some (loaded ∪ new_results w))
  /\ (db w = ∅ -> main w = (w, None))
  /\ (forall id,
        (loaded ∪ new_results w) !! id
        = match loaded !! id with
          | Some s => Some s
          | None => newly_recorded (conversions w) loaded (db w) id
          end)
  /\ (forall id doc,
        loaded !! id = None -> conversions w !! id = Some doc ->
        extract_sections doc = no_sections ->
        (loaded ∪ new_results w) !! id = None).
Proof.
  intros loaded.
  assert (Hlookup : forall id,
            (loaded ∪ new_results w) !! id
            = match loaded !! id with
              | Some s => Some s
              | None => newly_recorded (conversions w) loaded (db w) id
              end).
  { intros id. rewrite lookup_union, new_results_lookup. fold loaded.
    destruct (loaded !! id); [ by rewrite union_Some_l | ].
    by destruct (newly_recorded _ _ _ _). }
  split; [ | split; [ | split; [ exact Hlookup | ] ] ].
  - intros Hne. destruct (main_cases w) as [[? _]|[_ ->]]; [ contradiction | ].
    cbn [fst sections_json]. f_equal.
    apply map_eq. intros id. rewrite Hlookup.
    unfold run_loop. fold loaded.
    rewrite run_extracted by reflexivity. cbn [ls_db start_state].
    destruct (loaded !! id) eqn:Hl; [ reflexivity | ].
    case_bool_decide as Hd; [ reflexivity | ].
    unfold newly_recorded. rewrite Hl.
    destruct (db w !! id) eqn:Hrow; [ | reflexivity ].
    exfalso. apply Hd, select_ids_spec. eauto.
  - intros Hempty. by destruct (main_cases w) as [[_ ->]|[? _]].
  - intros id doc Hl Hfile Hext. rewrite Hlookup, Hl.
    unfold newly_recorded. rewrite Hl, Hfile, Hext.
    by destruct (db w !! id).
Qed.

Lemma saved_cache_is_loaded_plus_successes_witness :
  db world_sectionless <> ∅
  /\ sections_json (main world_sectionless).1
     = Some (∅ ∪ new_results world_sectionless).
Proof.
  assert (Hne : db world_sectionless <> ∅).
  { intros H. apply (f_equal (fun t : table => t !! "d1"%string)) in H.
    vm_compute in H. discriminate H. }
  split; [ exact Hne | ].
  exact (proj1 (saved_cache_is_loaded_plus_successes world_sectionless) Hne).
Defined.

(** C3 as stated fails: the extraction of a document without sections is
    computed, and the saved mapping has no entry for it. *)
Lemma null_result_is_not_recorded :
  ~ records_every_result world_sectionless
  /\ exists w' st,
       main world_sectionless = (w', Some st)
       /\ Extracted "d1" ∈ events st
       /\ extract_sections (JTexts [Some (txt "Some text.")]) = no_sections
       /\ sections_json w' = Some ∅.
Proof.
  assert (Hrun : exists w' st,
       main world_sectionless = (w', Some st)
       /\ Extracted "d1" ∈ events st
       /\ extract_sections (JTexts [Some (txt "Some text.")]) = no_sections
       /\ sections_json w' = Some ∅).
  { eexists _, _. split; [ vm_compute; reflexivity | ].
    split; [ apply list_elem_of_here | ]. split; reflexivity. }
  split; [ | exact Hrun ].
  destruct Hrun as (w' & st & Hmain & Hev & _ & Hsaved).
  intros Hclaim. destruct (Hclaim w' st Hmain) as (m & Hm & _ & Hnew).
  rewrite Hsaved in Hm. injection Hm as <-.
  specialize (Hnew "d1"%string _ Hev eq_refl).
  rewrite lookup_empty in Hnew. discriminate Hnew.
Qed.

(** ** The matcher *)

Section Matcher.
Implicit Types (r : regex) (s : text) (c : caps) (k : cont).

Lemma matches_suffix r s s' : matches r s s' -> exists x, s = x ++ s'.
Proof.
  induction 1 as [s|p a s Hp|r1 r2 s s1 s2 _ [x ->] _ [y ->]| | | |g p a s s' Hp _ [x ->]| | | ];
    try (by exists []); try done.
  - by exists [a].
  - exists (x ++ y). by rewrite <- app_assoc.
  - by exists (a :: x).
Qed.

Lemma matches_many g p s s' :
  matches (Many g p) s s' <-> exists x, s = x ++ s' /\ Forall (fun a => p a = true) x.
Proof.
  split.
  - remember (Many g p) as r eqn:Hr. induction 1; try discriminate.
    + by exists [].
    + injection Hr as -> ->. destruct IHmatches as (x & -> & Hx); [ reflexivity | ].
      exists (a :: x). split; [ reflexivity | by constructor ].
  - intros (x & -> & Hx). induction Hx; cbn; by constructor.
Qed.

Lemma matches_cat r1 r2 s s2 :
  matches (Cat r1 r2) s s2 <-> exists s1, matches r1 s s1 /\ matches r2 s1 s2.
Proof.
  split; [ inversion 1; eauto | intros (s1 & ? & ?); by econstructor ].
Qed.

Lemma matches_alt r1 r2 s s' :
  matches (Alt r1 r2) s s' <-> matches r1 s s' \/ matches r2 s s'.
Proof.
  split; [ inversion 1; auto | intros [?|?]; by constructor ].
Qed.

Lemma matches_cls p s s' :
  matches (Cls p) s s' <-> exists a, s = a :: s' /\ p a = true.
Proof.
  split; [ inversion 1; eauto | intros (a & -> & ?); by constructor ].
Qed.

Lemma matches_eps s s' : matches Eps s s' <-> s = s'.
Proof. split; [ by inversion 1 | intros ->; constructor ]. Qed.

Lemma many_greedy_sound p kk s x :
  many_greedy p kk s = Some x ->
  exists w s', s = w ++ s' /\ Forall (fun a => p a = true) w /\ kk s' = Some x.
Proof.
  induction s as [|a s IH]; cbn.
  - intros H. by exists [], [].
  - destruct (p a) eqn:Hp.
    + destruct (many_greedy p kk s) eqn:Hrec.
      * intros [= <-]. destruct (IH eq_refl) as (w & s' & -> & Hw & Hk).
        exists (a :: w), s'. repeat split; [ by constructor | done ].
      * intros H. by exists [], (a :: s).
    + intros H. by exists [], (a :: s).
Qed.

(** The lazy repetition stops at the first place where the rest of the
    pattern succeeds. *)
Lemma many_lazy_first p kk s x :
  many_lazy p kk s = Some x ->
  exists w s', s = w ++ s' /\ Forall (fun a => p a = true) w /\ kk s' = Some x
    /\ forall w1 rest, w = w1 ++ rest -> rest <> [] -> kk (rest ++ s') = None.
Proof.
  induction s as [|a s IH]; cbn.
  - destruct (kk []) eqn:Hk; [ | discriminate ].
    intros [= <-]. exists [], []. repeat split; try done.
    intros w1 rest Hw Hrest. by destruct w1, rest.
  - destruct (kk (a :: s)) eqn:Hk.
    + intros [= <-]. exists [], (a :: s). repeat split; try done.
      intros w1 rest Hw Hrest. by destruct w1, rest.
    + destruct (p a) eqn:Hp; [ | discriminate ].
      intros H. destruct (IH H) as (w & s' & -> & Hw & Hks & Hmin).
      exists (a :: w), s'. repeat split; [ by constructor | done | ].
      intros w1 rest Heq Hrest. destruct w1 as [|b w1]; cbn in Heq.
      * subst rest. exact Hk.
      * injection Heq as -> ->. by apply Hmin with w1.
Qed.

Lemma many_complete g p kk s s' :
  matches (Many g p) s s' -> kk s' <> None ->
  (if g then many_greedy else many_lazy) p kk s <> None.
Proof.
  intros Hm Hk. apply matches_many in Hm as (x & -> & Hx).
  induction Hx as [|a x Ha Hx IH]; cbn [app].
  - destruct g, s' as [|b s']; cbn; try done.
    + destruct (p b); [ | done ]. by destruct (many_greedy p kk s').
    + by destruct (kk []).
    + by destruct (kk (b :: s')).
  - destruct g; cbn; rewrite Ha.
    + by destruct (many_greedy p kk (x ++ s')).
    + by destruct (kk (a :: x ++ s')).
Qed.

(** Whatever the matcher answers was answered by the continuation, at a
    place that the pattern can reach. *)
Lemma run_sound r : forall s c k x,
  run r s c k = Some x ->
  exists s' c', matches r s s' /\ k s' c' = Some x
    /\ (has_group r = false -> c' = c)
    /\ (sets_group r = true \/ is_Some c -> is_Some c').
Proof.
  induction r as [|p|r1 IH1 r2 IH2|r1 IH1 r2 IH2|g p|r1 IH1|r1 IH1|];
    intros s c k x; cbn [run has_group sets_group].
  - intros H. exists s, c. repeat split; [ constructor | done | ].
    by intros [?|?].
  - destruct s as [|a s]; [ done | ]. destruct (p a) eqn:Hp; [ | done ].
    intros H. exists s, c. repeat split; [ by constructor | done | ].
    by intros [?|?].
  - intros H. apply IH1 in H as (s1 & c1 & Hm1 & H & Hc1 & Hs1).
    apply IH2 in H as (s2 & c2 & Hm2 & H & Hc2 & Hs2).
    exists s2, c2. split; [ by econstructor | ]. split; [ done | ]. split.
    + intros Hg. apply orb_false_iff in Hg as [? ?]. by rewrite Hc2, Hc1.
    + intros [Hg|Hc]; [ apply orb_true_iff in Hg as [?|?] | ]; auto.
  - destruct (run r1 s c k) eqn:H1.
    + intros [= <-]. apply IH1 in H1 as (s' & c' & ? & ? & Hc & Hs).
      exists s', c'. split; [ by constructor | ]. split; [ done | ]. split.
      * intros Hg. apply orb_false_iff in Hg as [? ?]. auto.
      * intros [Hg|?]; [ apply andb_true_iff in Hg as [? ?] | ]; auto.
    + intros H. apply IH2 in H as (s' & c' & ? & ? & Hc & Hs).
      exists s', c'. split; [ by apply M_alt_r | ]. split; [ done | ]. split.
      * intros Hg. apply orb_false_iff in Hg as [? ?]. auto.
      * intros [Hg|?]; [ apply andb_true_iff in Hg as [? ?] | ]; auto.
  - intros H.
    assert (exists w s', s = w ++ s' /\ Forall (fun a => p a = true) w
                         /\ k s' c = Some x) as (w & s' & -> & Hw & Hk).
    { destruct g.
      - by apply many_greedy_sound in H.
      - apply many_lazy_first in H as (w & s' & ? & ? & ? & _). eauto. }
    exists s', c. split; [ apply matches_many; eauto | ]. split; [ done | ].
    split; [ done | by intros [?|?] ].
  - intros H. apply IH1 in H as (s' & c' & Hm & H & _).
    eexists s', _. split; [ by constructor | ]. split; [ exact H | ].
    split; [ done | eauto ].
  - destruct (run r1 s c accept) as [[s1 c1]|] eqn:H1; [ | done ].
    intros H. apply IH1 in H1 as (s' & c' & Hm & [= -> ->] & Hc & Hs).
    exists s, c1. split; [ by econstructor | done ].
  - destruct s; [ | done ]. intros H. exists [], c.
    repeat split; [ constructor | done | by intros [?|?] ].
Qed.

(** The matcher fails only if the continuation fails at every place that
    the pattern can reach. *)
Lemma run_complete r : forall s s' c k,
  matches r s s' -> (forall c', k s' c' <> None) -> run r s c k <> None.
Proof.
  induction r as [|p|r1 IH1 r2 IH2|r1 IH1 r2 IH2|g p|r1 IH1|r1 IH1|];
    intros s s' c k Hm Hk; cbn [run].
  - apply matches_eps in Hm as ->. apply Hk.
  - apply matches_cls in Hm as (a & -> & ->). apply Hk.
  - apply matches_cat in Hm as (s1 & Hm1 & Hm2).
    apply (IH1 _ s1); [ done | ]. intros c'. by apply (IH2 _ s').
  - apply matches_alt in Hm as [Hm|Hm].
    + specialize (IH1 _ _ c k Hm Hk). by destruct (run r1 s c k).
    + specialize (IH2 _ _ c k Hm Hk). by destruct (run r1 s c k).
  - by apply (many_complete g p _ s s').
  - inversion Hm; subst. apply (IH1 _ s'); [ done | ]. intros c'. apply Hk.
  - inversion Hm as [ | | | | | | | |? ? s1 Hm1| ]; subst.
    specialize (IH1 _ _ c accept Hm1 (fun _ => ltac:(done))).
    destruct (run r1 s' c accept) as [[? ?]|]; [ apply Hk | done ].
  - inversion Hm; subst. apply Hk.
Qed.

End Matcher.

Section Search.
Implicit Types (r : regex) (s : text).

Lemma search_from_sound r s : forall i mo,
  search_from r s i = Some mo ->
  exists n sf, (n <= length s)%nat
    /\ run r (drop n s) None accept = Some (sf, m_group1 mo)
    /\ m_start mo = (i + n)%nat.
Proof.
  induction s as [|a s IH]; intros i mo; cbn [search_from].
  - destruct (run r [] None accept) as [[sf c]|] eqn:Hrun; [ | done ].
    intros [= <-]. exists 0%nat, sf.
    split; [ cbn; lia | split; [ exact Hrun | cbn; lia ] ].
  - destruct (run r (a :: s) None accept) as [[sf c]|] eqn:Hrun.
    + intros [= <-]. exists 0%nat, sf.
      split; [ cbn; lia | split; [ exact Hrun | cbn; lia ] ].
    + intros H. apply IH in H as (n & sf & Hn & Hrun' & Hstart).
      exists (S n), sf.
      split; [ cbn; lia | split; [ exact Hrun' | lia ] ].
Qed.

Lemma search_from_none r s : forall i,
  (forall n, (n <= length s)%nat -> run r (drop n s) None accept = None) ->
  search_from r s i = None.
Proof.
  induction s as [|a s IH]; intros i Hall; cbn [search_from].
  - pose proof (Hall 0%nat (le_n _)) as H0. cbn in H0. by rewrite H0.
  - pose proof (Hall 0%nat (Nat.le_0_l _)) as H0. cbn in H0. rewrite H0. apply IH.
    intros n Hn. apply (Hall (S n)). cbn. lia.
Qed.

Lemma search_sets_group r s mo :
  sets_group r = true -> search r s = Some mo -> is_Some (m_group1 mo).
Proof.
  intros Hg H. apply search_from_sound in H as (n & sf & _ & Hrun & _).
  apply run_sound in Hrun as (s' & c' & _ & [= _ <-] & _ & Hs). auto.
Qed.

End Search.

(** ** The cascades *)

Section Cascade.
Variable clean : text -> text.
Variable content : text.

Lemma cascade_total patterns :
  Forall (fun p => sets_group p = true) patterns ->
  exists o, cascade clean patterns content = Ok o.
Proof.
  induction 1 as [|p ps Hp _ IH]; cbn [cascade]; [ by eexists | ].
  destruct (search p content) as [mo|] eqn:Hs; [ | exact IH ].
  destruct (search_sets_group _ _ _ Hp Hs) as [g ->].
  destruct (_ <? _)%nat; [ by eexists | exact IH ].
Qed.

(** What a cascade returns was captured by one of its patterns, is longer
    than the minimum, and every earlier pattern was passed over. *)
Lemma cascade_accepted patterns t :
  cascade clean patterns content = Ok (Some t) ->
  exists pre p post g,
    patterns = pre ++ p :: post
    /\ Forall (passed_over clean content) pre
    /\ captures p content g
    /\ t = clean g
    /\ (MIN_LENGTH < length t)%nat.
Proof.
  induction patterns as [|p ps IH]; cbn [cascade]; [ done | ].
  assert (Hrest : passed_over clean content p ->
                  cascade clean ps content = Ok (Some t) ->
                  exists pre p0 post g,
                    p :: ps = pre ++ p0 :: post
                    /\ Forall (passed_over clean content) pre
                    /\ captures p0 content g /\ t = clean g
                    /\ (MIN_LENGTH < length t)%nat).
  { intros Hp H. apply IH in H as (pre & p0 & post & g & -> & Hpre & Hrest).
    exists (p :: pre), p0, post, g. split; [ reflexivity | ].
    split; [ by constructor | exact Hrest ]. }
  destruct (search p content) as [mo|] eqn:Hs.
  - destruct (m_group1 mo) as [g|] eqn:Hg; [ | done ].
    destruct (MIN_LENGTH <? length (clean g))%nat eqn:Hlen.
    + intros [= <-]. exists [], p, ps, g. split; [ reflexivity | ].
      split; [ constructor | ]. split; [ by exists mo | ].
      split; [ reflexivity | by apply Nat.ltb_lt ].
    + apply Hrest. unfold passed_over. rewrite Hs. exists g.
      split; [ done | ]. apply Nat.ltb_ge in Hlen. exact Hlen.
  - apply Hrest. unfold passed_over. by rewrite Hs.
Qed.

Lemma cascade_passes_over pre patterns :
  Forall (passed_over clean content) pre ->
  cascade clean (pre ++ patterns) content = cascade clean patterns content.
Proof.
  induction 1 as [|p ps Hp _ IH]; cbn [app cascade]; [ reflexivity | ].
  unfold passed_over in Hp. destruct (search p content) as [mo|]; [ | exact IH ].
  destruct Hp as (g & -> & Hlen).
  apply Nat.ltb_ge in Hlen. by rewrite Hlen.
Qed.

(** The first pattern whose cleaned capture is longer than the minimum is
    the one that a cascade takes. *)
Lemma cascade_first pre p post g :
  Forall (passed_over clean content) pre ->
  captures p content g ->
  (MIN_LENGTH < length (clean g))%nat ->
  cascade clean (pre ++ p :: post) content = Ok (Some (clean g)).
Proof.
  intros Hpre (mo & Hs & Hg) Hlen. rewrite cascade_passes_over by done.
  cbn [cascade]. rewrite Hs, Hg. apply Nat.ltb_lt in Hlen. by rewrite Hlen.
Qed.

Lemma cascade_nothing patterns :
  Forall (passed_over clean content) patterns ->
  cascade clean patterns content = Ok None.
Proof.
  intros H. rewrite <- (app_nil_r patterns). by rewrite cascade_passes_over.
Qed.

Lemma cascade_nothing_inv patterns :
  cascade clean patterns content = Ok None ->
  Forall (passed_over clean content) patterns.
Proof.
  induction patterns as [|p ps IH]; cbn [cascade]; [ constructor | ].
  unfold passed_over at 1.
  destruct (search p content) as [mo|] eqn:Hs.
  - destruct (m_group1 mo) as [g|] eqn:Hg; [ | done ].
    destruct (MIN_LENGTH <? length (clean g))%nat eqn:Hlen; [ done | ].
    intros H. constructor; [ | by apply IH ].
    unfold passed_over. rewrite Hs. exists g. split; [ done | by apply Nat.ltb_ge ].
  - intros H. constructor; [ | by apply IH ]. unfold passed_over. by rewrite Hs.
Qed.

End Cascade.

(** ** White space and the References cut *)

Lemma sub_ws_from_spaces b s a :
  a ∈ sub_ws_from b s -> is_space a = true -> a = SP.
Proof.
  revert b. induction s as [|x s IH]; intros b; cbn [sub_ws_from].
  - intros H. by apply elem_of_nil in H.
  - destruct (is_space x) eqn:Hx.
    + destruct b; [ apply IH | ].
      intros H Ha. apply elem_of_cons in H as [->|H]; [ reflexivity | by apply (IH true) ].
    + intros H Ha. apply elem_of_cons in H as [->|H]; [ congruence | by apply (IH false) ].
Qed.

(** A normalized text has no newline. *)
Lemma normalize_no_newline g : NL ∉ normalize g.
Proof.
  intros H. apply sub_ws_from_spaces in H; [ discriminate H | reflexivity ].
Qed.

Lemma references_heading_needs_newline s c k :
  head s <> Some NL -> run Patterns.references_heading s c k = None.
Proof.
  destruct s as [|a s]; [ reflexivity | ]. cbn [head]. intros Ha.
  unfold Patterns.references_heading, nl. cbn [run].
  destruct (a =? NL) eqn:E; [ | reflexivity ].
  apply N.eqb_eq in E. congruence.
Qed.

Lemma search_references_no_newline t :
  NL ∉ t -> search Patterns.references_heading t = None.
Proof.
  intros Ht. apply search_from_none. intros n _.
  apply references_heading_needs_newline. intros Hh.
  apply Ht. apply head_Some_elem_of in Hh.
  apply (subseteq_drop n t), Hh.
Qed.

(** On a text without newline the cut removes nothing. *)
Lemma cut_references_no_newline t : NL ∉ t -> cut_references t = t.
Proof.
  intros Ht. unfold cut_references, split_head.
  by rewrite search_references_no_newline.
Qed.

Lemma cut_references_normalize g : cut_references (normalize g) = normalize g.
Proof. apply cut_references_no_newline, normalize_no_newline. Qed.

(** ** The patterns always fill their group *)

Lemma abstract_patterns_set_group :
  Forall (fun p => sets_group p = true) Patterns.abstract_patterns.
Proof. repeat (constructor; [ vm_compute; reflexivity | ]). constructor. Qed.

Lemma conclusion_patterns_set_group :
  Forall (fun p => sets_group p = true) Patterns.conclusion_patterns.
Proof. repeat (constructor; [ vm_compute; reflexivity | ]). constructor. Qed.

Lemma discussion_patterns_set_group :
  Forall (fun p => sets_group p = true) Patterns.discussion_patterns.
Proof. repeat (constructor; [ vm_compute; reflexivity | ]). constructor. Qed.

Lemma find_abstract_total content : exists o, find_abstract content = Ok o.
Proof. apply cascade_total, abstract_patterns_set_group. Qed.

Lemma find_conclusion_total content : exists o, find_conclusion content = Ok o.
Proof. apply cascade_total, conclusion_patterns_set_group. Qed.

Lemma find_discussion_total content : exists o, find_discussion content = Ok o.
Proof. apply cascade_total, discussion_patterns_set_group. Qed.

(** No exception escapes the three loops. *)
Lemma extract_from_content_total content :
  exists s, extract_from_content content = Ok s.
Proof.
  unfold extract_from_content, extract_with.
  destruct (find_abstract_total content) as [a ->].
  destruct (find_conclusion_total content) as [[c|] ->]; [ by eexists | ].
  destruct (find_discussion_total content) as [d ->]. by eexists.
Qed.

Lemma cascade_ext clean clean' patterns content :
  (forall g, clean g = clean' g) ->
  cascade clean patterns content = cascade clean' patterns content.
Proof.
  intros Heq. induction patterns as [|p ps IH]; cbn [cascade]; [ reflexivity | ].
  destruct (search p content) as [mo|]; [ | exact IH ].
  destruct (m_group1 mo) as [g|]; [ | reflexivity ].
  by rewrite Heq, IH.
Qed.

(** Each of the three loops is the cascade over its patterns with the
    normalized capture: the References cut changes nothing. *)
Lemma cascades_normalize find patterns content :
  (find, patterns) ∈ cascades -> find content = cascade normalize patterns content.
Proof.
  unfold cascades. rewrite !elem_of_cons, elem_of_nil.
  intros [[= -> ->]|[[= -> ->]|[[= -> ->]|[]]]]; [ reflexivity | | ];
    apply cascade_ext; intros g; apply cut_references_normalize.
Qed.

(** C4, as the code has it.  In each of the three cascades a text is
    accepted only if it is the normalized capture of one of the patterns
    and is longer than 50 characters, every earlier pattern having been
    passed over; and when a pattern is the first to match, its normalized
    capture is accepted if it is longer than 50 characters and is not
    accepted if it has 50 characters or fewer. *)
Theorem sections_are_longer_than_minimum
  (find : text -> exc (option text)) (patterns : list regex) (content : text) :
  (find, patterns) ∈ cascades ->
  (forall t, find content = Ok (Some t) ->
     exists pre p post g,
       patterns = pre ++ p :: post
       /\ Forall (passed_over normalize content) pre
       /\ captures p content g
       /\ t = normalize g
       /\ (50 < length (normalize g))%nat)
  /\ (forall pre p post g,
        patterns = pre ++ p :: post ->
        Forall (fun q => search q content = None) pre ->
        captures p content g ->
        ((50 < length (normalize g))%nat -> find content = Ok (Some (normalize g)))
        /\ ((length (normalize g) <= 50)%nat ->
            find content <> Ok (Some (normalize g)))).
Proof.
  intros Hin. rewrite (cascades_normalize _ _ _ Hin).
  assert (Hacc : forall t, cascade normalize patterns content = Ok (Some t) ->
     exists pre p post g,
       patterns = pre ++ p :: post
       /\ Forall (passed_over normalize content) pre
       /\ captures p content g
       /\ t = normalize g
       /\ (50 < length (normalize g))%nat).
  { intros t H. apply cascade_accepted in H as (pre & p & post & g & ? & ? & ? & -> & ?).
    by exists pre, p, post, g. }
  split; [ exact Hacc | ].
  intros pre p post g -> Hpre Hcap. split.
  - intros Hlen. apply cascade_first; [ | done | done ].
    eapply Forall_impl; [ exact Hpre | ].
    intros q Hq. unfold passed_over. by rewrite Hq.
  - intros Hlen H. apply Hacc in H as (_ & _ & _ & g' & _ & _ & _ & Heq & Hlen').
    rewrite <- Heq in Hlen'. lia.
Qed.

Lemma sections_are_longer_than_minimum_witness :
  (find_abstract, Patterns.abstract_patterns) ∈ cascades
  /\ captures (hd Eps Patterns.abstract_patterns) (abstract_of_length 51)
       (replicate 51 120)
  /\ length (normalize (replicate 51 120)) = 51%nat
  /\ find_abstract (abstract_of_length 51) = Ok (Some (normalize (replicate 51 120))).
Proof.
  assert (Hin : (find_abstract, Patterns.abstract_patterns) ∈ cascades)
    by apply list_elem_of_here.
  assert (Hcap : captures (hd Eps Patterns.abstract_patterns) (abstract_of_length 51)
                   (replicate 51 120)).
  { eexists. split; vm_compute; reflexivity. }
  split; [ exact Hin | ]. split; [ exact Hcap | ]. split; [ reflexivity | ].
  destruct (sections_are_longer_than_minimum _ _ (abstract_of_length 51) Hin)
    as [_ Hfirst].
  apply (Hfirst [] (hd Eps Patterns.abstract_patterns)
           (tl Patterns.abstract_patterns) (replicate 51 120));
    [ reflexivity | constructor | exact Hcap | ].
  vm_compute. lia.
Defined.

(** C4 as stated fails at exactly 50 characters: the first abstract
    pattern is the first to match and captures 50 characters, and no
    abstract is accepted. *)
Lemma capture_of_exactly_50_is_rejected :
  ~ accepts_from_minimum (abstract_of_length 50)
  /\ captures (hd Eps Patterns.abstract_patterns) (abstract_of_length 50)
       (replicate 50 120)
  /\ length (normalize (replicate 50 120)) = 50%nat
  /\ find_abstract (abstract_of_length 50) = Ok None
  /\ extract_from_content (abstract_of_length 50) = Ok no_sections.
Proof.
  assert (Hcap : captures (hd Eps Patterns.abstract_patterns) (abstract_of_length 50)
                   (replicate 50 120)).
  { eexists. split; vm_compute; reflexivity. }
  assert (Hnone : find_abstract (abstract_of_length 50) = Ok None)
    by (vm_compute; reflexivity).
  split; [ | split; [ exact Hcap | split; [ reflexivity | split; [ exact Hnone | ] ] ] ].
  - intros Hclaim.
    specialize (Hclaim _ _ (replicate 50 120) eq_refl Hcap (le_n _)).
    rewrite Hnone in Hclaim. discriminate Hclaim.
  - vm_compute. reflexivity.
Qed.

(** C5, as the code has it.  The extraction always returns.  When the
    conclusion cascade accepts a text, that text is the conclusion and the
    discussion cascade is not run: the result is the same whatever is put
    in its place.  When the conclusion cascade accepts nothing, the
    discussion cascade is run and what it returns is the conclusion; in
    particular, when no conclusion pattern matches and the discussion
    cascade accepts a text, that text is the conclusion.  The result has
    the two fields [abstract] and [conclusion] and nothing that tells
    which cascade the conclusion came from. *)
Theorem discussion_is_the_fallback (content : text) :
  exists s,
    extract_from_content content = Ok s
    /\ (forall c, find_conclusion content = Ok (Some c) ->
          conclusion s = Some c
          /\ forall other,
               extract_with find_abstract find_conclusion other content = Ok s)
    /\ (find_conclusion content = Ok None ->
          find_discussion content = Ok (conclusion s)
          /\ extract_with find_abstract find_conclusion (fun _ => Raise) content
             = Raise)
    /\ (Forall (fun p => search p content = None) Patterns.conclusion_patterns ->
        forall d, find_discussion content = Ok (Some d) -> conclusion s = Some d).
Proof.
  destruct (extract_from_content_total content) as [s Hs]. exists s.
  split; [ exact Hs | ].
  unfold extract_from_content, extract_with in *.
  destruct (find_abstract_total content) as [a Ha]. rewrite Ha in *.
  assert (Hnone : find_conclusion content = Ok None ->
            find_discussion content = Ok (conclusion s)).
  { intros Hc. rewrite Hc in Hs.
    destruct (find_discussion content) as [d|]; [ | done ].
    by injection Hs as <-. }
  split; [ | split ].
  - intros c Hc. rewrite Hc in *. injection Hs as <-. auto.
  - intros Hc. split; [ by apply Hnone | ]. by rewrite Hc.
  - intros Hall d Hd.
    assert (Hc : find_conclusion content = Ok None).
    { apply cascade_nothing. eapply Forall_impl; [ exact Hall | ].
      intros q Hq. unfold passed_over. by rewrite Hq. }
    apply Hnone in Hc. congruence.
Qed.

Lemma discussion_is_the_fallback_witness :
  Forall (fun p => search p only_discussion = None) Patterns.conclusion_patterns
  /\ find_discussion only_discussion = Ok (Some discussion_text)
  /\ exists s, extract_from_content only_discussion = Ok s
               /\ conclusion s = Some discussion_text.
Proof.
  assert (Hall : Forall (fun p => search p only_discussion = None)
                   Patterns.conclusion_patterns).
  { repeat (constructor; [ vm_compute; reflexivity | ]). constructor. }
  assert (Hd : find_discussion only_discussion = Ok (Some discussion_text))
    by (vm_compute; reflexivity).
  split; [ exact Hall | ]. split; [ exact Hd | ].
  destruct (discussion_is_the_fallback only_discussion) as (s & Hs & _ & _ & Hfb).
  exists s. split; [ exact Hs | ]. exact (Hfb Hall _ Hd).
Defined.

(** C5 as stated fails: in a text with a Discussion section and a
    Conclusion section of six characters, the first conclusion pattern
    matches, no conclusion capture is long enough, and the conclusion of
    the result is the discussion text. *)
Lemma short_conclusion_falls_back_to_discussion :
  ~ conclusion_pattern_wins discussion_and_short_conclusion
  /\ captures (hd Eps Patterns.conclusion_patterns) discussion_and_short_conclusion
       (txt "Short.")
  /\ find_conclusion discussion_and_short_conclusion = Ok None
  /\ find_discussion discussion_and_short_conclusion = Ok (Some discussion_text)
  /\ extract_from_content discussion_and_short_conclusion
     = Ok {| abstract := None; conclusion := Some discussion_text |}.
Proof.
  assert (Hcap : captures (hd Eps Patterns.conclusion_patterns)
                   discussion_and_short_conclusion (txt "Short.")).
  { eexists. split; vm_compute; reflexivity. }
  assert (Hres : extract_from_content discussion_and_short_conclusion
                 = Ok {| abstract := None; conclusion := Some discussion_text |})
    by (vm_compute; reflexivity).
  split; [ | split; [ exact Hcap | split; [ | split; [ | exact Hres ] ] ] ];
    try (vm_compute; reflexivity).
  intros Hclaim.
  destruct (Hclaim (ex_intro _ _ (ex_intro _ _ (conj (list_elem_of_here _ _) Hcap)))
              _ Hres) as (p & g & Hp & (mo & Hs & Hg) & Hc).
  cbn [conclusion] in Hc. injection Hc as Hc.
  assert (Hnone : find_conclusion discussion_and_short_conclusion = Ok None)
    by (vm_compute; reflexivity).
  apply cascade_nothing_inv in Hnone.
  rewrite Forall_forall in Hnone. specialize (Hnone p Hp).
  unfold passed_over in Hnone. rewrite Hs in Hnone.
  destruct Hnone as (g' & Hg' & Hlen). rewrite Hg in Hg'. injection Hg' as <-.
  rewrite <- Hc in Hlen. vm_compute in Hlen. lia.
Qed.

(** ** Where a capture ends *)

Lemma boundary_of_cat r1 r2 b :
  boundary_of (Cat r1 r2) = Some b ->
  (is_lazy_body r1 = true /\ r2 = Ahead b) \/ boundary_of r2 = Some b.
Proof.
  cbn [boundary_of]. destruct (is_lazy_body r1), r2; auto.
  intros [= ->]. auto.
Qed.

(** The capture of a pattern [... (.*?)(?=b)] ends at the first place
    where [b] can match. *)
Lemma boundary_capture r b : forall s c sf cf,
  boundary_of r = Some b -> has_group b = false ->
  run r s c accept = Some (sf, cf) ->
  exists pre g,
    cf = Some g /\ s = pre ++ g ++ sf
    /\ forall g1 rest s'', g = g1 ++ rest -> rest <> [] ->
                           ~ matches b (rest ++ sf) s''.
Proof.
  induction r as [| |r1 _ r2 IH2| | | | |]; intros s c sf cf Hb Hg; try discriminate.
  apply boundary_of_cat in Hb as [[Hbody ->]|Hb].
  - destruct r1 as [| | | | |r1| |]; try discriminate.
    destruct r1 as [| | | |[|] p| | |]; try discriminate.
    cbn [run]. intros H.
    apply many_lazy_first in H as (w & s' & -> & _ & Hk & Hmin).
    destruct (run b s' _ accept) as [[sb cb]|] eqn:Hrun; [ | discriminate ].
    injection Hk as -> ->.
    apply run_sound in Hrun as (? & ? & _ & [= _ <-] & Hcaps & _).
    exists [], w. split; [ | split; [ reflexivity | ] ].
    + rewrite Hcaps by done. f_equal. rewrite length_app.
      replace (length w + length sf - length sf)%nat with (length w) by lia.
      by rewrite take_app_length.
    + intros g1 rest s'' Hw Hrest Hm.
      specialize (Hmin g1 rest Hw Hrest). cbv beta in Hmin.
      destruct (run b (rest ++ sf) _ accept) as [[? ?]|] eqn:Hrun'; [ discriminate | ].
      revert Hrun'. by apply (run_complete b _ s'').
  - cbn [run]. intros H.
    apply run_sound in H as (s1 & c1 & Hm1 & H & _).
    apply matches_suffix in Hm1 as [y ->].
    destruct (IH2 _ _ _ _ Hb Hg H) as (pre & g & -> & -> & Hmin).
    exists (y ++ pre), g. split; [ reflexivity | ].
    split; [ by rewrite <- app_assoc | exact Hmin ].
Qed.

(** A literal word of a pattern without flags matches itself only. *)
Lemma lit_exact w s s' : matches (lit false w) s s' -> s = txt w ++ s'.
Proof.
  unfold lit. generalize (txt w) as l. intros l. revert s.
  induction l as [|a l IH]; intros s; cbn [fold_right].
  - intros H. by apply matches_eps in H.
  - intros H. apply matches_cat in H as (s1 & Ha & Hl).
    apply matches_cls in Ha as (x & -> & Hx). apply N.eqb_eq in Hx as ->.
    by rewrite (IH _ Hl).
Qed.

(** With IGNORECASE a word matches every text that equals it up to
    case. *)
Lemma lit_ignorecase w x s' :
  Forall2 (fun c a => (lower c =? lower a) = true) x (txt w) ->
  matches (lit true w) (x ++ s') s'.
Proof.
  unfold lit. generalize (txt w) as l. intros l.
  induction 1 as [|c a x l Hc _ IH]; cbn [fold_right app]; [ constructor | ].
  econstructor; [ by constructor | exact IH ].
Qed.

Lemma reference_word_covers t s' u :
  matches Patterns.references_heading t s' ->
  exists w t3, t ++ u = NL :: w ++ t3
    /\ Forall (fun a => is_space a = true) w
    /\ exists t4, matches (Patterns.word "Reference") t3 t4.
Proof.
  intros H. unfold Patterns.references_heading in H.
  assert (Hgen : forall W,
            Forall2 (fun c a => (lower c =? lower a) = true) (txt W) (txt "Reference") ->
            forall r, matches (Cat nl (Cat ws (Cat (lit false W) r))) t s' ->
            exists w t3, t ++ u = NL :: w ++ t3
              /\ Forall (fun a => is_space a = true) w
              /\ exists t4, matches (Patterns.word "Reference") t3 t4).
  { intros W HW r Hm.
    apply matches_cat in Hm as (t1 & Hnl & Hm).
    apply matches_cat in Hm as (t2 & Hws & Hm).
    apply matches_cat in Hm as (t3 & Hlit & Hm).
    apply matches_cls in Hnl as (a & -> & Ha). apply N.eqb_eq in Ha as ->.
    apply matches_many in Hws as (w & -> & Hw).
    apply lit_exact in Hlit as ->.
    apply matches_suffix in Hm as [y ->].
    exists w, (txt W ++ (y ++ s') ++ u). split; [ | split; [ exact Hw | ] ].
    - cbn. by rewrite <- !app_assoc.
    - eexists. by apply lit_ignorecase. }
  apply matches_alt in H as [H|H]; eapply Hgen; try exact H;
    vm_compute; repeat constructor.
Qed.

(** The lookaheads of the conclusion and discussion patterns succeed in
    front of every References heading. *)
Lemma covers_references alts :
  (forall x y, matches (Patterns.word "Reference") x y -> matches alts x y) ->
  forall t s' u, matches Patterns.references_heading t s' ->
  exists s'', matches (Alt (Cat nl (Cat ws alts)) EndZ) (t ++ u) s''.
Proof.
  intros Halts t s' u H.
  apply (reference_word_covers t s' u) in H as (w & t3 & -> & Hw & t4 & Hword).
  exists t4. apply M_alt_l. econstructor; [ by constructor | ].
  econstructor; [ apply matches_many; eauto | by apply Halts ].
Qed.

Ltac solve_stops_at_references :=
  eexists; split; [ reflexivity | ]; split; [ vm_compute; reflexivity | ];
  apply covers_references; intros x y Hword;
  repeat first [ apply M_alt_l; exact Hword | apply M_alt_r ].

Lemma conclusion_patterns_stop_at_references :
  Forall stops_at_references Patterns.conclusion_patterns.
Proof. repeat (constructor; [ solve_stops_at_references | ]). constructor. Qed.

Lemma discussion_patterns_stop_at_references :
  Forall stops_at_references Patterns.discussion_patterns.
Proof. repeat (constructor; [ solve_stops_at_references | ]). constructor. Qed.

(** Such a capture contains no References heading. *)
Lemma capture_has_no_references_heading p content g :
  stops_at_references p -> captures p content g ->
  search Patterns.references_heading g = None.
Proof.
  intros (b & Hb & Hg & Hcov) (mo & Hs & Hgrp).
  apply search_from_sound in Hs as (n & sf & _ & Hrun & _). rewrite Hgrp in Hrun.
  destruct (boundary_capture _ _ _ _ _ _ Hb Hg Hrun) as (pre & g' & [= <-] & _ & Hmin).
  apply search_from_none. intros m _.
  destruct (run Patterns.references_heading (drop m g) None accept) as [x|] eqn:Hrefs;
    [ exfalso | reflexivity ].
  assert (Hne : drop m g <> []).
  { intros Hnil. rewrite Hnil in Hrefs.
    by rewrite references_heading_needs_newline in Hrefs. }
  apply run_sound in Hrefs as (s' & _ & Hm & _).
  destruct (Hcov _ _ sf Hm) as [s'' Hm'].
  apply (Hmin (take m g) (drop m g) s''); [ by rewrite take_drop | exact Hne | exact Hm' ].
Qed.

(** With a References heading read as the pattern of the split reads it
    (a newline, optional white space, the word): a conclusion in the result
    is what [re.split] leaves of the normalized capture of a conclusion
    pattern or, in the fallback, a discussion pattern; it contains no such
    heading, and neither does the captured section it was made from.  The
    cut itself finds nothing to remove: the conclusion is the whole
    normalized capture. *)
Lemma conclusion_has_no_anchored_heading (content : text) (s : sections) (c : text) :
  extract_from_content content = Ok s ->
  conclusion s = Some c ->
  exists p g,
    p ∈ Patterns.conclusion_patterns ++ Patterns.discussion_patterns
    /\ captures p content g
    /\ c = split_head Patterns.references_heading (normalize g)
    /\ search Patterns.references_heading c = None
    /\ search Patterns.references_heading g = None
    /\ c = normalize g.
Proof.
  intros Hs Hc.
  assert (Hfrom : exists patterns,
            (patterns = Patterns.conclusion_patterns
             \/ patterns = Patterns.discussion_patterns)
            /\ cascade (fun g => cut_references (normalize g)) patterns content
               = Ok (Some c)).
  { unfold extract_from_content, extract_with in Hs.
    destruct (find_abstract content) as [a|]; [ | discriminate ].
    destruct (find_conclusion content) as [[c'|]|] eqn:Hfc; [ | | discriminate ].
    - injection Hs as <-. cbn in Hc. injection Hc as ->. eauto.
    - destruct (find_discussion content) as [d|] eqn:Hfd; [ | discriminate ].
      injection Hs as <-. cbn in Hc. subst d. eauto. }
  destruct Hfrom as (patterns & Hp & Hcas).
  apply cascade_accepted in Hcas as (pre & p & post & g & -> & _ & Hcap & -> & _).
  assert (Hin : p ∈ pre ++ p :: post).
  { apply elem_of_app. right. apply list_elem_of_here. }
  assert (Hstop : stops_at_references p).
  { destruct Hp as [Hp|Hp].
    - pose proof conclusion_patterns_stop_at_references as H.
      rewrite <- Hp, Forall_forall in H. by apply H.
    - pose proof discussion_patterns_stop_at_references as H.
      rewrite <- Hp, Forall_forall in H. by apply H. }
  exists p, g.
  split; [ | split; [ exact Hcap | split; [ reflexivity | split; [ | split ] ] ] ].
  - apply elem_of_app. destruct Hp as [<-|<-]; auto.
  - rewrite cut_references_normalize.
    apply search_references_no_newline, normalize_no_newline.
  - by apply (capture_has_no_references_heading p content).
  - apply cut_references_normalize.
Qed.

Example conclusion_then_references_is_cut :
  extract_from_content conclusion_then_references
  = Ok {| abstract := None; conclusion := Some conclusion_text |}.
Proof. vm_compute. reflexivity. Qed.

(** C6 on the code.  The cut at the References heading is made on the
    normalized capture, in which every newline has become a space, so it
    returns every normalized capture unchanged.  And when the References
    heading comes directly after the Conclusion heading, the pattern has
    taken the newline in front of it: the capture starts with the heading,
    neither the lookahead nor the cut stops there, and the conclusion of
    the result is the heading followed by the list of references. *)
Theorem references_list_is_returned_as_conclusion :
  (forall g, cut_references (normalize g) = normalize g)
  /\ reconstruct conclusion_without_body
     = Ok (txt "5 Conclusion" ++ [NL; NL] ++ references_section)
  /\ captures (hd Eps Patterns.conclusion_patterns)
       (txt "5 Conclusion" ++ [NL; NL] ++ references_section) references_section
  /\ extract_sections conclusion_without_body
     = {| abstract := None;
          conclusion :=
            Some (txt "References [1] A. Author. A long title of a paper. Journal, 2020. [2] B. Author. Another long title. Conference, 2021.") |}.
Proof.
  split; [ exact cut_references_normalize | ].
  split; [ reflexivity | ]. split.
  - eexists. split; vm_compute; reflexivity.
  - vm_compute. reflexivity.
Qed.

(** ** The workflow manager *)

Section Steps.
Import Workflow.
Variable World : Type.
Variable step_func : string -> World -> bool * World.

(** The loop calls the steps of its list in order and stops after the
    first one that returns False. *)
Lemma run_steps_calls todo : forall m ok m',
  run_steps World step_func todo m = (ok, m') ->
  exists done rest,
    todo = done ++ rest
    /\ called m' = called m ++ done
    /\ (ok = true -> rest = [])
    /\ (ok = false ->
        exists failing, last done = Some failing /\ state m' !! failing = Some false).
Proof.
  induction todo as [|step_name todo IH]; intros m ok m'; cbn [run_steps].
  - intros [= <- <-]. exists [], [].
    split; [ reflexivity | ]. split; [ by rewrite app_nil_r | ].
    split; [ reflexivity | discriminate ].
  - destruct (step_func step_name (outside m)) as [[|] w'].
    + intros H. apply IH in H as (done & rest & -> & Hcalled & Hok & Hfail).
      cbn [called] in Hcalled.
      exists (step_name :: done), rest. split; [ reflexivity | ].
      split; [ by rewrite Hcalled, <- app_assoc | ]. split; [ exact Hok | ].
      intros Hf. destruct (Hfail Hf) as (failing & Hlast & Hstate).
      exists failing. split; [ | exact Hstate ].
      destruct done; [ discriminate Hlast | exact Hlast ].
    + intros [= <- <-]. exists [step_name], todo. cbn [called state].
      split; [ reflexivity | ]. split; [ reflexivity | ]. split; [ discriminate | ].
      intros _. exists step_name. split; [ reflexivity | apply lookup_insert_eq ].
Qed.

(** The steps called are called on the world as the steps before them left
    it; each but the last returned True, and the last returned False
    exactly when the loop reports failure.  The status map holds for each
    of them what it returned. *)
Lemma run_steps_outcomes todo : forall m ok m',
  run_steps World step_func todo m = (ok, m') ->
  exists done rest results,
    todo = done ++ rest
    /\ called m' = called m ++ done
    /\ outcomes World step_func done (outside m) = (results, outside m')
    /\ (ok = true -> rest = [] /\ Forall (fun b => b = true) results)
    /\ (ok = false ->
        exists earlier failing,
          done = earlier ++ [failing]
          /\ results = replicate (length earlier) true ++ [false])
    /\ (NoDup todo ->
        (forall n, n ∉ done -> state m' !! n = state m !! n)
        /\ (forall i n b, done !! i = Some n -> results !! i = Some b ->
                          state m' !! n = Some b)).
Proof.
  induction todo as [|x todo IH]; intros m ok m'; cbn [run_steps].
  - intros [= <- <-]. exists [], [], []. cbn [outcomes].
    split; [ done | ]. split; [ by rewrite app_nil_r | ]. split; [ done | ].
    split; [ done | ]. split; [ done | ]. intros _. split; [ done | ].
    intros i n b Hi. by rewrite lookup_nil in Hi.
  - destruct (step_func x (outside m)) as [[|] w'] eqn:Hstep.
    + intros Hrun.
      apply IH in Hrun
        as (done & rest & results & -> & Hcalled & Hout & Hok & Hfail & Hstate).
      cbn [called state outside] in Hcalled, Hout, Hstate.
      exists (x :: done), rest, (true :: results). cbn [outcomes].
      rewrite Hstep, Hout.
      split; [ done | ]. split; [ by rewrite Hcalled, <- app_assoc | ].
      split; [ done | ]. split; [ | split ].
      * intros Hk. destruct (Hok Hk) as [-> Hall]. split; [ done | by constructor ].
      * intros Hk. destruct (Hfail Hk) as (earlier & failing & -> & ->).
        by exists (x :: earlier), failing.
      * intros Hnd. apply NoDup_cons in Hnd as [Hx Hnd].
        destruct (Hstate Hnd) as [Hkeep Hrec].
        assert (Hxd : x ∉ done).
        { intros Hd. apply Hx, elem_of_app. by left. }
        split.
        -- intros n Hn. apply not_elem_of_cons in Hn as [Hnx Hnd'].
           rewrite (Hkeep n Hnd'). by apply lookup_insert_ne.
        -- intros [|i] n b Hn Hb; cbn in Hn, Hb.
           ++ injection Hn as <-. injection Hb as <-.
              rewrite (Hkeep x Hxd). apply lookup_insert_eq.
           ++ by apply (Hrec i).
    + intros [= <- <-]. exists [x], todo, [false]. cbn [outcomes called state outside].
      rewrite Hstep.
      split; [ done | ]. split; [ done | ]. split; [ done | ].
      split; [ done | ]. split; [ intros _; by exists [], x | ].
      intros _. split.
      * intros n Hn. apply not_elem_of_cons in Hn as [Hnx _].
        by apply lookup_insert_ne.
      * intros [|i] n b Hn Hb; cbn in Hn, Hb; [ | discriminate Hn ].
        injection Hn as <-. injection Hb as <-. apply lookup_insert_eq.
Qed.

Lemma steps_NoDup : NoDup steps.
Proof.
  unfold steps.
  repeat (apply NoDup_cons; split;
          [ rewrite ?elem_of_cons, elem_of_nil; intros H;
            repeat (destruct H as [H|H]; [ discriminate H | ]); exact H | ]).
  apply NoDup_nil_2.
Qed.

Lemma run_from_recognized K :
  K ∈ steps ->
  exists before after,
    steps = before ++ K :: after
    /\ (K = "extract"%string -> before = ["clear"; "fetch"; "download"; "parse"]%string)
    /\ forall m, run_full_workflow World step_func (Some K) m
                 = run_steps World step_func (K :: after) m.
Proof.
  unfold steps. rewrite !elem_of_cons, elem_of_nil.
  intros [->|[->|[->|[->|[->|[->|[]]]]]]].
  - by exists [], (tl steps).
  - by exists (take 1 steps), (drop 2 steps).
  - by exists (take 2 steps), (drop 3 steps).
  - by exists (take 3 steps), (drop 4 steps).
  - by exists (take 4 steps), (drop 5 steps).
  - by exists (take 5 steps), (drop 6 steps).
Qed.

End Steps.

(** C7, as the code has it.  For a recognized step name K, a run started
    from K calls, in their order in the list, the steps from K up to and
    including the first one that returns False, and all the steps from K
    onward when none returns False: the steps called are an initial part
    [done] of the steps from K, each is called on the world that the one
    before it left, every one but the last returned True, and the last
    returned False exactly when the run returns False; when the run
    returns True nothing from K onward is left out.  It calls no step that
    is listed before K; started from "extract", it calls none of clear,
    fetch, download and parse. *)
Theorem run_starts_at_the_given_step
  (World : Type) (step_func : string -> World -> bool * World)
  (K : string) (m : Workflow.manager World) :
  K ∈ Workflow.steps ->
  let r := Workflow.run_full_workflow World step_func (Some K) m in
  exists before after done rest results,
    Workflow.steps = before ++ K :: after
    /\ K :: after = done ++ rest
    /\ Workflow.called r.2 = Workflow.called m ++ done
    /\ (r.1 = true -> rest = [])
    /\ (r.1 = false ->
        exists failing, last done = Some failing
                        /\ Workflow.state r.2 !! failing = Some false)
    /\ (forall n, n ∈ before -> n ∉ done)
    /\ (K = "extract"%string ->
        forall n, n ∈ ["clear"; "fetch"; "download"; "parse"]%string -> n ∉ done)
    /\ outcomes World step_func done (Workflow.outside m)
       = (results, Workflow.outside r.2)
    /\ (r.1 = true -> Forall (fun b => b = true) results)
    /\ (r.1 = false ->
        exists earlier failing,
          done = earlier ++ [failing]
          /\ results = replicate (length earlier) true ++ [false]).
Proof.
  intros HK r.
  destruct (run_from_recognized World step_func K HK)
    as (before & after & Hsteps & Hextract & Hrun).
  subst r. rewrite Hrun.
  destruct (Workflow.run_steps World step_func (K :: after) m) as [ok m'] eqn:Hres.
  pose proof (run_steps_outcomes World step_func _ _ _ _ Hres)
    as (done' & rest' & results & Hsplit' & Hcalled' & Hout & Hall & Hlast & _).
  apply run_steps_calls in Hres as (done & rest & Hsplit & Hcalled & Hok & Hfail).
  assert (done' = done) as ->.
  { rewrite Hcalled in Hcalled'. by apply app_inv_head in Hcalled'. }
  assert (Hdisj : forall n, n ∈ before -> n ∉ done).
  { intros n Hb Hd. pose proof steps_NoDup as Hnd. rewrite Hsteps in Hnd.
    apply NoDup_app in Hnd as (_ & Hnd & _). apply (Hnd n Hb).
    rewrite Hsplit. apply elem_of_app. by left. }
  exists before, after, done, rest, results. cbn [fst snd].
  repeat (split; [ assumption | ]).
  split; [ intros HKe n Hn; apply Hdisj; by rewrite (Hextract HKe) | ].
  split; [ exact Hout | ]. split; [ | exact Hlast ].
  intros Hk. by destruct (Hall Hk).
Qed.

Lemma run_starts_at_the_given_step_witness :
  "extract"%string ∈ Workflow.steps
  /\ exists done,
       Workflow.called
         (Workflow.run_full_workflow unit extract_fails (Some "extract"%string)
            fresh_manager).2 = done
       /\ ("clear"%string ∉ done) /\ ("fetch"%string ∉ done)
       /\ ("download"%string ∉ done) /\ ("parse"%string ∉ done).
Proof.
  assert (HK : "extract"%string ∈ Workflow.steps).
  { unfold Workflow.steps. rewrite !elem_of_cons. tauto. }
  split; [ exact HK | ].
  destruct (run_starts_at_the_given_step unit extract_fails "extract" fresh_manager HK)
    as (before & after & done & rest & results & _ & _ & Hcalled & _ & _ & _ & Hnone & _).
  exists done. split; [ exact Hcalled | ].
  repeat split; apply (Hnone eq_refl); rewrite !elem_of_cons; tauto.
Defined.

(** C7 as stated fails when a step fails: started from "extract" with a
    failing extract step, the run calls "extract" and stops, so
    "summarise" is not executed. *)
Lemma failing_step_stops_the_run :
  ~ calls_all_from unit extract_fails "extract"
  /\ Workflow.run_full_workflow unit extract_fails (Some "extract"%string) fresh_manager
     = (false, {| Workflow.state := {[ "extract"%string := false ]};
                  Workflow.outside := tt;
                  Workflow.called := ["extract"%string] |}).
Proof.
  assert (Hrun : Workflow.run_full_workflow unit extract_fails (Some "extract"%string)
                   fresh_manager
                 = (false, {| Workflow.state := {[ "extract"%string := false ]};
                              Workflow.outside := tt;
                              Workflow.called := ["extract"%string] |}))
    by reflexivity.
  split; [ | exact Hrun ].
  intros Hclaim.
  specialize (Hclaim fresh_manager ["clear"; "fetch"; "download"; "parse"]%string
                ["summarise"%string] eq_refl).
  rewrite Hrun in Hclaim. discriminate Hclaim.
Qed.

(** ** The test pipeline *)

(** C8, as the code has it.  A failure of the dump at the very end of
    the run is absorbed: the run returns True and the failure is only
    logged.  A failure of the dump that follows a successful summarise.py
    is absorbed only for an optional stage; for a required stage the loop
    is left with False.  summarise.py is required in the pipeline, so a
    run in which every script succeeds and that dump fails returns False,
    without running the final dump. *)
Theorem only_the_final_dump_failure_is_absorbed
  (World : Type) (run_script : string -> World -> bool * World)
  (dump_summaries dump_full_documents : World -> bool * World) :
  (forall w w1 log ok w2,
      Pipeline.stages World run_script dump_summaries Pipeline.pipeline w []
      = (true, w1, log) ->
      dump_full_documents w1 = (ok, w2) ->
      Pipeline.run_pipeline World run_script dump_summaries dump_full_documents w
      = (true, w2, log ++ [Pipeline.DumpedFullDocuments ok]))
  /\ (forall required rest w w1 w2 log,
        run_script "summarise.py"%string w = (true, w1) ->
        dump_summaries w1 = (false, w2) ->
        let log' := log ++ [Pipeline.Ran "summarise.py"; Pipeline.DumpedSummaries false] in
        Pipeline.stages World run_script dump_summaries
          (("summarise.py"%string, required) :: rest) w log
        = if required then (false, w2, log')
          else Pipeline.stages World run_script dump_summaries rest w2 log')
  /\ ((forall script w, (run_script script w).1 = true) ->
      (forall w, (dump_summaries w).1 = false) ->
      forall w,
        exists w' log,
          Pipeline.run_pipeline World run_script dump_summaries dump_full_documents w
          = (false, w', log)
          /\ forall ok, Pipeline.DumpedFullDocuments ok ∉ log).
Proof.
  split; [ | split ].
  - intros w w1 log ok w2 Hst Hd. unfold Pipeline.run_pipeline. by rewrite Hst, Hd.
  - intros required rest w w1 w2 log Hs Hd log'. cbn [Pipeline.stages].
    rewrite Hs. cbn [negb andb]. rewrite bool_decide_eq_true_2 by reflexivity.
    rewrite bool_decide_eq_false_2 by discriminate. cbn [andb].
    rewrite Hd. cbn [negb andb]. subst log'. rewrite <- !app_assoc.
    by destruct required.
  - intros Hscripts Hdump w.
    unfold Pipeline.run_pipeline, Pipeline.pipeline. cbn [Pipeline.stages].
    repeat match goal with
    | |- context [run_script ?n ?x] =>
        let H := fresh "H" in
        pose proof (Hscripts n x) as H;
        destruct (run_script n x) as [? ?]; cbn [fst] in H; subst;
        cbn [negb andb]; rewrite ?bool_decide_eq_false_2 by discriminate;
        rewrite ?bool_decide_eq_true_2 by reflexivity; cbn [negb andb]
    end.
    match goal with
    | |- context [dump_summaries ?x] =>
        pose proof (Hdump x) as H;
        destruct (dump_summaries x) as [? ?]; cbn [fst] in H; subst
    end.
    cbn [negb andb]. eexists _, _. split; [ reflexivity | ].
    intros ok. cbn [app]. rewrite !elem_of_cons, elem_of_nil.
    intros H; repeat (destruct H as [H|H]; [ discriminate H | ]); exact H.
Qed.

Lemma only_the_final_dump_failure_is_absorbed_witness :
  Pipeline.run_pipeline unit scripts_succeed dump_returns dump_raises tt
  = (true, tt,
     [Pipeline.Ran "fetch.py"; Pipeline.Ran "download.py"; Pipeline.Ran "parse.py";
      Pipeline.Ran "extract_regex.py"; Pipeline.Slept; Pipeline.Ran "summarise.py";
      Pipeline.DumpedSummaries true; Pipeline.DumpedFullDocuments false]).
Proof.
  apply (proj1 (only_the_final_dump_failure_is_absorbed unit scripts_succeed
                  dump_returns dump_raises) tt tt
           [Pipeline.Ran "fetch.py"; Pipeline.Ran "download.py"; Pipeline.Ran "parse.py";
            Pipeline.Ran "extract_regex.py"; Pipeline.Slept; Pipeline.Ran "summarise.py";
            Pipeline.DumpedSummaries true] false tt); reflexivity.
Defined.

(** C8 as stated fails for the dump that follows summarise.py: every
    script succeeds, that dump raises, and the run returns False. *)
Lemma summaries_dump_failure_fails_the_run :
  ~ dump_failures_absorbed unit scripts_succeed dump_raises dump_returns
  /\ Pipeline.run_pipeline unit scripts_succeed dump_raises dump_returns tt
     = (false, tt,
        [Pipeline.Ran "fetch.py"; Pipeline.Ran "download.py"; Pipeline.Ran "parse.py";
         Pipeline.Ran "extract_regex.py"; Pipeline.Slept; Pipeline.Ran "summarise.py";
         Pipeline.DumpedSummaries false]).
Proof.
  split; [ | reflexivity ].
  intros Hclaim. specialize (Hclaim (fun _ _ => eq_refl) tt). discriminate Hclaim.
Qed.

(** ** The parallel converter *)

Section Batch.
Import Parallel.
Variable convert : string -> bool.
Variable export_raised : string -> bool.

Lemma count_partition rs : (count true rs + count false rs = length rs)%nat.
Proof.
  unfold count. induction rs as [|[|] rs IH]; [ reflexivity | | ];
    rewrite !filter_cons; cbn [length];
    repeat (case_decide; try congruence); cbn [length]; lia.
Qed.

(** One result and one step per input, in the order of the inputs. *)
Lemma gather_lengths input_paths : forall i o rs o',
  gather convert export_raised i input_paths o = (rs, o') ->
  length rs = length input_paths
  /\ exists new, steps o' = steps o ++ new /\ length new = length input_paths.
Proof.
  induction input_paths as [|stem rest IH]; intros i o rs o'; cbn [gather].
  - intros [= <- <-]. split; [ reflexivity | ]. exists []. by rewrite app_nil_r.
  - destruct (convert_pdf convert export_raised (S (i mod 2)) stem o) as [r o1] eqn:H1.
    destruct (gather convert export_raised (S i) rest o1) as [rs' o2] eqn:H2.
    intros [= <- <-]. apply IH in H2 as (Hlen & new & Hnew & Hnewlen).
    split; [ cbn; lia | ].
    assert (exists e, steps o1 = steps o ++ [e]) as [e He].
    { unfold convert_pdf in H1.
      repeat case_bool_decide; destruct (convert stem);
        injection H1 as <- <-; cbn [steps]; eauto. }
    exists (e :: new). rewrite Hnew, He, <- app_assoc. split; [ reflexivity | cbn; lia ].
Qed.

(** The tally [skipped] is zero for every batch. *)
Lemma skipped_is_zero input_paths o sm o' :
  convert_pdfs_parallel convert export_raised input_paths o = (Some sm, o') ->
  skipped sm = 0%nat /\ length (results sm) = length input_paths.
Proof.
  unfold convert_pdfs_parallel. destruct input_paths as [|stem rest]; [ discriminate | ].
  destruct (gather convert export_raised 0 (stem :: rest) o) as [rs o1] eqn:Hg.
  intros [= <- <-]. cbn [skipped results].
  apply gather_lengths in Hg as [Hlen _].
  pose proof (count_partition rs). split; lia.
Qed.

(** Jobs on different files do not see one another: every job does and
    returns what it would have done alone. *)
Lemma job_steps_ext (E1 E2 : gset string) input_paths : forall i,
  (forall stem, stem ∈ input_paths -> stem ∈ E1 <-> stem ∈ E2) ->
  job_steps E1 i input_paths = job_steps E2 i input_paths
  /\ map (job_result convert E1) input_paths = map (job_result convert E2) input_paths.
Proof.
  induction input_paths as [|stem rest IH]; intros i Hext; [ done | ].
  destruct (IH (S i)) as [IH1 IH2].
  { intros x Hx. apply Hext. by apply elem_of_cons; right. }
  cbn [job_steps map]. rewrite IH1, IH2. unfold job_step, job_result.
  by rewrite (bool_decide_ext _ _ (Hext stem (list_elem_of_here _ _))).
Qed.

Lemma convert_pdf_spec instance_id stem o :
  convert_pdf convert export_raised instance_id stem o
  = (job_result convert (json_files o) stem,
     {| json_files := if negb (bool_decide (stem ∈ json_files o))
                         && (convert stem || export_raised stem)
                      then {[stem]} ∪ json_files o else json_files o;
        steps := steps o
                 ++ [if bool_decide (stem ∈ json_files o)
                     then Skipping instance_id stem
                     else Converting instance_id stem] |}).
Proof.
  unfold convert_pdf, job_result.
  case_bool_decide; [ reflexivity | ].
  by destruct (convert stem), (export_raised stem).
Qed.

Lemma gather_spec input_paths : forall i o rs o',
  NoDup input_paths ->
  gather convert export_raised i input_paths o = (rs, o') ->
  rs = map (job_result convert (json_files o)) input_paths
  /\ steps o' = steps o ++ job_steps (json_files o) i input_paths.
Proof.
  induction input_paths as [|stem rest IH]; intros i o rs o' Hnd; cbn [gather].
  - intros [= <- <-]. by rewrite app_nil_r.
  - apply NoDup_cons in Hnd as [Hfresh Hnd].
    rewrite convert_pdf_spec.
    destruct (gather convert export_raised (S i) rest _) as [rs' o2] eqn:H2.
    intros [= <- <-]. apply IH in H2 as [-> ->]; [ | exact Hnd ].
    cbn [json_files steps].
    destruct (job_steps_ext
                (if negb (bool_decide (stem ∈ json_files o))
                    && (convert stem || export_raised stem)
                 then {[stem]} ∪ json_files o else json_files o)
                (json_files o) rest (S i)) as [-> ->].
    { intros x Hx. destruct (negb _ && _); [ | reflexivity ].
      rewrite elem_of_union, elem_of_singleton. split; [ | auto ].
      intros [->|?]; [ contradiction | done ]. }
    split; [ reflexivity | ]. by rewrite <- app_assoc.
Qed.

Lemma count_map_true (f : string -> bool) l :
  count true (map f l) = length (filter (fun x => f x = true) l)
  /\ count false (map f l) = length (filter (fun x => f x = false) l).
Proof.
  unfold count. induction l as [|x l [IH1 IH2]]; [ done | ].
  cbn [map]. rewrite !filter_cons.
  destruct (f x) eqn:Hx; repeat case_decide; try congruence; cbn [length];
    by rewrite ?IH1, ?IH2.
Qed.

End Batch.

(** C9, as the code has it.  A batch of N distinct inputs gives N results
    and N steps, one per input and in the order of the inputs; each job
    does and returns what it would alone, whatever the other jobs do: a
    job whose output file exists when the batch starts is not converted
    and returns True, any other job is converted once and returns whether
    the conversion went through.  The summary counts under [successful]
    the jobs whose output existed together with those converted, under
    [failed] the conversions that raised, and [skipped] is 0. *)
Theorem existing_output_is_counted_as_successful
  (convert export_raised : string -> bool) (input_paths : list string)
  (o o' : Parallel.outputs) (sm : Parallel.summary) :
  NoDup input_paths ->
  Parallel.convert_pdfs_parallel convert export_raised input_paths o = (Some sm, o') ->
  Parallel.results sm = map (job_result convert (Parallel.json_files o)) input_paths
  /\ Parallel.steps o'
     = Parallel.steps o ++ job_steps (Parallel.json_files o) 0 input_paths
  /\ Parallel.successful sm
     = length (filter (fun stem => job_result convert (Parallel.json_files o) stem = true)
                      input_paths)
  /\ Parallel.failed sm
     = length (filter (fun stem => job_result convert (Parallel.json_files o) stem = false)
                      input_paths)
  /\ Parallel.skipped sm = 0%nat.
Proof.
  intros Hnd H.
  destruct (skipped_is_zero convert export_raised _ _ _ _ H) as [Hskipped _].
  unfold Parallel.convert_pdfs_parallel in H.
  destruct input_paths as [|stem rest]; [ discriminate | ].
  destruct (Parallel.gather convert export_raised 0 (stem :: rest) o) as [rs o1] eqn:Hg.
  injection H as <- <-. cbn [Parallel.results Parallel.successful Parallel.failed].
  apply gather_spec in Hg as [-> ->]; [ | exact Hnd ].
  destruct (count_map_true (job_result convert (Parallel.json_files o)) (stem :: rest))
    as [Ht Hf].
  cbn [Parallel.skipped] in Hskipped.
  split; [ reflexivity | ]. split; [ reflexivity | ].
  split; [ exact Ht | ]. split; [ exact Hf | exact Hskipped ].
Qed.

Lemma existing_output_is_counted_as_successful_witness :
  NoDup ["paper"%string]
  /\ exists sm o',
       Parallel.convert_pdfs_parallel (fun _ => true) (fun _ => false)
         ["paper"%string] output_exists
       = (Some sm, o')
       /\ Parallel.steps o' = [Parallel.Skipping 1 "paper"]
       /\ Parallel.successful sm = 1%nat
       /\ Parallel.skipped sm = 0%nat.
Proof.
  assert (Hnd : NoDup ["paper"%string]).
  { apply NoDup_singleton. }
  split; [ exact Hnd | ].
  destruct (Parallel.convert_pdfs_parallel (fun _ => true) (fun _ => false)
              ["paper"%string] output_exists)
    as [[sm|] o'] eqn:H; [ | discriminate H ].
  destruct (existing_output_is_counted_as_successful _ _ _ _ _ _ Hnd H)
    as (_ & Hsteps & Hsucc & _ & Hskip).
  exists sm, o'. split; [ reflexivity | ].
  split; [ exact Hsteps | ]. split; [ exact Hsucc | exact Hskip ].
Defined.

(* ===================================================================== *)
(** * Further properties *)
(* ===================================================================== *)

(** ** The form of an extracted section *)

Section Normal.
Implicit Types (s t g : text).

Lemma lstrip_suffix s : exists w, s = w ++ lstrip s /\ Forall (fun a => is_space a = true) w.
Proof.
  induction s as [|a s (w & Hs & Hw)]; cbn [lstrip]; [ by exists [] | ].
  destruct (is_space a) eqn:Ha.
  - exists (a :: w). split; [ cbn; by rewrite <- Hs | by constructor ].
  - by exists [].
Qed.

Lemma lstrip_head s a : head (lstrip s) = Some a -> is_space a = false.
Proof.
  induction s as [|b s IH]; cbn [lstrip]; [ discriminate | ].
  destruct (is_space b) eqn:Hb; [ exact IH | ].
  cbn. by intros [= <-].
Qed.

Lemma lstrip_fixed s :
  (forall a, head s = Some a -> is_space a = false) -> lstrip s = s.
Proof.
  destruct s as [|a s]; [ reflexivity | ]. cbn. intros H.
  by rewrite (H a eq_refl).
Qed.

Lemma last_rev_head (s : text) : last (rev s) = head s.
Proof. destruct s as [|a s]; [ reflexivity | ]. cbn [rev]. apply last_snoc. Qed.

Lemma head_rev_last (s : text) : head (rev s) = last s.
Proof. by rewrite <- last_rev_head, rev_involutive. Qed.

Lemma rstrip_last s a : last (rstrip s) = Some a -> is_space a = false.
Proof.
  unfold rstrip. rewrite last_rev_head. apply lstrip_head.
Qed.

Lemma rstrip_prefix s : exists w, s = rstrip s ++ w /\ Forall (fun a => is_space a = true) w.
Proof.
  unfold rstrip. destruct (lstrip_suffix (rev s)) as (w & Hs & Hw).
  exists (rev w). split.
  - rewrite <- (rev_involutive s), Hs at 1. by rewrite rev_app_distr.
  - by apply Forall_rev.
Qed.

Lemma rstrip_head s a :
  head s = Some a -> is_space a = false -> head (rstrip s) = Some a.
Proof.
  intros Hh Ha. destruct (rstrip_prefix s) as (w & Hs & Hw).
  destruct (rstrip s) as [|b r] eqn:Hr.
  - cbn in Hs. subst s. destruct w as [|c w]; [ discriminate | ].
    cbn in Hh. injection Hh as ->. apply Forall_cons in Hw as [Hc _]. congruence.
  - rewrite Hs in Hh. cbn in *. exact Hh.
Qed.

(** A stripped text neither starts nor ends with white space. *)
Lemma strip_ends g :
  (forall a, head (strip g) = Some a -> is_space a = false)
  /\ (forall a, last (strip g) = Some a -> is_space a = false).
Proof.
  unfold strip. split; [ | apply rstrip_last ].
  intros a Ha. destruct (lstrip g) as [|b r] eqn:Hl; [ discriminate Ha | ].
  assert (Hb : is_space b = false) by (apply (lstrip_head g); by rewrite Hl).
  rewrite (rstrip_head (b :: r) b eq_refl Hb) in Ha. congruence.
Qed.

Lemma sub_ws_from_single_spaced s : forall p,
  (forall a, last s = Some a -> is_space a = false) ->
  (s = [] -> p = false) ->
  single_spaced p (sub_ws_from p s) = true.
Proof.
  induction s as [|a s IH]; intros p Hlast Hnil; cbn [sub_ws_from single_spaced].
  - by rewrite Hnil.
  - assert (Hlast' : forall b, last s = Some b -> is_space b = false).
    { intros b Hb. apply Hlast. destruct s; [ discriminate | exact Hb ]. }
    destruct (is_space a) eqn:Ha.
    + assert (Hs : s <> []).
      { intros ->. rewrite (Hlast a eq_refl) in Ha. discriminate. }
      destruct p.
      * apply IH; [ exact Hlast' | done ].
      * cbn [single_spaced]. change (is_space SP) with true. cbn [negb andb].
        rewrite N.eqb_refl. apply IH; [ exact Hlast' | done ].
    + cbn [single_spaced]. rewrite Ha. apply IH; [ exact Hlast' | done ].
Qed.

Lemma normalize_is_normalized g : is_normalized (normalize g) = true.
Proof.
  unfold normalize, sub_ws. destruct (strip_ends g) as [Hh Hl].
  destruct (strip g) as [|a s] eqn:Hs; [ reflexivity | ].
  pose proof (Hh a eq_refl) as Ha.
  pose proof (sub_ws_from_single_spaced (a :: s) false Hl (fun H => eq_refl)) as H.
  cbn [sub_ws_from] in *. rewrite Ha in *. cbn [is_normalized single_spaced] in *.
  by rewrite Ha in *.
Qed.

Lemma single_spaced_fixed t : forall p,
  single_spaced p t = true ->
  sub_ws_from p t = t
  /\ (forall a, last t = Some a -> is_space a = false)
  /\ (p = true -> forall a, head t = Some a -> is_space a = false).
Proof.
  induction t as [|a t IH]; intros p; cbn [single_spaced sub_ws_from].
  - intros _. by repeat split.
  - destruct (is_space a) eqn:Ha.
    + intros H. apply andb_true_iff in H as [H Ht].
      apply andb_true_iff in H as [Hsp Hp]. apply N.eqb_eq in Hsp as ->.
      apply negb_true_iff in Hp as ->.
      destruct (IH true Ht) as (Hfix & Hlast & _). rewrite Hfix.
      split; [ reflexivity | ]. split; [ | discriminate ].
      intros b Hb. destruct t as [|c t]; [ discriminate Ht | by apply Hlast ].
    + intros Ht. destruct (IH false Ht) as (Hfix & Hlast & _). rewrite Hfix.
      split; [ reflexivity | ]. split.
      * intros b Hb. destruct t as [|c t]; [ | by apply Hlast ].
        cbn in Hb. by injection Hb as <-.
      * intros _ b [= <-]. exact Ha.
Qed.

Lemma rstrip_fixed s :
  (forall a, last s = Some a -> is_space a = false) -> rstrip s = s.
Proof.
  intros H. unfold rstrip. rewrite lstrip_fixed; [ apply rev_involutive | ].
  intros a Ha. apply H. by rewrite <- head_rev_last.
Qed.

(** Normalizing a normalized text changes nothing. *)
Lemma normalize_fixed t : is_normalized t = true -> normalize t = t.
Proof.
  destruct t as [|a t]; [ reflexivity | ]. unfold is_normalized. intros H.
  destruct (single_spaced_fixed _ _ H) as (_ & Hlast & Hhead).
  pose proof (Hhead eq_refl a eq_refl) as Ha.
  unfold normalize, strip.
  rewrite (lstrip_fixed (a :: t)) by (intros b [= <-]; exact Ha).
  rewrite rstrip_fixed by exact Hlast.
  unfold sub_ws. cbn [single_spaced sub_ws_from] in *. rewrite Ha in *.
  by destruct (single_spaced_fixed _ _ H) as (-> & _).
Qed.

End Normal.

(** What [extract_sections] returns in a field was accepted by a cascade:
    it is the normalized capture of a pattern in the reconstructed
    content, longer than the minimum. *)
Lemma extract_sections_field doc col t :
  field_of col (extract_sections doc) = Some t ->
  exists content p g,
    reconstruct doc = Ok content
    /\ is_blank content = false
    /\ captures p content g
    /\ t = normalize g
    /\ (MIN_LENGTH < length t)%nat.
Proof.
  unfold extract_sections.
  destruct (reconstruct doc) as [content|]; [ | by destruct col ].
  destruct (is_blank content) eqn:Hblank; [ by destruct col | ].
  destruct (extract_from_content content) as [s|] eqn:Hs; [ | by destruct col ].
  intros Hf.
  assert (exists find patterns,
             (find, patterns) ∈ cascades /\ find content = Ok (Some t))
    as (find & patterns & Hin & Hfind).
  { unfold extract_from_content, extract_with in Hs. unfold cascades.
    destruct (find_abstract content) as [a|] eqn:Ha; [ | discriminate ].
    destruct (find_conclusion content) as [[c|]|] eqn:Hc; [ | | discriminate ].
    - injection Hs as <-. destruct col; cbn in Hf; subst.
      + exists find_abstract, Patterns.abstract_patterns.
        split; [ apply list_elem_of_here | done ].
      + injection Hf as ->. exists find_conclusion, Patterns.conclusion_patterns.
        split; [ apply list_elem_of_further, list_elem_of_here | done ].
    - destruct (find_discussion content) as [d|] eqn:Hd; [ | discriminate ].
      injection Hs as <-. destruct col; cbn in Hf; subst.
      + exists find_abstract, Patterns.abstract_patterns.
        split; [ apply list_elem_of_here | done ].
      + exists find_discussion, Patterns.discussion_patterns.
        split; [ do 2 apply list_elem_of_further; apply list_elem_of_here | done ]. }
  rewrite (cascades_normalize _ _ _ Hin) in Hfind.
  apply cascade_accepted in Hfind as (_ & p & _ & g & _ & _ & Hcap & -> & Hlen).
  by exists content, p, g.
Qed.

(** X1.  Whatever [extract_sections] returns as abstract or conclusion is
    longer than 50 characters and in normal form: its only white space is
    the single space U+0020, never at the start, at the end or twice in a
    row (so it holds no newline), and it is true as a Python value. *)
Theorem extracted_sections_are_normalized (doc : json_doc) (col : column) (t : text) :
  field_of col (extract_sections doc) = Some t ->
  is_normalized t = true
  /\ (50 < length t)%nat
  /\ (forall a, a ∈ t -> is_space a = true -> a = SP)
  /\ truthy (Some t) = true.
Proof.
  intros Hf.
  apply extract_sections_field in Hf as (_ & _ & g & _ & _ & _ & -> & Hlen).
  split; [ apply normalize_is_normalized | ]. split; [ exact Hlen | ]. split.
  - intros a Ha Hs. exact (sub_ws_from_spaces _ _ _ Ha Hs).
  - destruct (normalize g); [ cbn in Hlen; lia | reflexivity ].
Qed.

Lemma extracted_sections_are_normalized_witness :
  field_of ColConclusion
    (extract_sections (JText conclusion_then_references)) = Some conclusion_text
  /\ is_normalized conclusion_text = true.
Proof.
  assert (H : field_of ColConclusion
                (extract_sections (JText conclusion_then_references))
              = Some conclusion_text) by (vm_compute; reflexivity).
  split; [ exact H | ].
  exact (proj1 (extracted_sections_are_normalized _ _ _ H)).
Defined.

(** X2.  The cleaning of a capture ([strip], then [re.sub] of white space
    runs) always gives a text in normal form, on which it changes nothing:
    cleaning twice is cleaning once, and the result is never longer than
    the capture. *)
Theorem normalize_idempotent (g : text) :
  is_normalized (normalize g) = true
  /\ normalize (normalize g) = normalize g
  /\ (length (normalize g) <= length g)%nat.
Proof.
  split; [ apply normalize_is_normalized | ].
  split; [ apply normalize_fixed, normalize_is_normalized | ].
  unfold normalize, strip.
  assert (Hsub : forall p s, (length (sub_ws_from p s) <= length s)%nat).
  { intros p s. revert p. induction s as [|a s IH]; intros p; cbn; [ lia | ].
    pose proof (IH true). pose proof (IH false).
    destruct (is_space a); [ destruct p | ]; cbn; lia. }
  etrans; [ apply Hsub | ].
  destruct (rstrip_prefix (lstrip g)) as (w1 & H1 & _).
  destruct (lstrip_suffix g) as (w2 & H2 & _).
  apply (f_equal length) in H1, H2. rewrite length_app in H1, H2. lia.
Qed.

(** ** Where an extracted section comes from *)

(** The group, once set, is a piece of the subject. *)
Lemma run_capture r : forall s c k x,
  run r s c k = Some x ->
  exists s' c',
    k s' c' = Some x
    /\ (exists y, s = y ++ s')
    /\ (c' = c \/ exists pre g post, s = pre ++ g ++ post /\ c' = Some g).
Proof.
  induction r as [|p|r1 IH1 r2 IH2|r1 IH1 r2 IH2|g p|r1 IH1|r1 IH1|];
    intros s c k x; cbn [run].
  - intros H. exists s, c. split; [ done | ]. split; [ by exists [] | by left ].
  - destruct s as [|a s]; [ done | ]. destruct (p a); [ | done ].
    intros H. exists s, c. split; [ done | ]. split; [ by exists [a] | by left ].
  - intros H. apply IH1 in H as (s1 & c1 & H & [y1 ->] & Hc1).
    apply IH2 in H as (s2 & c2 & H & [y2 ->] & Hc2).
    exists s2, c2. split; [ done | ].
    split; [ exists (y1 ++ y2); by rewrite <- app_assoc | ].
    destruct Hc2 as [->|(pre & g & post & Hs & ->)].
    + destruct Hc1 as [->|(pre & g & post & Hs & ->)]; [ by left | ].
      right. by exists pre, g, post.
    + right. exists (y1 ++ pre), g, post. by rewrite Hs, <- app_assoc.
  - destruct (run r1 s c k) eqn:H1.
    + intros [= <-]. by apply IH1 in H1.
    + intros H. by apply IH2 in H.
  - intros H.
    assert (exists w s', s = w ++ s' /\ k s' c = Some x) as (w & s' & -> & Hk).
    { destruct g.
      - apply many_greedy_sound in H as (w & s' & ? & _ & ?). eauto.
      - apply many_lazy_first in H as (w & s' & ? & _ & ? & _). eauto. }
    exists s', c. split; [ done | ]. split; [ by exists w | by left ].
  - intros H. apply IH1 in H as (s' & c' & H & [y ->] & _).
    eexists s', _. split; [ exact H | ]. split; [ by exists y | ].
    right. exists [], y, s'. split; [ reflexivity | ]. f_equal.
    rewrite length_app.
    replace (length y + length s' - length s')%nat with (length y) by lia.
    by rewrite take_app_length.
  - destruct (run r1 s c accept) as [[s1 c1]|] eqn:H1; [ | done ].
    intros H. apply IH1 in H1 as (s' & c' & [= _ ->] & _ & Hc).
    exists s, c1. split; [ done | ]. split; [ by exists [] | ].
    destruct Hc as [->|?]; [ by left | by right ].
  - destruct s; [ | done ]. intros H. exists [], c.
    split; [ done | ]. split; [ by exists [] | by left ].
Qed.

Lemma captures_substring p content g :
  captures p content g -> exists pre post, content = pre ++ g ++ post.
Proof.
  intros (mo & Hs & Hg).
  apply search_from_sound in Hs as (n & sf & _ & Hrun & _). rewrite Hg in Hrun.
  apply run_capture in Hrun as (s' & c' & [= _ ->] & _ & [?|Hsub]); [ done | ].
  destruct Hsub as (pre & g' & post & Hd & [= <-]).
  exists (take n content ++ pre), post.
  by rewrite <- (take_drop n content) at 1; rewrite Hd, <- app_assoc.
Qed.

(** X3.  An abstract or conclusion returned by [extract_sections] is the
    normalization of one contiguous piece of the text reconstructed from
    the conversion: the extractor takes text from the document and only
    changes its white space. *)
Theorem extracted_section_is_a_piece_of_the_text
  (doc : json_doc) (col : column) (t : text) :
  field_of col (extract_sections doc) = Some t ->
  exists content pre g post,
    reconstruct doc = Ok content
    /\ content = pre ++ g ++ post
    /\ t = normalize g.
Proof.
  intros Hf.
  apply extract_sections_field in Hf as (content & p & g & Hrec & _ & Hcap & -> & _).
  apply captures_substring in Hcap as (pre & post & ->).
  by exists (pre ++ g ++ post), pre, g, post.
Qed.

Lemma extracted_section_is_a_piece_of_the_text_witness :
  field_of ColConclusion
    (extract_sections (JText conclusion_then_references)) = Some conclusion_text
  /\ exists pre g post,
       conclusion_then_references = pre ++ g ++ post
       /\ conclusion_text = normalize g.
Proof.
  assert (H : field_of ColConclusion
                (extract_sections (JText conclusion_then_references))
              = Some conclusion_text) by (vm_compute; reflexivity).
  split; [ exact H | ].
  destruct (extracted_section_is_a_piece_of_the_text _ _ _ H)
    as (content & pre & g & post & [= <-] & Hc & Ht).
  by exists pre, g, post.
Defined.

(** ** Texts without a label *)

Lemma starts_with_spec (p s : text) :
  starts_with p s = true <-> exists post, s = p ++ post.
Proof.
  revert s. induction p as [|a p IH]; intros s; cbn [starts_with].
  - split; [ by exists s | done ].
  - destruct s as [|b s].
    + split; [ done | by intros [? ?] ].
    + rewrite andb_true_iff, N.eqb_eq, IH. split.
      * intros [-> [post ->]]. by exists post.
      * intros [post [= -> ->]]. eauto.
Qed.

Lemma contains_spec (p s : text) :
  contains p s = true <-> exists pre post, s = pre ++ p ++ post.
Proof.
  induction s as [|b s IH]; cbn [contains]; rewrite orb_true_iff, starts_with_spec.
  - split.
    + intros [[post H]|?]; [ by exists [], post | done ].
    + intros (pre & post & H). left. destruct pre; [ by exists post | done ].
  - rewrite IH. split.
    + intros [[post H]|(pre & post & ->)]; [ by exists [], post | ].
      by exists (b :: pre), post.
    + intros (pre & post & H). destruct pre as [|c pre].
      * left. by exists post.
      * right. injection H as -> ->. by exists pre, post.
Qed.

(** With IGNORECASE a word matches only texts that equal it up to
    case. *)
Lemma lit_ignorecase_inv w s s' :
  matches (lit true w) s s' ->
  exists u, s = u ++ s' /\ lowercase u = lowercase (txt w).
Proof.
  unfold lit. generalize (txt w) as l. intros l. revert s.
  induction l as [|a l IH]; intros s; cbn [fold_right].
  - intros H. apply matches_eps in H as ->. by exists [].
  - intros H. apply matches_cat in H as (s1 & Ha & Hl).
    apply matches_cls in Ha as (x & -> & Hx). apply N.eqb_eq in Hx.
    destruct (IH _ Hl) as (u & -> & Hu).
    exists (x :: u). split; [ reflexivity | ].
    unfold lowercase in *. cbn [List.map]. by rewrite Hx, Hu.
Qed.

Lemma lowercase_app (a b : text) : lowercase (a ++ b) = lowercase a ++ lowercase b.
Proof. apply map_app. Qed.

(** A pattern that starts with a word, or with anything and then the
    word, matches only where the word occurs. *)
Lemma word_first W r s s' :
  matches (Cat (Patterns.word W) r) s s' ->
  contains (lowercase (txt W)) (lowercase s) = true.
Proof.
  intros H. apply matches_cat in H as (s1 & Hw & _).
  apply lit_ignorecase_inv in Hw as (u & -> & Hu).
  apply contains_spec. exists [], (lowercase s1).
  by rewrite lowercase_app, Hu.
Qed.

Lemma word_second r0 W r s s' :
  matches (Cat r0 (Cat (Patterns.word W) r)) s s' ->
  contains (lowercase (txt W)) (lowercase s) = true.
Proof.
  intros H. apply matches_cat in H as (s0 & H0 & H).
  apply matches_suffix in H0 as [y ->].
  apply word_first, contains_spec in H as (pre & post & Hs).
  apply contains_spec. exists (lowercase y ++ pre), post.
  by rewrite lowercase_app, Hs, <- app_assoc.
Qed.

(** Every occurrence of a text is an occurrence of what it starts
    with. *)
Lemma contains_start (label needle s : text) :
  starts_with label needle = true ->
  contains needle s = true -> contains label s = true.
Proof.
  rewrite starts_with_spec, !contains_spec.
  intros [rest ->] (pre & post & ->). exists pre, (rest ++ post).
  by rewrite <- app_assoc.
Qed.

Ltac solve_mentions :=
  intros s s' Hm;
  first [ apply word_first in Hm | apply word_second in Hm ];
  first
    [ exists (txt "abstract"); split;
      [ rewrite !elem_of_cons; tauto
      | eapply contains_start; [ | exact Hm ]; vm_compute; reflexivity ]
    | exists (txt "conclusion"); split;
      [ rewrite !elem_of_cons; tauto
      | eapply contains_start; [ | exact Hm ]; vm_compute; reflexivity ]
    | exists (txt "concluding remarks"); split;
      [ rewrite !elem_of_cons; tauto
      | eapply contains_start; [ | exact Hm ]; vm_compute; reflexivity ]
    | exists (txt "discussion"); split;
      [ rewrite !elem_of_cons; tauto
      | eapply contains_start; [ | exact Hm ]; vm_compute; reflexivity ] ].

Lemma abstract_patterns_mention :
  Forall (mentions [txt "abstract"]) Patterns.abstract_patterns.
Proof. repeat (constructor; [ solve_mentions | ]). constructor. Qed.

Lemma conclusion_patterns_mention :
  Forall (mentions [txt "conclusion"; txt "concluding remarks"])
         Patterns.conclusion_patterns.
Proof. repeat (constructor; [ solve_mentions | ]). constructor. Qed.

Lemma discussion_patterns_mention :
  Forall (mentions [txt "discussion"]) Patterns.discussion_patterns.
Proof. repeat (constructor; [ solve_mentions | ]). constructor. Qed.

Lemma contains_suffix (label y s : text) :
  contains label s = true -> contains label (y ++ s) = true.
Proof.
  rewrite !contains_spec. intros (pre & post & ->).
  exists (y ++ pre), post. by rewrite <- app_assoc.
Qed.

(** Without any of the labels in the content, no pattern of the list
    matches and the cascade accepts nothing. *)
Lemma cascade_without_label clean labels patterns content :
  Forall (mentions labels) patterns ->
  (forall label, label ∈ labels -> contains label (lowercase content) = false) ->
  cascade clean patterns content = Ok None.
Proof.
  intros Hall Hnone. apply cascade_nothing.
  eapply Forall_impl; [ exact Hall | ].
  intros p Hp. unfold passed_over.
  destruct (search p content) as [mo|] eqn:Hs; [ exfalso | done ].
  apply search_from_sound in Hs as (n & sf & _ & Hrun & _).
  apply run_sound in Hrun as (s' & _ & Hm & _).
  destruct (Hp _ _ Hm) as (label & Hin & Hc).
  apply (contains_suffix _ (lowercase (take n content))) in Hc.
  rewrite <- lowercase_app, take_drop in Hc.
  rewrite (Hnone label Hin) in Hc. discriminate.
Qed.

Lemma ascii_only_check (t : text) :
  forallb (fun c => c <? 128) t = true -> ascii_only t.
Proof.
  unfold ascii_only. induction t as [|a t IH]; cbn [forallb]; [ constructor | ].
  rewrite andb_true_iff, N.ltb_lt. intros [? ?]. constructor; auto.
Qed.

(** X4.  A section needs its label.  When the reconstructed content, a
    text of ASCII characters, does not contain the word abstract, in any
    case, the abstract is null; when it contains none of conclusion,
    concluding remarks and discussion, the conclusion is null. *)
Theorem no_label_no_section (doc : json_doc) (content : text) :
  reconstruct doc = Ok content ->
  ascii_only content ->
  (contains (txt "abstract") (lowercase content) = false ->
   abstract (extract_sections doc) = None)
  /\ (contains (txt "conclusion") (lowercase content) = false ->
      contains (txt "concluding remarks") (lowercase content) = false ->
      contains (txt "discussion") (lowercase content) = false ->
      conclusion (extract_sections doc) = None).
Proof.
  intros Hrec _. unfold extract_sections. rewrite Hrec.
  destruct (is_blank content); [ done | ].
  unfold extract_from_content, extract_with. split.
  - intros Hno.
    assert (Ha : find_abstract content = Ok None).
    { apply (cascade_without_label _ [txt "abstract"]);
        [ apply abstract_patterns_mention | ].
      intros label Hl. apply list_elem_of_singleton in Hl. by subst. }
    rewrite Ha.
    destruct (find_conclusion content) as [[c|]|]; [ done | | done ].
    by destruct (find_discussion content).
  - intros Hc Hr Hd.
    assert (Hfc : find_conclusion content = Ok None).
    { apply (cascade_without_label _ [txt "conclusion"; txt "concluding remarks"]);
        [ apply conclusion_patterns_mention | ].
      intros label Hl. rewrite !elem_of_cons, elem_of_nil in Hl.
      destruct Hl as [->|[->|[]]]; assumption. }
    assert (Hfd : find_discussion content = Ok None).
    { apply (cascade_without_label _ [txt "discussion"]);
        [ apply discussion_patterns_mention | ].
      intros label Hl. apply list_elem_of_singleton in Hl. by subst. }
    rewrite Hfc, Hfd. by destruct (find_abstract content).
Qed.

Lemma no_label_no_section_witness :
  reconstruct (JText only_discussion) = Ok only_discussion
  /\ ascii_only only_discussion
  /\ contains (txt "abstract") (lowercase only_discussion) = false
  /\ abstract (extract_sections (JText only_discussion)) = None.
Proof.
  assert (Hrec : reconstruct (JText only_discussion) = Ok only_discussion)
    by reflexivity.
  assert (Hascii : ascii_only only_discussion)
    by (apply ascii_only_check; vm_compute; reflexivity).
  assert (Hno : contains (txt "abstract") (lowercase only_discussion) = false)
    by (vm_compute; reflexivity).
  split; [ exact Hrec | ]. split; [ exact Hascii | ]. split; [ exact Hno | ].
  exact (proj1 (no_label_no_section _ _ Hrec Hascii) Hno).
Defined.

(** ** Conversions without text *)

Lemma lstrip_blank (s : text) :
  Forall (fun a => is_space a = true) s -> lstrip s = [].
Proof. induction 1 as [|a s Ha _ IH]; cbn; [ done | by rewrite Ha ]. Qed.

Lemma strip_blank (s : text) :
  Forall (fun a => is_space a = true) s -> strip s = [].
Proof. intros H. unfold strip. by rewrite lstrip_blank. Qed.

Lemma join_texts_blank texts :
  Forall blank_element texts ->
  Forall (fun a => is_space a = true) (join_texts texts).
Proof.
  induction 1 as [|[t|] texts Ht _ IH]; cbn [join_texts]; [ constructor | | exact IH ].
  cbn in Ht. rewrite Ht. cbn. by repeat constructor.
Qed.

(** X5.  A conversion without any non-blank text (no element of 'texts'
    has a text that is not white space, or the string is blank, or the
    JSON value has none of the expected forms) gives the null result:
    [extract_sections] returns before it tries any pattern. *)
Theorem blank_conversion_has_no_sections (doc : json_doc) :
  blank_doc doc ->
  extract_sections doc = no_sections
  /\ (forall content, reconstruct doc = Ok content -> is_blank content = true).
Proof.
  intros Hblank.
  assert (Hc : forall content, reconstruct doc = Ok content -> is_blank content = true).
  { intros content Hrec. unfold is_blank.
    destruct doc as [texts|s|s|]; cbn in Hrec, Hblank.
    - injection Hrec as <-. by rewrite strip_blank by by apply join_texts_blank.
    - destruct (contains _ s); [ discriminate | ]. injection Hrec as <-.
      by rewrite Hblank.
    - injection Hrec as <-. by rewrite Hblank.
    - by injection Hrec as <-. }
  split; [ | exact Hc ].
  unfold extract_sections. destruct (reconstruct doc) as [content|]; [ | done ].
  by rewrite (Hc content eq_refl).
Qed.

Lemma blank_conversion_has_no_sections_witness :
  blank_doc (JTexts [None; Some [SP; NL]; Some []])
  /\ extract_sections (JTexts [None; Some [SP; NL]; Some []]) = no_sections.
Proof.
  assert (H : blank_doc (JTexts [None; Some [SP; NL]; Some []])).
  { cbn. repeat constructor. }
  split; [ exact H | ].
  exact (proj1 (blank_conversion_has_no_sections _ H)).
Defined.

(** ** Repeating the persist step *)

(** X6.  Writing the same extraction result a second time changes
    nothing: for an id with a row, the table after two calls of
    [update_database_with_sections] is the table after one, and the second
    call returns what the first returned. *)
Theorem update_is_idempotent (id : string) (s : sections) (t : table) :
  is_Some (t !! id) ->
  let first := update_database_with_sections id s t in
  let second := update_database_with_sections id s (db_after first) in
  db_after second = db_after first
  /\ returned second = returned first
  /\ executed second = executed first.
Proof.
  intros [current Hcur] first second. subst first second.
  pose proof (update_found id s t current Hcur) as H1. cbv zeta in H1.
  destruct s as [[a|] [v|]]; cbn [abstract conclusion merged] in H1; rewrite H1;
    cbn [db_after returned executed].
  4: { by rewrite H1. }
  all: match goal with
       | |- context [update_database_with_sections ?i ?s (<[?i := ?r]> ?t0)] =>
           pose proof (update_found i s (<[i := r]> t0) r (lookup_insert_eq _ _ _)) as H2
       end;
       cbv zeta in H2; cbn [abstract conclusion merged row_title row_authors
                             row_pdf_url row_abstract row_conclusion] in H2;
       rewrite H2; cbn [db_after returned executed];
       by rewrite insert_insert_eq.
Qed.

Lemma update_is_idempotent_witness :
  is_Some (db_with_abstract !! "d1"%string)
  /\ db_after (update_database_with_sections "d1"
                 {| abstract := None; conclusion := Some (txt "X") |}
                 (db_after (update_database_with_sections "d1"
                              {| abstract := None; conclusion := Some (txt "X") |}
                              db_with_abstract)))
     = db_after (update_database_with_sections "d1"
                   {| abstract := None; conclusion := Some (txt "X") |}
                   db_with_abstract).
Proof.
  assert (H : is_Some (db_with_abstract !! "d1"%string)) by (eexists; reflexivity).
  split; [ exact H | ].
  exact (proj1 (update_is_idempotent "d1"
                  {| abstract := None; conclusion := Some (txt "X") |} _ H)).
Defined.

(** ** A run of [main] as a whole *)

Section Whole.
Variable files : gmap string json_doc.
Variable loaded : cache.

Lemma enrich_idempotent s r : enrich s (enrich s r) = enrich s r.
Proof. unfold enrich. cbn. by destruct (abstract s), (conclusion s). Qed.

Lemma newly_recorded_truthy (t : table) d s :
  newly_recorded files loaded t d = Some s ->
  loaded !! d = None
  /\ is_Some (t !! d)
  /\ (exists doc, files !! d = Some doc /\ s = extract_sections doc)
  /\ truthy (abstract s) || truthy (conclusion s) = true.
Proof.
  unfold newly_recorded.
  destruct (loaded !! d); [ done | ]. destruct (t !! d); [ | done ].
  destruct (files !! d) as [doc|]; [ | done ]. cbv zeta.
  destruct (truthy _ || truthy _) eqn:Ht; [ | done ].
  intros [= <-]. eauto 10.
Qed.

(** One iteration, by what the run records for the id. *)
Lemma process_step st d :
  match newly_recorded files loaded (ls_db st) d with
  | Some s =>
      ls_db (process files loaded st d) = alter (enrich s) d (ls_db st)
      /\ successful_updates (process files loaded st d) = S (successful_updates st)
      /\ skipped (process files loaded st d) = skipped st
      /\ failed (process files loaded st d) = failed st
  | None =>
      ls_db (process files loaded st d) = ls_db st
      /\ successful_updates (process files loaded st d) = successful_updates st
      /\ (skipped (process files loaded st d) + failed (process files loaded st d)
          = S (skipped st + failed st))%nat
      /\ forall e, e ∈ events (process files loaded st d) ->
                   is_update e -> e ∈ events st
  end.
Proof.
  unfold process, newly_recorded.
  destruct (files !! d) as [doc|] eqn:Hfile.
  2: { destruct (loaded !! d), (ls_db st !! d); cbn; repeat split; try lia;
       intros e He Hu; apply elem_of_app in He as [?|He]; try done;
       apply list_elem_of_singleton in He; by subst. }
  case_bool_decide as Hd.
  { destruct Hd as [s0 Hs0]. rewrite Hs0. cbn. repeat split; try lia.
    intros e He Hu. apply elem_of_app in He as [?|He]; [ done | ].
    apply list_elem_of_singleton in He. by subst. }
  destruct (loaded !! d) eqn:Hl; [ exfalso; eauto | ].
  destruct (ls_db st !! d) as [current|] eqn:Hrow; cbv zeta.
  - destruct (truthy _ || truthy _) eqn:Htruthy.
    + rewrite update_succeeds by eauto. cbn. repeat split.
      pose proof (update_found d (extract_sections doc) (ls_db st) current Hrow) as H.
      cbv zeta in H. apply map_eq. intros j.
      destruct (extract_sections doc) as [[a|] [v|]];
        cbn [abstract conclusion truthy orb] in *; try discriminate;
        rewrite H; cbn [db_after];
        (destruct (decide (d = j)) as [<-|Hne];
         [ by rewrite lookup_insert_eq, lookup_alter_eq, Hrow
         | by rewrite lookup_insert_ne, lookup_alter_ne ]).
    + cbn. repeat split; try lia.
      intros e He Hu. apply elem_of_app in He as [?|He]; [ done | ].
      rewrite elem_of_cons, list_elem_of_singleton in He. by destruct He; subst.
  - destruct (truthy _ || truthy _) eqn:Htruthy.
    + rewrite (update_not_found _ _ _ Hrow). cbn. repeat split; try lia.
      intros e He Hu. apply elem_of_app in He as [?|He]; [ done | ].
      rewrite elem_of_cons, list_elem_of_singleton in He. by destruct He; subst.
    + cbn. repeat split; try lia.
      intros e He Hu. apply elem_of_app in He as [?|He]; [ done | ].
      rewrite elem_of_cons, list_elem_of_singleton in He. by destruct He; subst.
Qed.

(** The table after the loop. *)
Lemma run_rows l st id :
  ls_db (foldl (process files loaded) st l) !! id
  = if bool_decide (id ∈ l)
    then match newly_recorded files loaded (ls_db st) id with
         | Some s => enrich s <$> ls_db st !! id
         | None => ls_db st !! id
         end
    else ls_db st !! id.
Proof.
  induction l as [|d l IH] using rev_ind.
  - cbn. by rewrite bool_decide_eq_false_2 by apply not_elem_of_nil.
  - rewrite foldl_app. cbn [foldl].
    pose proof (process_step (foldl (process files loaded) st l) d) as Hstep.
    rewrite (newly_recorded_rows files loaded _ (ls_db st) d) in Hstep
      by apply run_keeps_ids.
    destruct (decide (id = d)) as [->|Hne].
    + rewrite (bool_decide_eq_true_2 (d ∈ l ++ [d]))
        by (rewrite elem_of_app, list_elem_of_singleton; auto).
      destruct (newly_recorded files loaded (ls_db st) d) as [s|] eqn:Hnew.
      * destruct Hstep as (-> & _). rewrite lookup_alter_eq, IH.
        case_bool_decide; [ | reflexivity ].
        destruct (ls_db st !! d); cbn; [ | reflexivity ]. by rewrite enrich_idempotent.
      * destruct Hstep as (-> & _). rewrite IH. by case_bool_decide.
    + assert (id ∈ l ++ [d] <-> id ∈ l) as Hiff.
      { rewrite elem_of_app, list_elem_of_singleton. tauto. }
      rewrite (bool_decide_ext _ _ Hiff).
      destruct (newly_recorded files loaded (ls_db st) d);
        destruct Hstep as (-> & _); rewrite ?lookup_alter_ne by done; apply IH.
Qed.

(** The counters after the loop. *)
Lemma run_tally l st :
  let st' := foldl (process files loaded) st l in
  (successful_updates st' + skipped st' + failed st'
   = successful_updates st + skipped st + failed st + length l)%nat
  /\ successful_updates st'
     = (successful_updates st
        + length (filter (fun d => is_Some (newly_recorded files loaded (ls_db st) d)) l))%nat.
Proof.
  cbv zeta. induction l as [|d l IH] using rev_ind.
  - cbn. split; lia.
  - rewrite foldl_app, filter_app, !length_app. cbn [foldl length].
    pose proof (process_step (foldl (process files loaded) st l) d) as Hstep.
    rewrite (newly_recorded_rows files loaded _ (ls_db st) d) in Hstep
      by apply run_keeps_ids.
    rewrite filter_cons, filter_nil.
    destruct (newly_recorded files loaded (ls_db st) d) as [s|] eqn:Hnew.
    + destruct Hstep as (_ & -> & -> & ->).
      rewrite decide_True by eauto. cbn [length]. split; lia.
    + destruct Hstep as (_ & -> & Hsf & _).
      rewrite decide_False by (intros [? ?]; discriminate). cbn [length].
      split; lia.
Qed.

(** When the run records nothing for any document, it writes nothing. *)
Lemma run_without_updates l st :
  (forall d, newly_recorded files loaded (ls_db st) d = None) ->
  forall e, e ∈ events (foldl (process files loaded) st l) -> is_update e ->
            e ∈ events st.
Proof.
  intros Hnone. induction l as [|d l IH] using rev_ind; [ done | ].
  rewrite foldl_app. cbn [foldl]. intros e He Hu.
  pose proof (process_step (foldl (process files loaded) st l) d) as Hstep.
  rewrite (newly_recorded_rows files loaded _ (ls_db st) d), Hnone in Hstep
    by apply run_keeps_ids.
  destruct Hstep as (_ & _ & _ & Hev). apply IH; [ | done ]. by apply Hev.
Qed.

Lemma run_extracts l st id :
  Extracted id ∈ events (foldl (process files loaded) st l)
  <-> Extracted id ∈ events st
      \/ (id ∈ l /\ is_Some (files !! id) /\ loaded !! id = None).
Proof.
  induction l as [|d l IH] using rev_ind.
  - cbn. rewrite elem_of_nil. tauto.
  - rewrite foldl_app. cbn [foldl].
    assert (Hstep : Extracted id ∈ events
                      (process files loaded (foldl (process files loaded) st l) d)
                    <-> Extracted id ∈ events (foldl (process files loaded) st l)
                        \/ (id = d /\ is_Some (files !! d) /\ loaded !! d = None)).
    { generalize (foldl (process files loaded) st l) as st0. intros st0.
      unfold process.
      destruct (files !! d) as [doc|] eqn:Hfile.
      - case_bool_decide as Hd.
        + cbn. rewrite elem_of_app, list_elem_of_singleton.
          destruct Hd as [? Hd]. rewrite Hd. split; [ intros [?|?]; [ auto | done ] | ].
          intros [?|(_ & _ & ?)]; [ auto | done ].
        + assert (Hl : loaded !! d = None).
          { destruct (loaded !! d) eqn:E; [ exfalso; eauto | done ]. }
          assert (Hgen : forall evs k,
                     Extracted id ∈ events st0 ++ (Extracted d :: evs) ++ [Counted k d]
                     <-> Extracted id ∈ events st0
                         \/ (id = d /\ is_Some (Some doc) /\ loaded !! d = None)
                         \/ Extracted id ∈ evs).
          { intros evs k. rewrite !elem_of_app, elem_of_cons, list_elem_of_singleton.
            split.
            - intros [?|[[[= ->]|?]|?]]; [ auto | | auto | done ]. right. left. eauto.
            - intros [?|[(-> & _)|?]]; auto. }
          destruct (truthy _ || truthy _).
          * assert (Hupd : forall c, ~ Extracted id ∈ update_events d c).
            { intros c. unfold update_events. destruct (executed c).
              - rewrite list_elem_of_singleton. discriminate.
              - apply not_elem_of_nil. }
            destruct (returned _) as [[|]|]; cbn [events count_successful count_failed];
              rewrite Hgen;
              (split;
               [ intros [?|[?|Hin]]; [ auto | auto | by apply Hupd in Hin ]
               | intros [?|?]; auto ]).
          * cbn [events count_failed]. rewrite (Hgen [] Failed).
            rewrite elem_of_nil. tauto.
      - cbn. rewrite elem_of_app, list_elem_of_singleton.
        split; [ intros [?|?]; [ auto | done ] | ].
        intros [?|(_ & [? ?] & _)]; [ auto | done ]. }
    rewrite Hstep, IH, elem_of_app, list_elem_of_singleton.
    split.
    + intros [[?|(? & ? & ?)]|(-> & ? & ?)]; auto.
    + intros [?|([?| ->] & ? & ?)]; auto.
Qed.

End Whole.

Lemma filter_ext_elem {A} (P Q : A -> Prop) `{forall x, Decision (P x)}
  `{forall x, Decision (Q x)} (l : list A) :
  (forall x, x ∈ l -> P x <-> Q x) -> filter P l = filter Q l.
Proof.
  induction l as [|x l IH]; intros Hext; [ done | ].
  rewrite !filter_cons.
  rewrite IH by (intros y Hy; apply Hext; by right).
  pose proof (Hext x (list_elem_of_here _ _)) as Hx.
  destruct (decide (P x)), (decide (Q x)); tauto.
Qed.

(** The number of keys of a map, counted along a list that has each of
    them once. *)
Lemma size_along {A} (l : list string) (m : gmap string A) :
  NoDup l -> (forall k, is_Some (m !! k) -> k ∈ l) ->
  size m = length (filter (fun k => is_Some (m !! k)) l).
Proof.
  intros Hnd. revert m. induction Hnd as [|x l Hx Hnd IH]; intros m Hkeys.
  - rewrite filter_nil. cbn. apply map_size_empty_iff, map_eq. intros k.
    rewrite lookup_empty. destruct (m !! k) eqn:E; [ | done ].
    exfalso. eapply not_elem_of_nil, Hkeys. eauto.
  - rewrite filter_cons.
    assert (Hrest : filter (fun k => is_Some (m !! k)) l
                    = filter (fun k => is_Some (delete x m !! k)) l).
    { apply filter_ext_elem. intros k Hk.
      rewrite lookup_delete_ne; [ done | ]. intros ->. contradiction. }
    assert (Hdel : forall k, is_Some (delete x m !! k) -> k ∈ l).
    { intros k Hk. destruct (decide (x = k)) as [->|Hne].
      - rewrite lookup_delete_eq in Hk. by destruct Hk.
      - rewrite lookup_delete_ne in Hk by done.
        apply Hkeys, elem_of_cons in Hk as [->|?]; done. }
    pose proof (IH _ Hdel) as Hsz. rewrite Hrest.
    destruct (m !! x) as [a|] eqn:E.
    + rewrite decide_True by eauto. cbn [length]. rewrite <- Hsz.
      rewrite (map_size_delete_Some x m) by eauto.
      assert (size m <> 0)%nat by (apply map_size_ne_0_lookup; eauto). lia.
    + rewrite decide_False by (intros [? ?]; discriminate). rewrite <- Hsz.
      by rewrite (map_size_delete_None x m).
Qed.

Lemma filter_none {A} (P : A -> Prop) `{forall x, Decision (P x)} (l : list A) :
  (forall x, ~ P x) -> filter P l = [].
Proof.
  intros Hno. induction l as [|x l IH]; [ done | ].
  rewrite filter_cons, decide_False by apply Hno. exact IH.
Qed.

Lemma select_ids_length (t : table) : length (select_ids t) = size t.
Proof. unfold select_ids. by rewrite length_fmap, length_map_to_list. Qed.

Lemma select_ids_NoDup (t : table) : NoDup (select_ids t).
Proof. apply NoDup_fst_map_to_list. Qed.

(** The cache that the loop leaves, as a map. *)
Lemma run_loop_cache w :
  extracted_sections (run_loop w (select_ids (db w)))
  = default ∅ (sections_json w) ∪ new_results w
  /\ default ∅ (sections_json w) ##ₘ new_results w.
Proof.
  split.
  - apply map_eq. intros id. unfold run_loop.
    rewrite run_extracted by reflexivity.
    rewrite lookup_union, new_results_lookup. cbn [ls_db start_state].
    destruct (default ∅ (sections_json w) !! id) as [s|] eqn:Hl.
    + by destruct (newly_recorded _ _ _ _).
    + case_bool_decide as Hin.
      * by destruct (newly_recorded _ _ _ _).
      * unfold newly_recorded. rewrite Hl.
        rewrite select_ids_spec in Hin.
        destruct (db w !! id); [ exfalso; eauto | done ].
  - apply map_disjoint_spec. intros id s1 s2 H1 H2.
    rewrite new_results_lookup in H2.
    apply newly_recorded_truthy in H2 as (Hnone & _). congruence.
Qed.

(** After a run, nothing is left for a second run to record. *)
Lemma run_loop_settled w d :
  let st := run_loop w (select_ids (db w)) in
  newly_recorded (conversions w) (extracted_sections st) (ls_db st) d = None.
Proof.
  cbv zeta. unfold newly_recorded at 1.
  destruct (extracted_sections _ !! d) as [s|] eqn:Hext; [ done | ].
  destruct (ls_db _ !! d) as [r|] eqn:Hrow; [ | done ].
  destruct (conversions w !! d) as [doc|] eqn:Hfile; [ | done ].
  cbv zeta. unfold run_loop in Hext, Hrow.
  rewrite run_extracted in Hext by reflexivity.
  assert (Hid : is_Some (db w !! d)).
  { apply (run_keeps_ids (conversions w) (default ∅ (sections_json w))
             (select_ids (db w)) (start_state w (default ∅ (sections_json w))) d).
    eauto. }
  destruct (default ∅ (sections_json w) !! d) eqn:Hl; [ done | ].
  rewrite bool_decide_eq_true_2 in Hext by by apply select_ids_spec.
  unfold newly_recorded in Hext. cbn [ls_db start_state] in Hext.
  rewrite Hl, Hfile in Hext. destruct Hid as [r0 Hr0]. rewrite Hr0 in Hext.
  cbv zeta in Hext. by destruct (truthy _ || truthy _).
Qed.

Lemma run_loop_rows w id :
  ls_db (run_loop w (select_ids (db w))) !! id = row_after_run w id <$> db w !! id.
Proof.
  unfold run_loop. rewrite run_rows. cbn [ls_db start_state].
  unfold row_after_run. case_bool_decide as Hin.
  - destruct (newly_recorded _ _ _ _); [ done | ]. by destruct (db w !! id).
  - rewrite select_ids_spec in Hin.
    destruct (db w !! id); [ exfalso; eauto | ]. by destruct (newly_recorded _ _ _ _).
Qed.

(** The world after [main], whether or not the table is empty. *)
Lemma main_world w :
  db (main w).1 = ls_db (run_loop w (select_ids (db w)))
  /\ conversions (main w).1 = conversions w
  /\ (db w <> ∅ ->
      sections_json (main w).1
      = Some (extracted_sections (run_loop w (select_ids (db w))))).
Proof.
  destruct (main_cases w) as [[Hempty ->]|[Hne ->]]; cbn.
  - split; [ | done ]. unfold run_loop.
    replace (select_ids (db w)) with (@nil string) by (symmetry; by apply select_ids_nil).
    reflexivity.
  - done.
Qed.

(** X7.  The three counters of a run of [main] account for every row of
    [full_documents] exactly once: successful_updates + skipped + failed is
    the number of rows.  [successful_updates] is the number of results the
    run records, and the cache file grows by exactly that many entries. *)
Theorem counters_account_for_every_document (w w' : world) (st : loop_state) :
  main w = (w', Some st) ->
  (successful_updates st + skipped st + failed st = size (db w))%nat
  /\ successful_updates st = size (new_results w)
  /\ size (extracted_sections st)
     = (size (default ∅ (sections_json w)) + successful_updates st)%nat.
Proof.
  intros Hmain. apply main_runs_loop in Hmain as [-> _].
  destruct (run_loop_cache w) as [Hcache Hdisj].
  pose proof (run_tally (conversions w) (default ∅ (sections_json w))
                (select_ids (db w)) (start_state w (default ∅ (sections_json w))))
    as Htally.
  cbv zeta in Htally. cbn [start_state successful_updates skipped failed ls_db] in Htally.
  destruct Htally as [Hsum Hsucc]. fold (run_loop w (select_ids (db w))) in Hsum, Hsucc.
  assert (Hsize : successful_updates (run_loop w (select_ids (db w)))
                  = size (new_results w)).
  { rewrite Hsucc. cbn.
    rewrite (size_along (select_ids (db w)) (new_results w)).
    - f_equal. apply list_filter_iff. intros d. by rewrite new_results_lookup.
    - apply select_ids_NoDup.
    - intros k Hk. rewrite new_results_lookup in Hk. destruct Hk as [s Hs].
      apply newly_recorded_truthy in Hs as (_ & Hrow & _).
      by apply select_ids_spec. }
  split; [ | split ].
  - rewrite Hsum, select_ids_length. lia.
  - exact Hsize.
  - rewrite Hcache, (map_size_disj_union _ _ Hdisj), Hsize. reflexivity.
Qed.

Lemma counters_account_for_every_document_witness :
  exists w' st,
    main world_cached_with_file = (w', Some st)
    /\ (successful_updates st + skipped st + failed st
        = size (db world_cached_with_file))%nat.
Proof.
  destruct (main_cases world_cached_with_file) as [[Hempty _]|[_ Hmain]].
  - exfalso. apply (f_equal (fun t => t !! "d1"%string)) in Hempty.
    vm_compute in Hempty. discriminate.
  - eexists _, _. split; [ exact Hmain | ].
    exact (proj1 (counters_account_for_every_document _ _ _ Hmain)).
Defined.

(** X8.  Running [main] again changes nothing: a second run over the world
    the first one left (same conversion files) leaves the same table and
    writes the same cache file. *)
Theorem main_is_idempotent (w : world) :
  (main (main w).1).1 = (main w).1.
Proof.
  destruct (main_cases w) as [[Hempty Hmain]|[Hne Hmain]].
  { rewrite Hmain. cbn [fst]. by rewrite Hmain. }
  rewrite Hmain. cbn [fst].
  set (st := run_loop w (select_ids (db w))).
  set (w1 := {| db := ls_db st; conversions := conversions w;
                sections_json := Some (extracted_sections st) |}).
  assert (Hne1 : db w1 <> ∅).
  { cbn. intros Hempty. apply Hne, map_eq. intros id. rewrite lookup_empty.
    destruct (db w !! id) as [r0|] eqn:E; [ | done ].
    assert (is_Some (ls_db st !! id)) as [r1 Hr]
      by (unfold st, run_loop; apply run_keeps_ids; cbn; eauto).
    rewrite Hempty, lookup_empty in Hr. discriminate. }
  destruct (main_cases w1) as [[Hempty _]|[_ ->]]; [ done | ]. cbn [fst].
  unfold w1 at 2. f_equal.
  - apply map_eq. intros id. unfold run_loop, w1. rewrite run_rows.
    cbn [ls_db start_state db conversions sections_json default].
    unfold Datatypes.id.
    pose proof (run_loop_settled w id) as Hs. cbv zeta in Hs. fold st in Hs.
    rewrite Hs. by case_bool_decide.
  - f_equal. apply map_eq. intros id. unfold run_loop, w1.
    rewrite run_extracted by reflexivity.
    cbn [ls_db start_state db conversions sections_json default].
    unfold Datatypes.id.
    pose proof (run_loop_settled w id) as Hs. cbv zeta in Hs. fold st in Hs.
    rewrite Hs. destruct (extracted_sections st !! id); [ done | ].
    by case_bool_decide.
Qed.

(** X9.  A second run of [main] executes no UPDATE and counts no success;
    but it calls [extract_sections] again on every document that has a
    conversion file and is not in the cache file, that is on every document
    whose extraction failed before: failures are not cached. *)
Theorem second_run_only_retries_failures (w w1 w2 : world) (st1 st2 : loop_state) :
  main w = (w1, Some st1) ->
  main w1 = (w2, Some st2) ->
  (forall e, e ∈ events st2 -> ~ is_update e)
  /\ successful_updates st2 = 0%nat
  /\ (forall id, Extracted id ∈ events st2
                 <-> is_Some (db w !! id) /\ is_Some (conversions w !! id)
                     /\ extracted_sections st1 !! id = None).
Proof.
  intros H1 H2.
  apply main_runs_loop in H1 as [-> ->].
  apply main_runs_loop in H2 as [-> _].
  set (st := run_loop w (select_ids (db w))).
  unfold run_loop at 1 2 3. cbn [db conversions sections_json default].
  unfold Datatypes.id.
  pose proof (run_loop_settled w) as Hs. cbv zeta in Hs. fold st in Hs.
  split; [ | split ].
  - intros e He Hu.
    apply (run_without_updates (conversions w) (extracted_sections st)) in He;
      [ | exact Hs | exact Hu ].
    cbn in He. by apply elem_of_nil in He.
  - pose proof (run_tally (conversions w) (extracted_sections st) (select_ids (ls_db st))
                  (start_state
                     {| db := ls_db st; conversions := conversions w;
                        sections_json := Some (extracted_sections st) |}
                     (extracted_sections st))) as [_ Hsucc].
    rewrite Hsucc. cbn [start_state successful_updates ls_db db].
    rewrite filter_none; [ reflexivity | ].
    intros d [s Hd]. rewrite Hs in Hd. discriminate.
  - intros id. rewrite run_extracts. cbn [events start_state].
    rewrite elem_of_nil, select_ids_spec.
    assert (is_Some (ls_db st !! id) <-> is_Some (db w !! id)) as ->
      by (unfold st, run_loop; apply run_keeps_ids).
    tauto.
Qed.

Lemma second_run_only_retries_failures_witness :
  exists w1 w2 st1 st2,
    main world_sectionless = (w1, Some st1)
    /\ main w1 = (w2, Some st2)
    /\ successful_updates st2 = 0%nat.
Proof.
  assert (Hmain : forall w, db w !! "d1"%string <> None ->
                            exists w' st, main w = (w', Some st)).
  { intros w Hrow. destruct (main_cases w) as [[Hempty _]|[_ Hmain]]; [ | eauto ].
    rewrite Hempty in Hrow. by rewrite lookup_empty in Hrow. }
  destruct (Hmain world_sectionless) as (w1 & st1 & H1); [ by vm_compute | ].
  destruct (Hmain w1) as (w2 & st2 & H2).
  { pose proof (main_runs_loop _ _ _ H1) as [-> ->]. by vm_compute. }
  exists w1, w2, st1, st2. split; [ exact H1 | split; [ exact H2 | ] ].
  exact (proj1 (proj2 (second_run_only_retries_failures _ _ _ _ _ H1 H2))).
Defined.

(** X10.  What a run of [main] does to the table, row by row: the ids are
    the same; title, authors and pdf_url of every row are kept; a column
    abstract or conclusion takes the extracted value when the run records a
    result with that field, and keeps its old value otherwise.  So a run
    never turns a non-null abstract or conclusion into NULL. *)
Theorem run_only_fills_in_sections (w : world) (id : string) :
  db (main w).1 !! id = row_after_run w id <$> db w !! id
  /\ forall r r', db w !! id = Some r -> db (main w).1 !! id = Some r' ->
       row_title r' = row_title r
       /\ row_authors r' = row_authors r
       /\ row_pdf_url r' = row_pdf_url r
       /\ (is_Some (row_abstract r) -> is_Some (row_abstract r'))
       /\ (is_Some (row_conclusion r) -> is_Some (row_conclusion r'))
       /\ (new_results w !! id = None -> r' = r).
Proof.
  assert (Hrow : db (main w).1 !! id = row_after_run w id <$> db w !! id).
  { destruct (main_world w) as (-> & _). apply run_loop_rows. }
  split; [ exact Hrow | ].
  intros r r' Hr Hr'. rewrite Hrow, Hr in Hr'. injection Hr' as <-.
  unfold row_after_run. rewrite new_results_lookup.
  destruct (newly_recorded _ _ _ _) as [s|]; cbn.
  - repeat split; try done.
    + intros [a Ha]. rewrite Ha. destruct (abstract s); cbn; eauto.
    + intros [a Ha]. rewrite Ha. destruct (conclusion s); cbn; eauto.
  - repeat split; done.
Qed.

(** ** The status map of the workflow manager *)

Section Status.
Import Workflow.
Variable World : Type.
Variable step_func : string -> World -> bool * World.


Lemma run_full_workflow_cases start_from m :
  (exists k, run_full_workflow World step_func start_from m
             = run_steps World step_func (drop k steps) m)
  \/ ((exists name, start_from = Some name /\ name <> EmptyString /\ name ∉ steps)
      /\ run_full_workflow World step_func start_from m = (false, m)).
Proof.
  unfold run_full_workflow.
  destruct start_from as [[|a name]|]; [ left; by exists 0%nat | | left; by exists 0%nat ].
  destruct (list_find _ steps) as [[start_idx n]|] eqn:Hfind.
  - left. by exists start_idx.
  - right. split; [ | reflexivity ]. eexists. split; [ reflexivity | ].
    split; [ done | ]. intros Hin.
    rewrite list_find_None, Forall_forall in Hfind. by apply (Hfind _ Hin).
Qed.

End Status.


(** X12.  A start point that is not the name of a step makes the run
    return False before any step is called, and the manager is left as it
    was.  The empty string is no start point at all: with it the run is
    the full run, the same as from "clear". *)
Theorem unknown_start_point_runs_nothing
  (World : Type) (step_func : string -> World -> bool * World)
  (name : string) (m : Workflow.manager World) :
  name ∉ Workflow.steps -> name <> EmptyString ->
  Workflow.run_full_workflow World step_func (Some name) m = (false, m)
  /\ Workflow.run_full_workflow World step_func (Some EmptyString) m
     = Workflow.run_full_workflow World step_func None m
  /\ Workflow.run_full_workflow World step_func (Some "clear"%string) m
     = Workflow.run_full_workflow World step_func None m.
Proof.
  intros Hname Hne. split; [ | split; reflexivity ].
  destruct (run_full_workflow_cases World step_func (Some name) m)
    as [[k Hrun]|[_ Hrun]]; [ | exact Hrun ].
  unfold Workflow.run_full_workflow in *.
  destruct name as [|a name]; [ done | ].
  destruct (list_find _ Workflow.steps) as [[start_idx n]|] eqn:Hfind; [ | done ].
  apply list_find_Some in Hfind as (Hlook & -> & _).
  exfalso. apply Hname. by eapply list_elem_of_lookup_2.
Qed.

Lemma unknown_start_point_runs_nothing_witness :
  Workflow.run_full_workflow unit extract_fails (Some "summarize"%string) fresh_manager
  = (false, fresh_manager).
Proof.
  apply (unknown_start_point_runs_nothing unit extract_fails "summarize" fresh_manager).
  - unfold Workflow.steps. rewrite !elem_of_cons, elem_of_nil.
    intros H. repeat (destruct H as [H|H]; [ discriminate H | ]). exact H.
  - discriminate.
Defined.

(** ** The order of a pipeline run *)

Section Order.
Import Pipeline.
Variable World : Type.
Variable run_script : string -> World -> bool * World.
Variable dump_summaries dump_full_documents : World -> bool * World.

(** One required stage of the loop, by the script. *)
Lemma stage_plain script rest w log :
  script <> "extract_regex.py"%string -> script <> "summarise.py"%string ->
  stages World run_script dump_summaries ((script, true) :: rest) w log
  = (if (run_script script w).1
     then stages World run_script dump_summaries rest (run_script script w).2
            (log ++ [Ran script])
     else (false, (run_script script w).2, log ++ [Ran script])).
Proof.
  intros He Hs. cbn [stages]. destruct (run_script script w) as [[|] w1]; cbn.
  - by rewrite !bool_decide_eq_false_2.
  - reflexivity.
Qed.

Lemma stage_extract rest w log :
  stages World run_script dump_summaries (("extract_regex.py"%string, true) :: rest) w log
  = (if (run_script "extract_regex.py" w).1
     then stages World run_script dump_summaries rest (run_script "extract_regex.py" w).2
            (log ++ [Ran "extract_regex.py"; Slept])
     else (false, (run_script "extract_regex.py" w).2, log ++ [Ran "extract_regex.py"])).
Proof.
  cbn [stages]. destruct (run_script "extract_regex.py" w) as [[|] w1]; cbn.
  - rewrite (bool_decide_eq_true_2 ("extract_regex.py" = "extract_regex.py")%string)
      by reflexivity.
    rewrite (bool_decide_eq_false_2 ("extract_regex.py" = "summarise.py")%string)
      by discriminate.
    cbn. by rewrite <- app_assoc.
  - reflexivity.
Qed.

Lemma stage_summarise rest w log :
  stages World run_script dump_summaries (("summarise.py"%string, true) :: rest) w log
  = (if (run_script "summarise.py" w).1
     then
       if (dump_summaries (run_script "summarise.py" w).2).1
       then stages World run_script dump_summaries rest
              (dump_summaries (run_script "summarise.py" w).2).2
              (log ++ [Ran "summarise.py"; DumpedSummaries true])
       else (false, (dump_summaries (run_script "summarise.py" w).2).2,
             log ++ [Ran "summarise.py"; DumpedSummaries false])
     else (false, (run_script "summarise.py" w).2, log ++ [Ran "summarise.py"])).
Proof.
  cbn [stages]. destruct (run_script "summarise.py" w) as [[|] w1]; cbn.
  - rewrite (bool_decide_eq_false_2 ("summarise.py" = "extract_regex.py")%string)
      by discriminate.
    rewrite (bool_decide_eq_true_2 ("summarise.py" = "summarise.py")%string)
      by reflexivity.
    cbn.
    destruct (dump_summaries w1) as [[|] w2]; cbn; by rewrite <- app_assoc.
  - reflexivity.
Qed.

End Order.

Ltac not_in_log :=
  let H := fresh "H" in
  rewrite ?elem_of_cons, elem_of_nil; intros H;
  repeat (destruct H as [H|H]; [ discriminate H | ]); destruct H.

Ltac rewrite_scripts run_script :=
  repeat match goal with
  | H : run_script ?n ?x = _ |- context [run_script ?n ?x] =>
      rewrite H; cbn [outcomes]
  end.

Ltac pipeline_leaf run_script :=
  cbn [fst snd app];
  eexists _, _;
  split; [ eexists; reflexivity | ];
  split; [ cbn [scripts_run omap list_omap outcomes]; rewrite_scripts run_script;
           reflexivity | ];
  split;
  [ first
      [ discriminate
      | intros _; split; [ reflexivity | ];
        split; [ repeat constructor | ];
        eexists _, _; split; [ eassumption | ];
        split; [ eassumption | reflexivity ] ]
  | ];
  split;
  [ first
      [ discriminate
      | intros _; split;
        [ intros dumped; not_in_log
        | first
            [ left;
              match goal with
              | |- exists earlier failing, ?l = _ /\ _ =>
                  exists (removelast l), (List.last l ""%string)
              end;
              split; [ reflexivity | split; reflexivity ]
            | right; split; [ reflexivity | ];
              split; [ repeat constructor | eassumption ] ] ] ]
  | ];
  split;
  [ first
      [ intros _;
        exists [Pipeline.Ran "fetch.py"; Pipeline.Ran "download.py";
                Pipeline.Ran "parse.py"]; eexists; reflexivity
      | not_in_log ]
  | ];
  split;
  [ first [ intros _; reflexivity | not_in_log ]
  | first
      [ intros _; rewrite !elem_of_cons; do 4 right; left; reflexivity
      | cbn; discriminate ] ].

(** X13.  The shape of every run of the test pipeline, whatever the
    scripts and the dumps do.  The scripts run are an initial part of
    fetch, download, parse, extract_regex, summarise, in that order, each
    run on the world the one before it left, and every one but the last
    run exited with status 0.  A run returns True exactly when all five
    exited with status 0 and the call of [dump_summaries] that follows
    summarise.py returned; the final dump is attempted in those runs and
    in no other, and its failure changes nothing.  A run returns False
    when the last script run failed, or when all five succeeded and
    [dump_summaries] raised.  summarise.py never runs unless
    extract_regex.py ran just before it and the pause followed, and the
    pause is made exactly when extract_regex.py exited with status 0. *)
Theorem pipeline_runs_in_order
  (World : Type) (run_script : string -> World -> bool * World)
  (dump_summaries dump_full_documents : World -> bool * World) (w : World) :
  let r := Pipeline.run_pipeline World run_script dump_summaries dump_full_documents w in
  let ok := r.1.1 in
  let final := r.1.2 in
  let log := r.2 in
  exists results w1,
    scripts_run log `prefix_of` Pipeline.pipeline.*1
    /\ outcomes World run_script (scripts_run log) w = (results, w1)
    /\ (ok = true ->
        scripts_run log = Pipeline.pipeline.*1
        /\ Forall (fun b => b = true) results
        /\ exists w2 dumped,
             dump_summaries w1 = (true, w2)
             /\ dump_full_documents w2 = (dumped, final)
             /\ log = [Pipeline.Ran "fetch.py"; Pipeline.Ran "download.py";
                      Pipeline.Ran "parse.py"; Pipeline.Ran "extract_regex.py";
                      Pipeline.Slept; Pipeline.Ran "summarise.py";
                      Pipeline.DumpedSummaries true;
                      Pipeline.DumpedFullDocuments dumped])
    /\ (ok = false ->
        (forall dumped, Pipeline.DumpedFullDocuments dumped ∉ log)
        /\ ((exists earlier failing,
               scripts_run log = earlier ++ [failing]
               /\ results = replicate (length earlier) true ++ [false]
               /\ final = w1)
            \/ (scripts_run log = Pipeline.pipeline.*1
                /\ Forall (fun b => b = true) results
                /\ dump_summaries w1 = (false, final))))
    /\ (Pipeline.Ran "summarise.py" ∈ log ->
        exists pre post,
          log = pre ++ [Pipeline.Ran "extract_regex.py"; Pipeline.Slept;
                        Pipeline.Ran "summarise.py"] ++ post)
    /\ (Pipeline.Slept ∈ log <-> results !! 3%nat = Some true).
Proof.
  cbv zeta. unfold Pipeline.run_pipeline, Pipeline.pipeline.
  rewrite stage_plain by discriminate.
  destruct (run_script "fetch.py" w) as [[|] w1] eqn:H1; cbn [fst snd];
    [ | pipeline_leaf run_script ].
  rewrite stage_plain by discriminate.
  destruct (run_script "download.py" w1) as [[|] w2] eqn:H2; cbn [fst snd];
    [ | pipeline_leaf run_script ].
  rewrite stage_plain by discriminate.
  destruct (run_script "parse.py" w2) as [[|] w3] eqn:H3; cbn [fst snd];
    [ | pipeline_leaf run_script ].
  rewrite stage_extract.
  destruct (run_script "extract_regex.py" w3) as [[|] w4] eqn:H4; cbn [fst snd];
    [ | pipeline_leaf run_script ].
  rewrite stage_summarise.
  destruct (run_script "summarise.py" w4) as [[|] w5] eqn:H5; cbn [fst snd];
    [ | pipeline_leaf run_script ].
  destruct (dump_summaries w5) as [[|] w6] eqn:H6; cbn [fst snd Pipeline.stages];
    [ | pipeline_leaf run_script ].
  destruct (dump_full_documents w6) as [dumped w7] eqn:H7.
  pipeline_leaf run_script.
Qed.

(** ** Batches of the parallel converter, one after another *)

Section Resume.
Import Parallel.
Variable convert : string -> bool.
Variable export_raised : string -> bool.

(** The output files after the jobs: those from before, one for each
    conversion that went through, and one for each job that failed after
    it had opened its output file. *)
Lemma gather_files input_paths : forall i o rs o',
  gather convert export_raised i input_paths o = (rs, o') ->
  forall x, x ∈ json_files o'
            <-> x ∈ json_files o
                \/ (x ∈ input_paths /\ (convert x = true \/ export_raised x = true)).
Proof.
  induction input_paths as [|stem rest IH]; intros i o rs o'; cbn [gather].
  - intros [= <- <-] x. rewrite elem_of_nil. tauto.
  - rewrite convert_pdf_spec.
    destruct (gather convert export_raised (S i) rest _) as [rs' o2] eqn:H2.
    intros [= <- <-] x. rewrite (IH _ _ _ _ H2 x). cbn [json_files].
    rewrite elem_of_cons. case_bool_decide as Hex; cbn [negb andb].
    + split; [ tauto | ]. intros [?|[[->|?] ?]]; auto.
    + destruct (convert stem || export_raised stem) eqn:Hc.
      * apply orb_true_iff in Hc.
        rewrite elem_of_union, elem_of_singleton. split.
        -- intros [[->|?]|[? ?]]; auto.
        -- intros [?|[[->|?] ?]]; auto.
      * apply orb_false_iff in Hc as [Hc1 Hc2].
        split; [ tauto | ]. intros [?|[[->|?] Hor]]; [ auto | | auto ].
        destruct Hor; congruence.
Qed.

Lemma job_steps_converted (E : gset string) input_paths : forall i stem,
  converted stem (job_steps E i input_paths) <-> stem ∈ input_paths /\ stem ∉ E.
Proof.
  unfold converted.
  induction input_paths as [|x rest IH]; intros i stem; cbn [job_steps].
  - split; [ intros [k Hk]; by apply elem_of_nil in Hk | ].
    intros [H _]. by apply elem_of_nil in H.
  - split.
    + intros [k Hk]. apply elem_of_cons in Hk as [Hk|Hk].
      * unfold job_step in Hk. case_bool_decide; [ discriminate | ].
        injection Hk as _ ->. split; [ by left | done ].
      * destruct (proj1 (IH (S i) stem)) as [? ?]; [ eauto | ].
        split; [ by right | done ].
    + intros [Hin Hnot]. apply elem_of_cons in Hin as [->|Hin].
      * exists (S (i mod 2)). apply elem_of_cons. left. unfold job_step.
        by rewrite bool_decide_eq_false_2.
      * destruct (proj2 (IH (S i) stem)) as [k Hk]; [ done | ]. exists k. by right.
Qed.

Lemma batch_gather input_paths o sm o' :
  convert_pdfs_parallel convert export_raised input_paths o = (Some sm, o') ->
  gather convert export_raised 0 input_paths o = (results sm, o')
  /\ successful sm = count true (results sm).
Proof.
  unfold convert_pdfs_parallel. destruct input_paths as [|stem rest]; [ discriminate | ].
  destruct (gather convert export_raised 0 (stem :: rest) o) as [rs o1].
  by intros [= <- <-].
Qed.

Lemma batch_files input_paths o o' sm :
  convert_pdfs_parallel convert export_raised input_paths o = (sm, o') ->
  forall x, x ∈ json_files o'
            <-> x ∈ json_files o
                \/ (x ∈ input_paths /\ (convert x = true \/ export_raised x = true)).
Proof.
  intros Hbatch. destruct sm as [sm|].
  - apply batch_gather in Hbatch as [Hg _]. exact (gather_files _ _ _ _ _ Hg).
  - unfold convert_pdfs_parallel in Hbatch.
    destruct input_paths as [|stem rest].
    + injection Hbatch as <-. intros x. rewrite elem_of_nil. tauto.
    + destruct (gather convert export_raised 0 (stem :: rest) o). discriminate.
Qed.

End Resume.

(** X14.  The output directory after a batch.  Every file that existed
    before still exists.  A new file [<stem>.json] appears exactly for the
    inputs whose conversion went through and for those whose job failed
    after it had opened its output file.  So the output of every job that
    returned True exists afterwards, and an output that exists afterwards
    belongs to a job that returned True or to one whose export raised: a
    failed job can leave a file behind. *)
Theorem batch_never_removes_outputs
  (convert export_raised : string -> bool) (input_paths : list string)
  (o o' : Parallel.outputs) (sm : option Parallel.summary) :
  Parallel.convert_pdfs_parallel convert export_raised input_paths o = (sm, o') ->
  (forall x, x ∈ Parallel.json_files o'
             <-> x ∈ Parallel.json_files o
                 \/ (x ∈ input_paths /\ (convert x = true \/ export_raised x = true)))
  /\ Parallel.json_files o ⊆ Parallel.json_files o'
  /\ (forall x, x ∈ input_paths ->
        job_result convert (Parallel.json_files o) x = true ->
        x ∈ Parallel.json_files o')
  /\ (forall x, x ∈ input_paths ->
        x ∈ Parallel.json_files o' ->
        job_result convert (Parallel.json_files o) x = true \/ export_raised x = true).
Proof.
  intros Hbatch. pose proof (batch_files _ _ _ _ _ _ Hbatch) as Hfiles.
  split; [ exact Hfiles | ]. split; [ | split ].
  - intros x Hx. apply Hfiles. by left.
  - intros x Hx Hres. apply Hfiles. unfold job_result in Hres.
    apply orb_true_iff in Hres as [Hres|Hres].
    + left. by apply bool_decide_eq_true in Hres.
    + right. auto.
  - intros x Hx Hfile. apply Hfiles in Hfile as [Hold|[_ [Hc|He]]].
    + left. unfold job_result. by rewrite bool_decide_eq_true_2.
    + left. unfold job_result. by rewrite Hc, orb_true_r.
    + by right.
Qed.

Lemma batch_never_removes_outputs_witness :
  exists sm o',
    Parallel.convert_pdfs_parallel (fun _ => false) (fun _ => true)
      ["paper"%string] {| Parallel.json_files := ∅; Parallel.steps := [] |}
    = (sm, o')
    /\ "paper"%string ∈ Parallel.json_files o'.
Proof.
  destruct (Parallel.convert_pdfs_parallel (fun _ => false) (fun _ => true)
              ["paper"%string] {| Parallel.json_files := ∅; Parallel.steps := [] |})
    as [sm o'] eqn:H.
  exists sm, o'. split; [ reflexivity | ].
  apply (proj2 (proj1 (batch_never_removes_outputs _ _ _ _ _ _ H) "paper"%string)).
  right. split; [ by left | by right ].
Defined.

(** X15.  Running the converter again over the same PDFs.  The second
    batch converts exactly the inputs that have no output file after the
    first batch, that is those whose job returned False without leaving a
    file; it skips every other input.  An input whose job failed after it
    had opened its output file is therefore not converted again: the
    second batch skips it and returns True for it.  A job that returned
    True returns True again, and the number counted as successful does not
    go down, whatever the conversions of the second batch do. *)
Theorem second_batch_converts_only_missing_outputs
  (convert export_raised convert2 export_raised2 : string -> bool)
  (input_paths : list string)
  (o o1 o2 : Parallel.outputs) (sm1 sm2 : Parallel.summary) :
  NoDup input_paths ->
  Parallel.convert_pdfs_parallel convert export_raised input_paths o = (Some sm1, o1) ->
  Parallel.convert_pdfs_parallel convert2 export_raised2 input_paths o1 = (Some sm2, o2) ->
  exists new,
    Parallel.steps o2 = Parallel.steps o1 ++ new
    /\ (forall stem, converted stem new
                     <-> stem ∈ input_paths
                         /\ job_result convert (Parallel.json_files o) stem = false
                         /\ export_raised stem = false)
    /\ (forall k stem, input_paths !! k = Some stem ->
                       Parallel.results sm1 !! k = Some false ->
                       export_raised stem = true ->
                       Parallel.results sm2 !! k = Some true /\ ~ converted stem new)
    /\ (forall k, Parallel.results sm1 !! k = Some true ->
                  Parallel.results sm2 !! k = Some true)
    /\ (Parallel.successful sm1 <= Parallel.successful sm2)%nat.
Proof.
  intros Hnd H1 H2.
  pose proof (batch_files _ _ _ _ _ _ H1) as Hfiles.
  assert (Hleft : forall stem, stem ∈ input_paths ->
            stem ∈ Parallel.json_files o1
            <-> job_result convert (Parallel.json_files o) stem = true
                \/ export_raised stem = true).
  { intros stem Hin. rewrite Hfiles. unfold job_result.
    rewrite orb_true_iff, bool_decide_eq_true. tauto. }
  apply batch_gather in H1 as [Hg1 Hs1]. apply batch_gather in H2 as [Hg2 Hs2].
  apply gather_spec in Hg1 as [Hr1 _]; [ | exact Hnd ].
  apply gather_spec in Hg2 as [Hr2 Hsteps]; [ | exact Hnd ].
  assert (Hkeep : forall stem, stem ∈ input_paths ->
            stem ∈ Parallel.json_files o1 ->
            job_result convert2 (Parallel.json_files o1) stem = true).
  { intros stem Hin Hfile. unfold job_result. by rewrite bool_decide_eq_true_2. }
  assert (Hmissing : forall stem,
            converted stem (job_steps (Parallel.json_files o1) 0 input_paths)
            <-> stem ∈ input_paths
                /\ job_result convert (Parallel.json_files o) stem = false
                /\ export_raised stem = false).
  { intros stem. rewrite job_steps_converted. split.
    - intros [Hin Hnot]. split; [ exact Hin | ].
      destruct (job_result convert (Parallel.json_files o) stem) eqn:Hres.
      { exfalso. apply Hnot, Hleft; auto. }
      destruct (export_raised stem) eqn:He; [ | done ].
      exfalso. apply Hnot, Hleft; auto.
    - intros (Hin & Hres & He). split; [ exact Hin | ].
      intros Hfile. destruct (proj1 (Hleft stem Hin) Hfile); congruence. }
  exists (job_steps (Parallel.json_files o1) 0 input_paths).
  split; [ exact Hsteps | ]. split; [ exact Hmissing | ]. split; [ | split ].
  - intros k stem Hk Hfalse He.
    assert (Hin : stem ∈ input_paths) by by eapply list_elem_of_lookup_2.
    split.
    + rewrite Hr2. change map with (@fmap list _). rewrite list_lookup_fmap, Hk. cbn.
      f_equal. apply Hkeep; [ exact Hin | ]. apply Hleft; auto.
    + rewrite Hmissing. intros (_ & _ & ?). congruence.
  - intros k. rewrite Hr1, Hr2. change map with (@fmap list _). rewrite !list_lookup_fmap.
    destruct (input_paths !! k) as [stem|] eqn:Hk; cbn; [ | done ].
    intros [= Hres]. f_equal.
    assert (Hin : stem ∈ input_paths) by by eapply list_elem_of_lookup_2.
    apply Hkeep; [ exact Hin | ]. apply Hleft; auto.
  - rewrite Hs1, Hs2, Hr1, Hr2.
    rewrite (proj1 (count_map_true _ _)), (proj1 (count_map_true _ _)).
    assert (Hmono : forall stem, stem ∈ input_paths ->
              job_result convert (Parallel.json_files o) stem = true ->
              job_result convert2 (Parallel.json_files o1) stem = true).
    { intros stem Hin Hres. apply Hkeep; [ exact Hin | ]. apply Hleft; auto. }
    clear -Hmono. induction input_paths as [|x l IH]; [ done | ].
    rewrite !filter_cons.
    assert (IH' : (length (filter (fun x0 => job_result convert (Parallel.json_files o) x0 = true) l)
                   <= length (filter (fun x0 => job_result convert2 (Parallel.json_files o1) x0 = true) l))%nat).
    { apply IH. intros stem Hin. apply Hmono. by right. }
    pose proof (Hmono x (list_elem_of_here _ _)) as Hx.
    destruct (decide (job_result convert (Parallel.json_files o) x = true)) as [Ht|Ht],
             (decide (job_result convert2 (Parallel.json_files o1) x = true)) as [Ht2|Ht2];
      cbn [length]; try lia.
    destruct (Ht2 (Hx Ht)).
Qed.

Lemma second_batch_converts_only_missing_outputs_witness :
  exists sm1 o1 sm2 o2 new,
    Parallel.convert_pdfs_parallel (fun _ => false) (fun _ => true) ["paper"%string]
      {| Parallel.json_files := ∅; Parallel.steps := [] |} = (Some sm1, o1)
    /\ Parallel.convert_pdfs_parallel (fun _ => true) (fun _ => false)
         ["paper"%string] o1 = (Some sm2, o2)
    /\ Parallel.steps o2 = Parallel.steps o1 ++ new
    /\ ~ converted "paper" new
    /\ (Parallel.successful sm1 <= Parallel.successful sm2)%nat.
Proof.
  destruct (Parallel.convert_pdfs_parallel (fun _ => false) (fun _ => true)
              ["paper"%string]
              {| Parallel.json_files := ∅; Parallel.steps := [] |})
    as [[sm1|] o1] eqn:H1;
    [ | unfold Parallel.convert_pdfs_parallel in H1;
        destruct (Parallel.gather _ _ _ _ _) in H1; discriminate H1 ].
  destruct (Parallel.convert_pdfs_parallel (fun _ => true) (fun _ => false)
              ["paper"%string] o1)
    as [[sm2|] o2] eqn:H2;
    [ | unfold Parallel.convert_pdfs_parallel in H2;
        destruct (Parallel.gather _ _ _ _ _) in H2; discriminate H2 ].
  destruct (second_batch_converts_only_missing_outputs _ _ _ _ _ _ _ _ _ _
              (NoDup_singleton "paper"%string) H1 H2)
    as (new & Hsteps & Hconv & _ & _ & Hle).
  exists sm1, o1, sm2, o2, new.
  split; [ reflexivity | ]. split; [ exact H2 | ]. split; [ exact Hsteps | ].
  split; [ | exact Hle ].
  rewrite Hconv. intros (_ & _ & He). discriminate He.
Defined.

(** ** Fetching again *)

Lemma insert_or_replace_rows papers : forall (t : table) id,
  foldl insert_or_replace t papers !! id
  = match last (filter (fun p => paper_id p = id) papers) with
    | Some p => Some {| row_title := Some (paper_title p);
                        row_authors := Some (paper_authors p);
                        row_pdf_url := Some (paper_pdf_url p);
                        row_abstract := None;
                        row_conclusion := None |}
    | None => t !! id
    end.
Proof.
  induction papers as [|p papers IH] using rev_ind; intros t id; [ done | ].
  rewrite foldl_app, filter_app, filter_cons, filter_nil. cbn [foldl].
  unfold insert_or_replace at 1.
  destruct (decide (paper_id p = id)) as [<-|Hne].
  - by rewrite lookup_insert_eq, last_snoc.
  - rewrite lookup_insert_ne by done. rewrite app_nil_r. apply IH.
Qed.

Lemma insert_or_ignore_rows papers : forall (s : summaries) id,
  foldl insert_or_ignore s papers !! id
  = match s !! id with
    | Some v => Some v
    | None => if bool_decide (id ∈ paper_id <$> papers) then Some None else None
    end.
Proof.
  induction papers as [|p papers IH] using rev_ind; intros s id.
  - cbn. rewrite bool_decide_eq_false_2 by apply not_elem_of_nil.
    by destruct (s !! id).
  - rewrite foldl_app, fmap_app. cbn [foldl fmap list_fmap].
    assert (Hiff : id ∈ (paper_id <$> papers) ++ [paper_id p]
                   <-> id ∈ paper_id <$> papers \/ id = paper_id p).
    { by rewrite elem_of_app, list_elem_of_singleton. }
    rewrite (bool_decide_ext _ _ Hiff).
    unfold insert_or_ignore at 1.
    destruct (decide (id = paper_id p)) as [->|Hne].
    + rewrite (bool_decide_eq_true_2 (_ \/ _)) by by right.
      destruct (foldl insert_or_ignore s papers !! paper_id p) as [v|] eqn:Hp.
      * rewrite Hp. rewrite IH in Hp. destruct (s !! paper_id p); [ done | ].
        by case_bool_decide.
      * rewrite lookup_insert_eq. rewrite IH in Hp. by destruct (s !! paper_id p).
    + assert (Hiff' : id ∈ paper_id <$> papers \/ id = paper_id p
                      <-> id ∈ paper_id <$> papers) by tauto.
      rewrite (bool_decide_ext _ _ Hiff').
      destruct (foldl insert_or_ignore s papers !! paper_id p) as [v|].
      * apply IH.
      * rewrite lookup_insert_ne by done. apply IH.
Qed.

(** X16.  What saving a list of fetched papers does to the two tables.
    Every row of a fetched id is replaced: its abstract and conclusion are
    NULL afterwards, whatever they were; rows of other ids are untouched.
    In [summaries] nothing is ever overwritten: an id that has a row keeps
    its summary, and a fetched id without a row gets one with a NULL
    summary. *)
Theorem refetch_resets_sections_but_keeps_summaries
  (papers : list paper) (t : table) (s : summaries) (id : string) :
  let d := save_to_db papers (t, s) in
  (id ∈ paper_id <$> papers ->
   exists r, d.1 !! id = Some r
             /\ row_abstract r = None /\ row_conclusion r = None
             /\ exists p, p ∈ papers /\ paper_id p = id
                          /\ row_title r = Some (paper_title p))
  /\ (id ∉ paper_id <$> papers -> d.1 !! id = t !! id /\ d.2 !! id = s !! id)
  /\ (forall v, s !! id = Some v -> d.2 !! id = Some v)
  /\ (id ∈ paper_id <$> papers -> s !! id = None -> d.2 !! id = Some None).
Proof.
  cbv zeta. unfold save_to_db. cbn [fst snd].
  rewrite insert_or_replace_rows, insert_or_ignore_rows.
  assert (Hlast : id ∈ paper_id <$> papers ->
            exists p, last (filter (fun p => paper_id p = id) papers) = Some p
                      /\ p ∈ papers /\ paper_id p = id).
  { intros Hin. apply list_elem_of_fmap in Hin as (p & -> & Hp).
    destruct (last (filter (fun q => paper_id q = paper_id p) papers)) as [q|] eqn:Hq.
    - exists q. split; [ done | ]. apply last_Some in Hq as [l' Hl'].
      assert (Hqin : q ∈ filter (fun q => paper_id q = paper_id p) papers).
      { rewrite Hl'. apply elem_of_app. right. by left. }
      by apply list_elem_of_filter in Hqin as [? ?].
    - apply last_None in Hq.
      assert (Hpin : p ∈ filter (fun q => paper_id q = paper_id p) papers)
        by by apply list_elem_of_filter.
      rewrite Hq in Hpin. by apply elem_of_nil in Hpin. }
  split; [ | split; [ | split ] ].
  - intros Hin. destruct (Hlast Hin) as (p & -> & Hp & Hid).
    eexists. split; [ reflexivity | ]. cbn. eauto 10.
  - intros Hnot.
    destruct (last (filter (fun p => paper_id p = id) papers)) as [q|] eqn:Hq.
    + exfalso. apply Hnot. apply last_Some in Hq as [l' Hl'].
      assert (Hqin : q ∈ filter (fun q => paper_id q = id) papers).
      { rewrite Hl'. apply elem_of_app. right. by left. }
      apply list_elem_of_filter in Hqin as [<- ?]. by apply list_elem_of_fmap_2.
    + split; [ done | ]. rewrite bool_decide_eq_false_2 by done.
      by destruct (s !! id).
  - by intros v ->.
  - intros Hin ->. by rewrite bool_decide_eq_true_2.
Qed.

(** X17.  Fetching and the cache of [main] together.  When a paper is
    fetched again while its id is in the cache file of the extraction, its
    row loses abstract and conclusion, and the next run of [main] does not
    restore them: the row is still without sections after the run,
    whatever its conversion file contains. *)
Theorem refetched_cached_paper_stays_without_sections
  (papers : list paper) (s : summaries) (w : world) (id : string) :
  id ∈ paper_id <$> papers ->
  is_Some (default ∅ (sections_json w) !! id) ->
  exists r,
    db (main (refetched papers s w)).1 !! id = Some r
    /\ row_abstract r = None /\ row_conclusion r = None.
Proof.
  intros Hin Hcached.
  destruct (main_world (refetched papers s w)) as (-> & _).
  unfold run_loop. rewrite run_cached_row by exact Hcached.
  cbn [ls_db start_state db refetched].
  unfold save_to_db. cbn [fst]. rewrite insert_or_replace_rows.
  apply list_elem_of_fmap in Hin as (p & -> & Hp).
  destruct (last (filter (fun q => paper_id q = paper_id p) papers)) as [q|] eqn:Hq.
  - eexists. split; [ reflexivity | ]. by cbn.
  - apply last_None in Hq.
    assert (Hpin : p ∈ filter (fun q => paper_id q = paper_id p) papers)
      by by apply list_elem_of_filter.
    rewrite Hq in Hpin. by apply elem_of_nil in Hpin.
Qed.

Lemma refetched_cached_paper_stays_without_sections_witness :
  exists r,
    db (main (refetched [sample_paper] ∅ world_cached_with_file)).1 !! "d1"%string
    = Some r
    /\ row_abstract r = None /\ row_conclusion r = None.
Proof.
  apply (refetched_cached_paper_stays_without_sections
           [sample_paper] ∅ world_cached_with_file "d1").
  - apply list_elem_of_fmap. exists sample_paper. split; [ reflexivity | by left ].
  - exists no_sections. vm_compute. reflexivity.
Defined.

(** ** A section in the usual layout is found *)

Section Layout.

Lemma run_word_ci W x r s c k :
  lowercase x = lowercase (txt W) ->
  run (Cat (Patterns.word W) r) (x ++ s) c k = run r s c k.
Proof.
  unfold Patterns.word, lit. generalize (txt W) as l. intros l. revert x k.
  induction l as [|a l IH]; intros [|b x] k Hx; try discriminate Hx.
  - reflexivity.
  - injection Hx as Hb Hx. cbn [fold_right app]. cbn [run]. unfold chr at 1.
    cbn [run]. rewrite Hb, N.eqb_refl.
    exact (IH x k Hx).
Qed.

Lemma digit_is_not_space d : is_digit d = true -> is_space d = false.
Proof.
  unfold is_digit, is_space, in_range.
  rewrite andb_true_iff, !N.leb_le. intros [? ?].
  repeat (apply orb_false_iff; split);
    rewrite ?andb_false_iff, ?N.leb_gt, ?N.eqb_neq; lia.
Qed.

Lemma not_space_not_newline a : is_space a = false -> (a =? NL) = false.
Proof.
  intros Ha. apply N.eqb_neq. intros ->. vm_compute in Ha. discriminate.
Qed.

(** [\s*\n] after a heading that is followed by a blank line and a text
    that does not start with white space: the white space takes the first
    newline and leaves the second. *)
Lemma run_ws_nl r a s' c k x :
  is_space a = false ->
  run r (a :: s') c k = Some x ->
  run (Cat ws (Cat nl r)) (NL :: NL :: a :: s') c k = Some x.
Proof.
  intros Ha Hr. cbn [run ws nl many_greedy].
  change (is_space NL) with true. cbv iota. rewrite Ha.
  rewrite (not_space_not_newline a Ha). rewrite N.eqb_refl. by rewrite Hr.
Qed.

Lemma many_lazy_skip kk b s' x :
  (forall b1 b2, b = b1 ++ b2 -> b2 <> [] -> kk (b2 ++ s') = None) ->
  kk s' = Some x ->
  many_lazy (fun _ => true) kk (b ++ s') = Some x.
Proof.
  intros Hskip Hk. induction b as [|a b IH]; cbn [app].
  - destruct s'; cbn [many_lazy]; by rewrite Hk.
  - cbn [many_lazy].
    pose proof (Hskip [] (a :: b) eq_refl ltac:(done)) as H0. cbn [app] in H0.
    rewrite H0. apply IH. intros b1 b2 -> Hb2. by apply (Hskip (a :: b1) b2).
Qed.

(** The lazy body followed by a lookahead: the capture ends at the first
    place where the lookahead matches. *)
Lemma run_body_until ba b s' c k sf x :
  has_group ba = false ->
  (forall b1 b2 c0, b = b1 ++ b2 -> b2 <> [] -> run ba (b2 ++ s') c0 accept = None) ->
  run ba s' (Some b) accept = Some sf ->
  k s' (Some b) = Some x ->
  run (Cat body (Ahead ba)) (b ++ s') c k = Some x.
Proof.
  intros Hg Hskip Hend Hk. cbn [run body].
  apply many_lazy_skip.
  - intros b1 b2 Hb Hb2. by rewrite (Hskip b1 b2 _ Hb Hb2).
  - rewrite length_app, Nat.add_sub, take_app_length.
    destruct sf as [sf c']. rewrite Hend.
    apply run_sound in Hend as (s1 & c1 & _ & [= _ <-] & Hc & _).
    by rewrite (Hc Hg).
Qed.


Local Open Scope re_scope.

(** The lookahead that ends an abstract. *)
Lemma until_heading_unfold :
  Patterns.until_heading
  = Ahead ((nl ~> ws ~> digit)
           </> (nl ~> ws ~> Patterns.upper_AZ ~> Patterns.lower_az) </> EndZ).
Proof. reflexivity. Qed.

Lemma heading_needs_newline a s c :
  (a =? NL) = false ->
  run ((nl ~> ws ~> digit)
       </> (nl ~> ws ~> Patterns.upper_AZ ~> Patterns.lower_az) </> EndZ)
      (a :: s) c accept = None.
Proof. intros Ha. cbn [run nl]. by rewrite Ha. Qed.

Lemma numbered_heading_follows d s c :
  is_digit d = true ->
  run ((nl ~> ws ~> digit)
       </> (nl ~> ws ~> Patterns.upper_AZ ~> Patterns.lower_az) </> EndZ)
      (NL :: NL :: d :: s) c accept = Some (s, c).
Proof.
  intros Hd. cbn [run nl ws digit many_greedy]. rewrite N.eqb_refl.
  change (is_space NL) with true. cbv iota.
  by rewrite (digit_is_not_space d Hd), Hd.
Qed.

(** The first pattern at the heading Abstract. *)
Lemma abstract_heading_run (A b s : text) (d : N) :
  lowercase A = txt "abstract" ->
  (forall a, head b = Some a -> is_space a = false) -> b <> [] ->
  NL ∉ b ->
  is_digit d = true ->
  run (hd Eps Patterns.abstract_patterns)
      (A ++ NL :: NL :: b ++ NL :: NL :: d :: s) None accept
  = Some (NL :: NL :: d :: s, Some b).
Proof.
  intros HA Hhead Hne Hnl Hd. cbn [hd Patterns.abstract_patterns].
  rewrite run_word_ci by exact HA.
  destruct b as [|a b0]; [ done | ]. cbn [app].
  apply run_ws_nl; [ by apply Hhead | ].
  rewrite until_heading_unfold.
  change (a :: b0 ++ NL :: NL :: d :: s) with ((a :: b0) ++ NL :: NL :: d :: s).
  eapply run_body_until.
  - reflexivity.
  - intros b1 [|x b2] c0 Hb Hb2; [ done | ]. cbn [app].
    apply heading_needs_newline. apply N.eqb_neq. intros ->.
    apply Hnl. rewrite Hb. apply elem_of_app. right. by left.
  - by apply numbered_heading_follows.
  - reflexivity.
Qed.


Lemma search_from_hit r s i sf c :
  run r s None accept = Some (sf, c) ->
  search_from r s i = Some {| m_start := i; m_group1 := c |}.
Proof. intros H. destruct s; cbn [search_from]; by rewrite H. Qed.

Lemma search_from_skip r pre m : forall j,
  (forall i, (i < length pre)%nat -> run r (drop i pre ++ m) None accept = None) ->
  search_from r (pre ++ m) j = search_from r m (j + length pre).
Proof.
  induction pre as [|a pre IH]; intros j Hnone.
  - cbn. by rewrite Nat.add_0_r.
  - cbn [app search_from].
    pose proof (Hnone 0%nat ltac:(cbn; lia)) as H0. cbn in H0. rewrite H0.
    rewrite IH.
    + f_equal. cbn. lia.
    + intros i Hi. apply (Hnone (S i)). cbn. lia.
Qed.

Lemma join_texts_app l1 l2 : join_texts (l1 ++ l2) = join_texts l1 ++ join_texts l2.
Proof.
  induction l1 as [|[t|] l1 IH]; cbn [app join_texts]; [ done | | done ].
  by rewrite IH, <- !app_assoc.
Qed.

Lemma join_texts_last texts :
  join_texts texts = [] \/ exists l, join_texts texts = l ++ [NL].
Proof.
  induction texts as [|[t|] texts IH]; cbn [join_texts]; [ by left | | exact IH ].
  right. destruct IH as [->|[l ->]].
  - exists (strip t ++ [NL]). by rewrite <- app_assoc.
  - exists (strip t ++ [NL; NL] ++ l). by rewrite <- !app_assoc.
Qed.

(** A pattern that starts with a word does not match from inside the
    texts before the heading, when they do not mention the word. *)
Lemma no_match_before W r pre m i :
  (pre = [] \/ exists l, pre = l ++ [NL]) ->
  contains (lowercase (txt W)) (lowercase pre) = false ->
  NL ∉ lowercase (txt W) ->
  (i < length pre)%nat ->
  run (Cat (Patterns.word W) r) (drop i pre ++ m) None accept = None.
Proof.
  intros Hpre Hno HW Hi.
  destruct (run _ _ None accept) as [x|] eqn:Hrun; [ exfalso | done ].
  apply run_sound in Hrun as (s' & _ & Hm & _).
  apply matches_cat in Hm as (s1 & Hw & _).
  apply lit_ignorecase_inv in Hw as (u & Hu & Hlow).
  apply app_eq_inv in Hu as [(k & Hd & _)|(k & Hd & _)].
  - assert (Hc : contains (lowercase (txt W)) (lowercase pre) = true).
    { apply contains_spec. exists (lowercase (take i pre)), (lowercase k).
      rewrite <- Hlow, <- !lowercase_app, <- Hd. by rewrite take_drop. }
    congruence.
  - destruct Hpre as [->|[l ->]]; [ cbn in Hi; lia | ].
    rewrite length_app in Hi. cbn in Hi.
    rewrite drop_app_le in Hd by lia.
    apply HW. rewrite <- Hlow, Hd. unfold lowercase.
    rewrite !map_app. cbn [List.map].
    apply elem_of_app. left. apply elem_of_app. right. by left.
Qed.

Lemma strip_nonblank (s : text) a :
  a ∈ s -> is_space a = false -> strip s <> [].
Proof.
  intros Hin Ha Hs. unfold strip in Hs.
  destruct (lstrip_suffix s) as (w & Hw & Hsp).
  destruct (rstrip_prefix (lstrip s)) as (w' & Hw' & Hsp').
  rewrite Hs in Hw'. cbn in Hw'. rewrite Hw, Hw' in Hin.
  apply elem_of_app in Hin as [Hin|Hin];
    [ rewrite Forall_forall in Hsp; specialize (Hsp a Hin)
    | rewrite Forall_forall in Hsp'; specialize (Hsp' a Hin) ]; congruence.
Qed.

Lemma strip_strip (s : text) : strip (strip s) = strip s.
Proof.
  destruct (strip_ends s) as [Hh Hl]. unfold strip at 1.
  rewrite (lstrip_fixed (strip s)) by exact Hh.
  by apply rstrip_fixed.
Qed.

Lemma normalize_strip (s : text) : normalize (strip s) = normalize s.
Proof. unfold normalize. by rewrite strip_strip. Qed.

Lemma strip_infix (s : text) : exists w1 w2, s = w1 ++ strip s ++ w2.
Proof.
  destruct (lstrip_suffix s) as (w & Hw & _).
  destruct (rstrip_prefix (lstrip s)) as (w' & Hw' & _).
  exists w, w'. unfold strip. by rewrite <- Hw', <- Hw.
Qed.

End Layout.

(** X18.  An abstract in the usual layout of a conversion is found.  In a
    list of texts where a text that reads Abstract, in any case, is
    followed by a text without newline and then by a text that starts with
    a digit (a numbered heading), and where no text before mentions the
    word abstract, the abstract returned is the text that follows the
    heading, stripped and with its white space collapsed, provided this is
    longer than 50 characters. *)
Theorem abstract_in_the_usual_layout_is_extracted
  (before more : list (option text)) (heading b next : text) (d : N) :
  ascii_only (join_texts before) ->
  contains (txt "abstract") (lowercase (join_texts before)) = false ->
  lowercase (strip heading) = txt "abstract" ->
  NL ∉ b ->
  head (strip next) = Some d -> is_digit d = true ->
  (MIN_LENGTH < length (normalize b))%nat ->
  abstract (extract_sections (section_layout before heading b next more))
  = Some (normalize b).
Proof.
  intros _ Hno Hheading Hnl Hnext Hd Hlen.
  unfold extract_sections, section_layout. cbn [reconstruct].
  rewrite join_texts_app. cbn [app join_texts].
  destruct (strip next) as [|d' n'] eqn:Hn; [ discriminate Hnext | ].
  injection Hnext as ->. cbn [app].
  set (pre := join_texts before).
  set (rest := n' ++ NL :: NL :: join_texts more).
  set (m := strip heading ++ NL :: NL :: strip b ++ NL :: NL :: d :: rest).
  assert (Hb : strip b <> []).
  { intros Hb. unfold normalize in Hlen. rewrite Hb in Hlen.
    cbn in Hlen. unfold MIN_LENGTH in Hlen. lia. }
  assert (Hnl' : NL ∉ strip b).
  { intros Hin. apply Hnl. destruct (strip_infix b) as (w1 & w2 & ->).
    apply elem_of_app. right. apply elem_of_app. by left. }
  assert (Hrun : run (hd Eps Patterns.abstract_patterns) m None accept
                 = Some (NL :: NL :: d :: rest, Some (strip b))).
  { apply abstract_heading_run; try done. apply strip_ends. }
  assert (Hsearch : search (hd Eps Patterns.abstract_patterns) (pre ++ m)
                    = Some {| m_start := length pre; m_group1 := Some (strip b) |}).
  { unfold search. rewrite search_from_skip.
    - exact (search_from_hit _ _ _ _ _ Hrun).
    - intros i Hi. apply no_match_before; [ apply join_texts_last | exact Hno | | exact Hi ].
      assert (lowercase (txt "Abstract") = [97; 98; 115; 116; 114; 97; 99; 116]) as ->
        by reflexivity.
      rewrite !elem_of_cons, elem_of_nil.
      intros H; repeat (destruct H as [H|H]; [ discriminate H | ]); exact H. }
  assert (Hfind : find_abstract (pre ++ m) = Ok (Some (normalize b))).
  { unfold find_abstract.
    pose proof (cascade_first normalize (pre ++ m) [] (hd Eps Patterns.abstract_patterns)
                  (tl Patterns.abstract_patterns) (strip b) (Forall_nil_2 _)) as Hc.
    rewrite !normalize_strip in Hc.
    apply Hc; [ | exact Hlen ].
    eexists. split; [ exact Hsearch | reflexivity ]. }
  assert (Hblank : is_blank (pre ++ m) = false).
  { unfold is_blank.
    destruct (strip (pre ++ m)) as [|a0 s0] eqn:Hs; [ exfalso | done ].
    destruct (strip b) as [|a b0] eqn:Hsb; [ done | ].
    apply (strip_nonblank (pre ++ m) a); [ | | exact Hs ].
    - unfold m. rewrite !elem_of_app. right. right.
      rewrite !elem_of_cons. right. right. rewrite elem_of_app. left. by left.
    - pose proof (proj1 (strip_ends b) a) as Ha. rewrite Hsb in Ha. by apply Ha. }
  change (strip heading ++ NL :: NL :: strip b ++ NL :: NL :: d :: n' ++ NL :: NL :: join_texts more)
    with m.
  rewrite Hblank. unfold extract_from_content, extract_with. rewrite Hfind.
  destruct (find_conclusion_total (pre ++ m)) as [[c|] ->]; [ reflexivity | ].
  by destruct (find_discussion_total (pre ++ m)) as [x ->].
Qed.

Lemma not_elem_check (x : N) (l : text) :
  forallb (fun c => negb (c =? x)) l = true -> x ∉ l.
Proof.
  intros H Hin. rewrite forallb_forall in H.
  apply list_elem_of_In, H in Hin. by rewrite N.eqb_refl in Hin.
Qed.

Lemma abstract_in_the_usual_layout_is_extracted_witness :
  abstract (extract_sections
              (section_layout [Some (txt "A title")] (txt "Abstract") long_sentence
                 (txt "1 Introduction") []))
  = Some (normalize long_sentence).
Proof.
  apply (abstract_in_the_usual_layout_is_extracted
           [Some (txt "A title")] [] (txt "Abstract") long_sentence
           (txt "1 Introduction") 49).
  - apply ascii_only_check. vm_compute. reflexivity.
  - vm_compute. reflexivity.
  - vm_compute. reflexivity.
  - apply not_elem_check. vm_compute. reflexivity.
  - vm_compute. reflexivity.
  - reflexivity.
  - apply Nat.ltb_lt. vm_compute. reflexivity.
Defined.

Section ConclusionLayout.
Local Open Scope re_scope.

Lemma run_cat r1 r2 s c k :
  run (Cat r1 r2) s c k = run r1 s c (fun s' c' => run r2 s' c' k).
Proof. reflexivity. Qed.

Lemma run_opt_then r1 r2 s c k :
  run r2 s c k <> None -> run (Cat (opt r1) r2) s c k <> None.
Proof.
  intros H. unfold opt. cbn [run]. by destruct (run r1 s c _).
Qed.

Lemma numbered_chars s s1 :
  matches Patterns.numbered s s1 -> exists z, s = z ++ s1 /\ numbering z.
Proof.
  unfold Patterns.numbered, opt, digits, numbering. intros H.
  apply matches_alt in H as [H|H].
  - apply matches_cat in H as (s2 & Hd & H).
    apply matches_cat in Hd as (s3 & Hd1 & Hd2).
    apply matches_cls in Hd1 as (a & -> & Ha).
    apply matches_many in Hd2 as (x & -> & Hx).
    apply matches_cat in H as (s4 & Hdot & Hws).
    apply matches_many in Hws as (w & -> & Hw).
    assert (Hdig : Forall (fun a => is_digit a || (a =? 46) || is_space a = true) (a :: x)).
    { constructor; [ by rewrite Ha | ].
      eapply Forall_impl; [ exact Hx | ]. cbn. by intros ? ->. }
    assert (Hsp : Forall (fun a => is_digit a || (a =? 46) || is_space a = true) w).
    { eapply Forall_impl; [ exact Hw | ]. cbn. intros ? ->. by rewrite orb_true_r. }
    apply matches_alt in Hdot as [Hdot|Hdot].
    + apply matches_cls in Hdot as (o & -> & Ho).
      exists ((a :: x) ++ [o] ++ w). split; [ by rewrite <- !app_assoc | ].
      apply Forall_app. split; [ exact Hdig | ].
      apply Forall_app. split; [ | exact Hsp ].
      constructor; [ | constructor ]. unfold dot in Ho. cbn in Ho.
      by rewrite Ho, orb_true_r.
    + apply matches_eps in Hdot as ->.
      exists ((a :: x) ++ w). split; [ by rewrite <- !app_assoc | ].
      apply Forall_app. by split.
  - apply matches_eps in H as ->. by exists [].
Qed.

Lemma contains_app_false (w x y : text) :
  w <> [] -> (forall a, a ∈ y -> a ∉ w) ->
  contains w x = false -> contains w (x ++ y) = false.
Proof.
  intros Hw Hy Hx. destruct (contains w (x ++ y)) eqn:Hc; [ exfalso | done ].
  apply contains_spec in Hc as (p & q & Hc).
  assert (Hin : contains w x = true); [ | congruence ].
  apply contains_spec.
  apply app_eq_inv in Hc as [(k & -> & Hk)|(k & -> & Hk)].
  - apply app_eq_inv in Hk as [(k2 & -> & Hk2)|(k2 & -> & Hk2)].
    + destruct k2 as [|a k2].
      * exists p, []. by rewrite !app_nil_r.
      * exfalso. apply (Hy a); [ rewrite Hk2; by left | ].
        apply elem_of_app. right. by left.
    + by exists p, k2.
  - exfalso. destruct w as [|a w]; [ done | ].
    apply (Hy a); [ | by left ]. rewrite Hk. apply elem_of_app. right. by left.
Qed.

(** A pattern cannot match a word from inside a text that does not
    mention it and ends with a character that is not in the word. *)
Lemma no_word_before W T t0 k r m c kk :
  (T = [] \/ exists l z, T = l ++ [z] /\ lower z ∉ lowercase (txt W)) ->
  contains (lowercase (txt W)) (lowercase T) = false ->
  T = t0 ++ k -> k <> [] ->
  run (Cat (Patterns.word W) r) (k ++ m) c kk = None.
Proof.
  intros HT Hno Hk Hne.
  destruct (run _ _ c kk) as [x|] eqn:Hrun; [ exfalso | done ].
  apply run_sound in Hrun as (s' & c' & Hm & _).
  apply matches_cat in Hm as (s1 & Hw & _).
  apply lit_ignorecase_inv in Hw as (u & Hu & Hlow).
  symmetry in Hu. apply app_eq_inv in Hu as [(k2 & Hd & _)|(k2 & Hd & _)].
  - destruct HT as [->|(l & z & -> & Hz)].
    { destruct t0, k; done. }
    apply Hz. rewrite <- Hlow, Hd.
    assert (Hlast : last k = Some z).
    { pose proof (f_equal last Hk) as Hl. rewrite last_snoc, last_app in Hl.
      destruct (last k) as [y|] eqn:Hy; [ congruence | ].
      apply last_None in Hy. done. }
    apply last_Some in Hlast as [k' ->].
    unfold lowercase. rewrite !map_app. cbn [List.map].
    apply elem_of_app. left. apply elem_of_app. right. by left.
  - assert (Hc : contains (lowercase (txt W)) (lowercase T) = true); [ | congruence ].
    apply contains_spec. exists (lowercase t0), (lowercase k2).
    by rewrite <- Hlow, <- !lowercase_app, <- Hd, Hk.
Qed.

Lemma lowercase_Forall2 (u l : text) :
  lowercase u = lowercase l ->
  Forall2 (fun c a => (lower c =? lower a) = true) u l.
Proof.
  revert l. induction u as [|a u IH]; intros [|b l] H; try discriminate H.
  - constructor.
  - injection H as Ha Hu. constructor; [ by apply N.eqb_eq | by apply IH ].
Qed.

Lemma back_matter_needs_newline a s c :
  (a =? NL) = false -> run Patterns.back_matter2 (a :: s) c accept = None.
Proof. intros Ha. unfold Patterns.back_matter2. cbn [run nl]. by rewrite Ha. Qed.

Lemma back_matter_follows u r c :
  lowercase u ∈ [txt "reference"; txt "acknowledgement"] ->
  run Patterns.back_matter2 (NL :: NL :: u ++ r) c accept <> None.
Proof.
  intros Hu. apply (run_complete _ _ r); [ | done ].
  unfold Patterns.back_matter2. apply M_alt_l.
  apply (M_cat _ _ _ (NL :: u ++ r)); [ by constructor | ].
  apply (M_cat _ _ _ (u ++ r)).
  { apply M_many_step; [ reflexivity | apply M_many_stop ]. }
  rewrite !elem_of_cons, elem_of_nil in Hu. destruct Hu as [Hu|[Hu|[]]].
  - do 2 apply M_alt_r. apply M_alt_l.
    apply lit_ignorecase, lowercase_Forall2. by rewrite Hu.
  - apply M_alt_l. apply lit_ignorecase, lowercase_Forall2. by rewrite Hu.
Qed.

Lemma letter_is_not_space a l :
  lower a = l -> in_range 97 122 l = true -> is_space a = false.
Proof.
  unfold lower, is_space, in_range. intros <-.
  destruct ((65 <=? a) && (a <=? 90)) eqn:Hup.
  - apply andb_true_iff in Hup as [H1 H2]. apply N.leb_le in H1, H2. intros _.
    repeat (apply orb_false_iff; split);
      rewrite ?andb_false_iff, ?N.leb_gt, ?N.eqb_neq; lia.
  - rewrite andb_true_iff, !N.leb_le. intros [? ?].
    repeat (apply orb_false_iff; split);
      rewrite ?andb_false_iff, ?N.leb_gt, ?N.eqb_neq; lia.
Qed.

(** The rest of the first conclusion pattern, after the word. *)
Lemma conclusion_body_run (pl b u r : text) :
  plural_ending pl ->
  (forall a, head b = Some a -> is_space a = false) -> b <> [] ->
  NL ∉ b ->
  lowercase u ∈ [txt "reference"; txt "acknowledgement"] ->
  run (Patterns.plural_s ~> ws ~> nl ~> body ~> Patterns.until_back_matter2)
      (pl ++ NL :: NL :: b ++ NL :: NL :: u ++ r) None accept
  = Some (NL :: NL :: u ++ r, Some b).
Proof.
  intros Hpl Hhead Hne Hnl Hu.
  assert (Hrest : run (ws ~> nl ~> body ~> Patterns.until_back_matter2)
                    (NL :: NL :: b ++ NL :: NL :: u ++ r) None accept
                  = Some (NL :: NL :: u ++ r, Some b)).
  { destruct b as [|a b0]; [ done | ]. cbn [app].
    apply run_ws_nl; [ by apply Hhead | ].
    change (a :: b0 ++ NL :: NL :: u ++ r) with ((a :: b0) ++ NL :: NL :: u ++ r).
    unfold Patterns.until_back_matter2.
    destruct (run Patterns.back_matter2 (NL :: NL :: u ++ r) (Some (a :: b0)) accept)
      as [sf|] eqn:Hend; [ | by apply back_matter_follows in Hend ].
    eapply run_body_until.
    - reflexivity.
    - intros b1 [|x b2] c0 Hb Hb2; [ done | ]. cbn [app].
      apply back_matter_needs_newline. apply N.eqb_neq. intros ->.
      apply Hnl. rewrite Hb. apply elem_of_app. right. by left.
    - exact Hend.
    - reflexivity. }
  unfold Patterns.plural_s, opt. cbn [run]. unfold chr at 1. cbn [run].
  destruct Hpl as [->|(a & -> & Ha)]; cbn [app].
  - change (lower NL =? lower 115) with false. cbv iota.
    cbn [run] in Hrest. exact Hrest.
  - rewrite Ha. change (115 =? lower 115) with true. cbv iota.
    cbn [run] in Hrest. by rewrite Hrest.
Qed.

Lemma search_from_leftmost r pre m : forall j,
  run r m None accept <> None ->
  exists mo n sf,
    search_from r (pre ++ m) j = Some mo
    /\ (n <= length pre)%nat
    /\ run r (drop n pre ++ m) None accept = Some (sf, m_group1 mo).
Proof.
  induction pre as [|a pre IH]; intros j Hm.
  - destruct (run r m None accept) as [[sf c]|] eqn:Hrun; [ | done ].
    exists {| m_start := j; m_group1 := c |}, 0%nat, sf.
    split; [ exact (search_from_hit _ _ _ _ _ Hrun) | ]. split; [ done | exact Hrun ].
  - cbn [app search_from].
    destruct (run r (a :: pre ++ m) None accept) as [[sf c]|] eqn:Hrun.
    + exists {| m_start := j; m_group1 := c |}, 0%nat, sf.
      split; [ done | ]. split; [ cbn; lia | exact Hrun ].
    + destruct (IH (S j) Hm) as (mo & n & sf & Hs & Hn & Hr).
      exists mo, (S n), sf. split; [ exact Hs | ]. split; [ cbn; lia | exact Hr ].
Qed.

(** Wherever the first conclusion pattern matches from, at or before the
    heading, it captures the text under the heading. *)
Lemma conclusion_heading_capture (T label pl b u r : text) n sf g :
  (T = [] \/ exists l z, T = l ++ [z] /\ lower z ∉ lowercase (txt "Conclusion")) ->
  contains (lowercase (txt "Conclusion")) (lowercase T) = false ->
  lowercase label = txt "conclusion" ->
  plural_ending pl ->
  (forall a, head b = Some a -> is_space a = false) -> b <> [] ->
  NL ∉ b ->
  lowercase u ∈ [txt "reference"; txt "acknowledgement"] ->
  (n <= length T)%nat ->
  run (hd Eps Patterns.conclusion_patterns)
      (drop n T ++ label ++ pl ++ NL :: NL :: b ++ NL :: NL :: u ++ r) None accept
  = Some (sf, g) ->
  g = Some b.
Proof.
  intros HT Hno Hlabel Hpl Hhead Hne Hnl Hu Hn Hrun.
  cbn [hd Patterns.conclusion_patterns] in Hrun. rewrite run_cat in Hrun.
  apply run_sound in Hrun as (s1 & c1 & Hnum & Hrun & Hc1 & _).
  rewrite (Hc1 eq_refl) in Hrun. clear c1 Hc1.
  apply numbered_chars in Hnum as (z & Hz & Hnumz).
  set (m := label ++ pl ++ NL :: NL :: b ++ NL :: NL :: u ++ r) in *.
  assert (Hs1 : s1 = m).
  { apply app_eq_inv in Hz as [(k & Hk & Hs1)|(k & Hk & Hs1)].
    - destruct k as [|a k]; [ exact Hs1 | exfalso ].
      subst s1.
      rewrite (no_word_before "Conclusion" T (take n T ++ z) (a :: k)) in Hrun;
        [ discriminate | exact HT | exact Hno | | done ].
      by rewrite <- app_assoc, <- Hk, take_drop.
    - destruct k as [|a k]; [ by rewrite Hs1 | exfalso ].
      destruct label as [|l0 label']; [ discriminate Hlabel | ].
      unfold m in Hs1. cbn [app] in Hs1. injection Hs1 as <- _.
      injection Hlabel as Hl0 _.
      unfold numbering in Hnumz. rewrite Hk, Forall_app, Forall_cons in Hnumz.
      destruct Hnumz as (_ & Ha & _).
      pose proof (letter_is_not_space l0 _ Hl0 eq_refl) as Hsp.
      rewrite Hsp, orb_false_r in Ha.
      unfold lower in Hl0. apply orb_true_iff in Ha as [Ha|Ha].
      + unfold is_digit, in_range in Ha. apply andb_true_iff in Ha as [H1 H2].
        apply N.leb_le in H1, H2.
        destruct (in_range 65 90 l0) eqn:E; [ | lia ].
        unfold in_range in E. apply andb_true_iff in E as [E1 E2].
        apply N.leb_le in E1, E2. lia.
      + apply N.eqb_eq in Ha. subst l0. vm_compute in Hl0. discriminate. }
  subst s1. unfold m in Hrun.
  rewrite (run_word_ci "Conclusion" label) in Hrun by exact Hlabel.
  rewrite conclusion_body_run in Hrun by done.
  by injection Hrun as _ <-.
Qed.

Lemma conclusion_heading_matches (label pl b u r : text) :
  lowercase label = txt "conclusion" ->
  plural_ending pl ->
  (forall a, head b = Some a -> is_space a = false) -> b <> [] ->
  NL ∉ b ->
  lowercase u ∈ [txt "reference"; txt "acknowledgement"] ->
  run (hd Eps Patterns.conclusion_patterns)
      (label ++ pl ++ NL :: NL :: b ++ NL :: NL :: u ++ r) None accept <> None.
Proof.
  intros Hlabel Hpl Hhead Hne Hnl Hu.
  cbn [hd Patterns.conclusion_patterns]. unfold Patterns.numbered at 1.
  apply run_opt_then.
  rewrite (run_word_ci "Conclusion" label) by exact Hlabel.
  by rewrite conclusion_body_run.
Qed.


Lemma numbering_char_not_letter z :
  is_digit z || (z =? 46) || is_space z = true -> in_range 97 122 (lower z) = false.
Proof.
  intros Hz. destruct (in_range 97 122 (lower z)) eqn:Hl; [ exfalso | done ].
  pose proof (letter_is_not_space z _ eq_refl Hl) as Hsp.
  rewrite Hsp, orb_false_r in Hz. unfold lower, in_range in Hl.
  apply orb_true_iff in Hz as [Hz|Hz].
  - unfold is_digit, in_range in Hz. apply andb_true_iff in Hz as [H1 H2].
    apply N.leb_le in H1, H2.
    destruct ((65 <=? z) && (z <=? 90)) eqn:E.
    + apply andb_true_iff in E as [E1 E2]. apply N.leb_le in E1, E2. lia.
    + apply andb_true_iff in Hl as [L1 L2]. apply N.leb_le in L1, L2. lia.
  - apply N.eqb_eq in Hz. subst z. vm_compute in Hl. discriminate.
Qed.

Lemma not_letter_not_in_label W z :
  forallb (in_range 97 122) (lowercase (txt W)) = true ->
  in_range 97 122 z = false -> z ∉ lowercase (txt W).
Proof.
  intros HW Hz Hin. rewrite forallb_forall in HW.
  apply list_elem_of_In in Hin. apply HW in Hin. congruence.
Qed.

End ConclusionLayout.

(** X19.  A conclusion in the usual layout of a conversion is found.  In
    a list of texts where a heading that reads Conclusion or Conclusions,
    in any case and with or without a section number, is followed by a
    text without newline and then by a text that starts with Reference or
    Acknowledgement, and where no text before mentions the word
    conclusion, the conclusion returned is the text under the heading,
    stripped and with its white space collapsed, provided this is longer
    than 50 characters. *)
Theorem conclusion_in_the_usual_layout_is_extracted
  (before more : list (option text)) (heading c next number label pl : text) :
  ascii_only (join_texts before) ->
  contains (txt "conclusion") (lowercase (join_texts before)) = false ->
  strip heading = number ++ label ++ pl ->
  numbering number -> lowercase label = txt "conclusion" -> plural_ending pl ->
  NL ∉ c ->
  begins_with [txt "reference"; txt "acknowledgement"] (strip next) ->
  (MIN_LENGTH < length (normalize c))%nat ->
  conclusion (extract_sections (section_layout before heading c next more))
  = Some (normalize c).
Proof.
  intros _ Hno Hheading Hnumber Hlabel Hpl Hnl (u & r & Hnext & Hu) Hlen.
  unfold extract_sections, section_layout. cbn [reconstruct].
  set (pre := join_texts before) in *.
  set (T := pre ++ number).
  set (r' := r ++ NL :: NL :: join_texts more).
  set (m := label ++ pl ++ NL :: NL :: strip c ++ NL :: NL :: u ++ r').
  assert (Hcontent : join_texts (before ++ [Some heading; Some c; Some next] ++ more)
                     = T ++ m).
  { rewrite join_texts_app. cbn [app join_texts]. rewrite Hheading, Hnext.
    unfold T, m, r', pre. by rewrite <- !app_assoc. }
  rewrite Hcontent. clear Hcontent.
  assert (Hb : strip c <> []).
  { intros Hb. unfold normalize in Hlen. rewrite Hb in Hlen.
    cbn in Hlen. unfold MIN_LENGTH in Hlen. lia. }
  assert (Hnl' : NL ∉ strip c).
  { intros Hin. apply Hnl. destruct (strip_infix c) as (w1 & w2 & ->).
    apply elem_of_app. right. apply elem_of_app. by left. }
  assert (Hletters : forallb (in_range 97 122) (lowercase (txt "Conclusion")) = true)
    by reflexivity.
  assert (HT : T = [] \/ exists l z, T = l ++ [z]
                                     /\ lower z ∉ lowercase (txt "Conclusion")).
  { unfold T. destruct (last number) as [z|] eqn:Hz.
    - apply last_Some in Hz as [l Hl]. right. exists (pre ++ l), z.
      split; [ by rewrite Hl, app_assoc | ].
      apply not_letter_not_in_label; [ exact Hletters | ].
      apply numbering_char_not_letter. unfold numbering in Hnumber.
      rewrite Hl, Forall_app, Forall_singleton in Hnumber. apply Hnumber.
    - apply last_None in Hz. rewrite Hz, app_nil_r.
      destruct (join_texts_last before) as [Hp|[l Hl]]; [ left; exact Hp | ].
      right. exists l, NL. split; [ exact Hl | ].
      apply not_letter_not_in_label; [ exact Hletters | reflexivity ]. }
  assert (HnoT : contains (lowercase (txt "Conclusion")) (lowercase T) = false).
  { unfold T. rewrite lowercase_app. apply contains_app_false; [ done | | exact Hno ].
    intros a Ha. unfold lowercase in Ha. apply list_elem_of_In, in_map_iff in Ha.
    destruct Ha as (z & <- & Hz). apply list_elem_of_In in Hz.
    apply not_letter_not_in_label; [ exact Hletters | ].
    apply numbering_char_not_letter. unfold numbering in Hnumber.
    rewrite Forall_forall in Hnumber. by apply Hnumber. }
  destruct (search_from_leftmost (hd Eps Patterns.conclusion_patterns) T m 0%nat)
    as (mo & n & sf & Hsearch & Hn & Hrun).
  { apply conclusion_heading_matches; try done. apply strip_ends. }
  assert (Hg : m_group1 mo = Some (strip c)).
  { eapply (conclusion_heading_capture T label pl (strip c) u r' n sf); try done.
    apply strip_ends. }
  assert (Hfind : find_conclusion (T ++ m) = Ok (Some (normalize c))).
  { unfold find_conclusion.
    pose proof (cascade_first (fun g => cut_references (normalize g)) (T ++ m) []
                  (hd Eps Patterns.conclusion_patterns)
                  (tl Patterns.conclusion_patterns) (strip c) (Forall_nil_2 _)) as Hc.
    cbv beta in Hc. rewrite !cut_references_normalize, !normalize_strip in Hc.
    apply Hc; [ | exact Hlen ].
    exists mo. split; [ exact Hsearch | exact Hg ]. }
  assert (Hblank : is_blank (T ++ m) = false).
  { unfold is_blank.
    destruct (strip (T ++ m)) as [|a0 s0] eqn:Hs; [ exfalso | done ].
    destruct (strip c) as [|a b0] eqn:Hsb; [ done | ].
    apply (strip_nonblank (T ++ m) a); [ | | exact Hs ].
    - unfold m. rewrite !elem_of_app. right. right. right.
      rewrite !elem_of_cons. right. right. rewrite elem_of_app. left. by left.
    - pose proof (proj1 (strip_ends c) a) as Ha. rewrite Hsb in Ha. by apply Ha. }
  rewrite Hblank. unfold extract_from_content, extract_with. rewrite Hfind.
  by destruct (find_abstract_total (T ++ m)) as [a ->].
Qed.

Lemma conclusion_in_the_usual_layout_is_extracted_witness :
  conclusion (extract_sections
                (section_layout [Some (txt "A title")] (txt "5 Conclusion")
                   long_sentence (txt "References") []))
  = Some (normalize long_sentence).
Proof.
  apply (conclusion_in_the_usual_layout_is_extracted
           [Some (txt "A title")] [] (txt "5 Conclusion") long_sentence
           (txt "References") (txt "5 ") (txt "Conclusion") []).
  - apply ascii_only_check. vm_compute. reflexivity.
  - vm_compute. reflexivity.
  - vm_compute. reflexivity.
  - unfold numbering. repeat constructor.
  - vm_compute. reflexivity.
  - by left.
  - apply not_elem_check. vm_compute. reflexivity.
  - exists (txt "Reference"), (txt "s"). split; [ vm_compute; reflexivity | ].
    apply elem_of_cons. left. vm_compute. reflexivity.
  - apply Nat.ltb_lt. vm_compute. reflexivity.
Defined.
